(** * swr: key codec, cache store, revalidation and mutation engines

    A shallow embedding of [src/cache.ts], [src/libs/hash.ts],
    [src/config.ts] and of the [trigger], [broadcastState], [mutate] and
    [revalidate] functions of [src/use-swr.ts].

    JavaScript objects used as dictionaries are finite maps ([gmap]), the
    module-level registries are fields of one [world] record that every
    operation threads, and an [async] function is cut at its [await]: the
    part before the suspension and the part after it are two functions,
    each of which runs to completion without interleaving, as a
    JavaScript job does. *)

From Stdlib Require Import ZArith QArith Qpower Qround Lqa.
From stdpp Require Import gmap strings list pretty.

Local Open Scope string_scope.
Local Open Scope list_scope.
Local Open Scope Z_scope.

(** ** JavaScript values *)

(** What a call yields: a value, or a thrown value. *)
Inductive outcome (A : Type) : Type :=
| Returns (a : A)
| Throws (e : A).
Arguments Returns {A} a.
Arguments Throws {A} e.

(** The values that keys, cached data and errors range over.  Numbers are
    the integers and [NaN]; arrays, plain objects and promises carry the
    reference that identifies them ([ref]); a function is given by its
    source text (what [String] prints) and by what calling it yields. *)
#[warnings="-register-all"]
Inductive jsval : Type :=
| VUndefined
| VNull
| VBool (b : bool)
| VNum (n : Z)
| VNaN
| VStr (s : string)
| VFun (src : string) (call : outcome jsval)
| VArr (ref : nat) (elems : list jsval)
| VObj (ref : nat)
| VPromise (ref : nat).

(** [typeof v] *)
Definition typeof (v : jsval) : string :=
  match v with
  | VUndefined => "undefined"
  | VNull => "object"
  | VBool _ => "boolean"
  | VNum _ | VNaN => "number"
  | VStr _ => "string"
  | VFun _ _ => "function"
  | VArr _ _ | VObj _ | VPromise _ => "object"
  end.

(** [Array.isArray(v)] *)
Definition Array_isArray (v : jsval) : bool :=
  match v with VArr _ _ => true | _ => false end.

(** [!!v] *)
Definition truthy (v : jsval) : bool :=
  match v with
  | VUndefined | VNull | VNaN => false
  | VBool b => b
  | VNum n => negb (n =? 0)
  | VStr s => negb (String.eqb s "")
  | VFun _ _ | VArr _ _ | VObj _ | VPromise _ => true
  end.

(** [a || b] *)
Definition js_or (a b : jsval) : jsval := if truthy a then a else b.

(** [String(v)]; an array prints its elements joined by commas, with
    [null] and [undefined] elements printed as nothing. *)
Fixpoint js_String (v : jsval) : string :=
  match v with
  | VUndefined => "undefined"
  | VNull => "null"
  | VBool true => "true"
  | VBool false => "false"
  | VNum n => pretty n
  | VNaN => "NaN"
  | VStr s => s
  | VFun src _ => src
  | VArr _ elems =>
      (fix join (l : list jsval) : string :=
         match l with
         | [] => ""
         | x :: l' =>
             let sx := match x with
                       | VUndefined | VNull => ""
                       | _ => js_String x
                       end in
             match l' with
             | [] => sx
             | _ => sx +:+ "," +:+ join l'
             end
         end) elems
  | VObj _ => "[object Object]"
  | VPromise _ => "[object Promise]"
  end.

(** The reference of a value that [WeakMap] can hold as a key. *)
Definition obj_ref (v : jsval) : option nat :=
  match v with
  | VArr r _ | VObj r | VPromise r => Some r
  | _ => None
  end.

(** ** Options, configuration, effects *)

(** Modelled from the spec: [RevalidateOptionInterface] is declared in
    [types.ts], which is not among the sources; its fields are the two
    that [revalidate] and [onErrorRetry] read.  [None] is an absent
    property. *)
Record RevalidateOption : Type := {
  dedupe : option bool;
  retryCount : option Z
}.

(** [Object.assign(target, source)] on revalidation options: a property
    present in [source] overrides the one of [target]. *)
Definition assign_opts (target source : RevalidateOption) : RevalidateOption :=
  {| dedupe := match dedupe source with Some b => Some b | None => dedupe target end;
     retryCount := match retryCount source with
                   | Some n => Some n
                   | None => retryCount target
                   end |}.

(** What [setTimeout] is given to run. *)
Inductive timer : Type :=
| TLoadingSlow (key : string)
| TDedupExpire (key : string)
| TRevalidate (key : string) (opts : RevalidateOption).

(** The calls that the modelled functions make: cache listeners,
    fetchers, a function given to [mutate], configuration callbacks,
    per-key updaters and timers.  They are recorded in the order in which
    they are made.  A listener, a configuration callback and a function
    given to [mutate] are taken to return without touching the
    registries; what a fetcher returns is given by the fetcher; what an
    updater does is run where it is called ([call_updater_false],
    [run_updater]), [EUpdater] only records the call. *)
Inductive effect : Type :=
| EListener (l : nat)
| EFetch (args : list jsval)
| ECall (src : string) (args : list jsval)
| ECallback (event : string) (params : list jsval)
| EOnErrorRetry (err : jsval) (key : string) (opts : RevalidateOption)
| EUpdater (u : nat) (shouldRevalidate : bool) (data error : jsval)
    (dedupe : option bool)
| ESetTimeout (t : timer) (delay : Z).

(** ** Configuration and hook instances *)

(** Modelled from the spec: [ConfigInterface] is declared in [types.ts],
    which is not among the sources; the fields are those of the
    configuration surface that the modelled functions read.
    [defaultOnErrorRetry] tells whether [config.onErrorRetry] is the
    function of [config.ts]. *)
Record Config : Type := {
  loadingTimeout : Z;
  dedupingInterval : Z;
  errorRetryInterval : Z;
  errorRetryCount : option Z;
  shouldRetryOnError : bool;
  suspense : bool;
  compare : jsval -> jsval -> bool;
  defaultOnErrorRetry : bool
}.

(** A fetcher: what its n-th invocation (counted over all fetchers)
    yields on the given arguments. *)
Definition fetcherFn : Type := nat -> list jsval -> outcome jsval.

(** What the closures of one render capture: the serialized key, the
    fetcher and the merged configuration. *)
Record Hook : Type := {
  key : string;
  fnArgs : option (list jsval);
  keyErr : string;
  fn : option fetcherFn;
  config : Config
}.

(** The mutable cells of the hook instance: [stateRef.current],
    [stateDependencies.current], [unmountedRef.current], whether the
    [dispatch] variable still holds the reducer (the cleanup of the mount
    effect assigns [() => null] to it), and how many times [rerender] was
    called. *)
Record HookState : Type := {
  data : jsval;
  error : jsval;
  isValidating : bool;
  dep_data : bool;
  dep_error : bool;
  dep_isValidating : bool;
  unmountedRef : bool;
  dispatch_live : bool;
  rerenders : nat
}.

(** Modelled from the spec: [actionType] is declared in [types.ts], which
    is not among the sources; it is the payload of [dispatch], with the
    three fields of the visible state.  [None] is an absent property. *)
Record action : Type := {
  a_data : option jsval;
  a_error : option jsval;
  a_isValidating : option bool
}.

(** ** The shared state *)

(** The module-level state of [hash.ts] ([table], [counter]), the [Cache]
    instance of [config.ts] ([__cache], [__listeners]), the registries of
    [use-swr.ts], and the environment: what [Date.now()] and
    [Math.random()] return at their n-th call, and whether the document
    is visible.

    The functions that [CACHE_REVALIDATORS] holds are the [onUpdate]
    closures of the mounted hooks.  A closure is named by a number, and
    [hooks] gives what the closure of that number captured (the [Hook])
    and the cells it shares with its hook (the [HookState]). *)
Record world : Type := {
  table : gmap nat nat;
  counter : nat;
  __cache : gmap string jsval;
  __listeners : list nat;
  CONCURRENT_PROMISES : gmap string jsval;
  CONCURRENT_PROMISES_TS : gmap string Z;
  CACHE_REVALIDATORS : gmap string (list nat);
  hooks : gmap nat (Hook * HookState);
  MUTATION_TS : gmap string Z;
  MUTATION_END_TS : gmap string Z;
  clock : nat -> Z;
  clock_reads : nat;
  random : nat -> Q;
  random_reads : nat;
  visible : bool;
  effects : list effect
}.

Definition set_hash (t : gmap nat nat) (c : nat) (w : world) : world :=
  {| table := t; counter := c; __cache := __cache w;
     __listeners := __listeners w;
     CONCURRENT_PROMISES := CONCURRENT_PROMISES w;
     CONCURRENT_PROMISES_TS := CONCURRENT_PROMISES_TS w;
     CACHE_REVALIDATORS := CACHE_REVALIDATORS w;
     MUTATION_TS := MUTATION_TS w; MUTATION_END_TS := MUTATION_END_TS w;
     clock := clock w; clock_reads := clock_reads w;
     random := random w; random_reads := random_reads w;
     hooks := hooks w;
     visible := visible w; effects := effects w |}.

Definition set___cache (c : gmap string jsval) (w : world) : world :=
  {| table := table w; counter := counter w; __cache := c;
     __listeners := __listeners w;
     CONCURRENT_PROMISES := CONCURRENT_PROMISES w;
     CONCURRENT_PROMISES_TS := CONCURRENT_PROMISES_TS w;
     CACHE_REVALIDATORS := CACHE_REVALIDATORS w;
     MUTATION_TS := MUTATION_TS w; MUTATION_END_TS := MUTATION_END_TS w;
     clock := clock w; clock_reads := clock_reads w;
     random := random w; random_reads := random_reads w;
     hooks := hooks w;
     visible := visible w; effects := effects w |}.

Definition set_inflight (p : gmap string jsval) (ts : gmap string Z)
    (w : world) : world :=
  {| table := table w; counter := counter w; __cache := __cache w;
     __listeners := __listeners w;
     CONCURRENT_PROMISES := p;
     CONCURRENT_PROMISES_TS := ts;
     CACHE_REVALIDATORS := CACHE_REVALIDATORS w;
     MUTATION_TS := MUTATION_TS w; MUTATION_END_TS := MUTATION_END_TS w;
     clock := clock w; clock_reads := clock_reads w;
     random := random w; random_reads := random_reads w;
     hooks := hooks w;
     visible := visible w; effects := effects w |}.

Definition set_MUTATION_TS (m : gmap string Z) (w : world) : world :=
  {| table := table w; counter := counter w; __cache := __cache w;
     __listeners := __listeners w;
     CONCURRENT_PROMISES := CONCURRENT_PROMISES w;
     CONCURRENT_PROMISES_TS := CONCURRENT_PROMISES_TS w;
     CACHE_REVALIDATORS := CACHE_REVALIDATORS w;
     MUTATION_TS := m; MUTATION_END_TS := MUTATION_END_TS w;
     clock := clock w; clock_reads := clock_reads w;
     random := random w; random_reads := random_reads w;
     hooks := hooks w;
     visible := visible w; effects := effects w |}.

Definition set_MUTATION_END_TS (m : gmap string Z) (w : world) : world :=
  {| table := table w; counter := counter w; __cache := __cache w;
     __listeners := __listeners w;
     CONCURRENT_PROMISES := CONCURRENT_PROMISES w;
     CONCURRENT_PROMISES_TS := CONCURRENT_PROMISES_TS w;
     CACHE_REVALIDATORS := CACHE_REVALIDATORS w;
     MUTATION_TS := MUTATION_TS w; MUTATION_END_TS := m;
     clock := clock w; clock_reads := clock_reads w;
     random := random w; random_reads := random_reads w;
     hooks := hooks w;
     visible := visible w; effects := effects w |}.

Definition set_clock_reads (n : nat) (w : world) : world :=
  {| table := table w; counter := counter w; __cache := __cache w;
     __listeners := __listeners w;
     CONCURRENT_PROMISES := CONCURRENT_PROMISES w;
     CONCURRENT_PROMISES_TS := CONCURRENT_PROMISES_TS w;
     CACHE_REVALIDATORS := CACHE_REVALIDATORS w;
     MUTATION_TS := MUTATION_TS w; MUTATION_END_TS := MUTATION_END_TS w;
     clock := clock w; clock_reads := n;
     random := random w; random_reads := random_reads w;
     hooks := hooks w;
     visible := visible w; effects := effects w |}.

Definition set_random_reads (n : nat) (w : world) : world :=
  {| table := table w; counter := counter w; __cache := __cache w;
     __listeners := __listeners w;
     CONCURRENT_PROMISES := CONCURRENT_PROMISES w;
     CONCURRENT_PROMISES_TS := CONCURRENT_PROMISES_TS w;
     CACHE_REVALIDATORS := CACHE_REVALIDATORS w;
     MUTATION_TS := MUTATION_TS w; MUTATION_END_TS := MUTATION_END_TS w;
     clock := clock w; clock_reads := clock_reads w;
     random := random w; random_reads := n;
     hooks := hooks w;
     visible := visible w; effects := effects w |}.

Definition set_effects (l : list effect) (w : world) : world :=
  {| table := table w; counter := counter w; __cache := __cache w;
     __listeners := __listeners w;
     CONCURRENT_PROMISES := CONCURRENT_PROMISES w;
     CONCURRENT_PROMISES_TS := CONCURRENT_PROMISES_TS w;
     CACHE_REVALIDATORS := CACHE_REVALIDATORS w;
     MUTATION_TS := MUTATION_TS w; MUTATION_END_TS := MUTATION_END_TS w;
     clock := clock w; clock_reads := clock_reads w;
     random := random w; random_reads := random_reads w;
     hooks := hooks w;
     visible := visible w; effects := l |}.

Definition set_hooks (m : gmap nat (Hook * HookState)) (w : world) : world :=
  {| table := table w; counter := counter w; __cache := __cache w;
     __listeners := __listeners w;
     CONCURRENT_PROMISES := CONCURRENT_PROMISES w;
     CONCURRENT_PROMISES_TS := CONCURRENT_PROMISES_TS w;
     CACHE_REVALIDATORS := CACHE_REVALIDATORS w;
     MUTATION_TS := MUTATION_TS w; MUTATION_END_TS := MUTATION_END_TS w;
     clock := clock w; clock_reads := clock_reads w;
     random := random w; random_reads := random_reads w;
     hooks := m;
     visible := visible w; effects := effects w |}.

(** Record one more call, or several, after those already made. *)
Definition perform (e : effect) (w : world) : world :=
  set_effects (effects w ++ [e]) w.

Definition perform_all (es : list effect) (w : world) : world :=
  set_effects (effects w ++ es) w.

(** [Date.now()] *)
Definition Date_now (w : world) : Z * world :=
  (clock w (clock_reads w), set_clock_reads (S (clock_reads w)) w).

(** [Math.random()] *)
Definition Math_random (w : world) : Q * world :=
  (random w (random_reads w), set_random_reads (S (random_reads w)) w).

(** [isDocumentVisible()] *)
Definition isDocumentVisible (w : world) : bool := visible w.

(** ** libs/hash.ts *)

(** The string made of one double quote. *)
Definition quote : string := String (Ascii.ascii_of_nat 34) EmptyString.

(** One turn of the loop of [hash]: the text appended for [arg], and the
    table and counter after it. *)
Definition hash_arg (arg : jsval) (t : gmap nat nat) (c : nat)
    : string * gmap nat nat * nat :=
  match obj_ref arg with
  | None =>
      match arg with
      | VStr s => (quote +:+ s +:+ quote, t, c)
      | _ => (js_String arg, t, c)
      end
  | Some r =>
      match t !! r with
      | None => (pretty c, <[r := c]> t, S c)
      | Some n => (pretty n, t, c)
      end
  end.

Fixpoint hash_loop (args : list jsval) (key : string) (t : gmap nat nat)
    (c : nat) : string * gmap nat nat * nat :=
  match args with
  | [] => (key, t, c)
  | arg :: rest =>
      let '(_hash, t', c') := hash_arg arg t c in
      hash_loop rest (key +:+ "@" +:+ _hash) t' c'
  end.

Definition hash (args : list jsval) (w : world) : string * world :=
  match args with
  | [] => ("", w)
  | _ =>
      let '(key, t, c) := hash_loop args "arg" (table w) (counter w) in
      (key, set_hash t c w)
  end.

(** ** cache.ts *)

(** [serializeKey(key)]: the canonical key, the arguments for the fetcher
    ([None] is [null]) and the error key. *)
Definition serializeKey (key : jsval) (w : world)
    : (string * option (list jsval) * string) * world :=
  let key :=
    if String.eqb (typeof key) "function" then
      match key with
      | VFun _ (Returns k) => k
      | _ => VStr ""
      end
    else key in
  let '(key, args, w) :=
    match key with
    | VArr _ elems (* Array.isArray(key) *) =>
        let '(h, w') := hash elems w in (h, Some elems, w')
    | _ => (js_String (js_or key (VStr "")), None, w)
    end in
  let errorKey := if negb (String.eqb key "") then "err@" +:+ key else "" in
  ((key, args, errorKey), w).

(** [notify()] *)
Definition notify (w : world) : world :=
  perform_all (EListener <$> __listeners w) w.

(** [get(key)]: an absent key reads [undefined]. *)
Definition get (key : jsval) (w : world) : jsval * world :=
  let '((_key, _, _), w) := serializeKey key w in
  (default VUndefined (__cache w !! _key), w).

(** [set(key, value)] *)
Definition set (key value : jsval) (w : world) : world :=
  let '((_key, _, _), w) := serializeKey key w in
  notify (set___cache (<[_key := value]> (__cache w)) w).

(** [has(key)] *)
Definition has (key : jsval) (w : world) : bool * world :=
  let '((_key, _, _), w) := serializeKey key w in
  (bool_decide (is_Some (__cache w !! _key)), w).

(** [clear()] *)
Definition clear (w : world) : world :=
  notify (set___cache ∅ w).

(** [delete(key)] *)
Definition delete (key : jsval) (w : world) : world :=
  let '((_key, _, _), w) := serializeKey key w in
  notify (set___cache (base.delete _key (__cache w)) w).

(** ** Comparisons on values and on timestamps that may be [undefined] *)

(** [a === b] on values: by value on primitives ([NaN] equals nothing),
    by reference on arrays, objects and promises; functions are
    identified by their source text. *)
Definition strict_eq (a b : jsval) : bool :=
  match a, b with
  | VUndefined, VUndefined | VNull, VNull => true
  | VBool x, VBool y => Bool.eqb x y
  | VNum x, VNum y => x =? y
  | VStr x, VStr y => String.eqb x y
  | VFun x _, VFun y _ => String.eqb x y
  | VArr x _, VArr y _ | VObj x, VObj y | VPromise x, VPromise y =>
      Nat.eqb x y
  | _, _ => false
  end.

(** [a > b], [a <= b], [!!a], [a === b] where [a] and [b] are numbers or
    [undefined] ([None]): a comparison with [undefined] is false. *)
Definition js_gt (a b : option Z) : bool :=
  match a, b with Some x, Some y => y <? x | _, _ => false end.

Definition js_le (a b : option Z) : bool :=
  match a, b with Some x, Some y => x <=? y | _, _ => false end.

Definition truthy_ts (a : option Z) : bool :=
  match a with Some x => negb (x =? 0) | None => false end.

Definition strict_eq_ts (a b : option Z) : bool := bool_decide (a = b).

(** [~~q]: drop the fraction, then wrap to 32 bits. *)
Definition to_int32 (z : Z) : Z := (z + 2 ^ 31) mod 2 ^ 32 - 2 ^ 31.

Definition trunc (q : Q) : Z :=
  if Qle_bool 0 q then Qfloor q else Qceiling q.

Definition tilde_tilde (q : Q) : Z := to_int32 (trunc q).

(** [a << b] *)
Definition js_shl (a b : Z) : Z :=
  to_int32 (Z.shiftl (to_int32 a) (Z.land b 31)).

(** ** Numbers: the arithmetic of doubles *)

(** A JavaScript number is an IEEE 754 double; [a + b] and [a * b] are
    the doubles nearest to the exact sum and product (round to nearest,
    ties to even).  Numbers are given here by the rationals they denote,
    and the rounding is written out: [ilog2 x] is the exponent of a
    positive [x], the [e] with [2^e <= x < 2^(e+1)]; [round_half_even]
    rounds to the nearest integer, to the even one of the two when [x] is
    half way; [to_double x] keeps 53 significant bits of [x].  The range
    of the exponent is not modelled: [to_double] is the rounding of IEEE
    754 for the magnitudes between [2^-1022] and [2^1024]. *)
Definition ilog2 (x : Q) : Z :=
  let e := Z.log2 (Qnum x) - Z.log2 (Zpos (Qden x)) in
  if Qle_bool (2 ^ e) x then e else e - 1.

Definition round_half_even (x : Q) : Z :=
  let f := Qfloor x in
  match (x - inject_Z f ?= 1 # 2)%Q with
  | Lt => f
  | Gt => f + 1
  | Eq => if Z.even f then f else f + 1
  end.

Definition to_double_pos (x : Q) : Q :=
  let s := 52 - ilog2 x in
  (inject_Z (round_half_even (x * 2 ^ s)) * 2 ^ (- s))%Q.

Definition to_double (x : Q) : Q :=
  match (x ?= 0)%Q with
  | Eq => 0%Q
  | Gt => to_double_pos x
  | Lt => (- to_double_pos (- x))%Q
  end.

(** [a + b] and [a * b] on numbers *)
Definition js_add (a b : Q) : Q := to_double (a + b).
Definition js_mul (a b : Q) : Q := to_double (a * b).


(** ** config.ts *)

(** [onErrorRetry(_, __, config, revalidate, opts)]; [key] names the hook
    whose [revalidate] is passed.  The delay
    [~~((Math.random() + 0.5) * (1 << count)) * config.errorRetryInterval]
    is computed in doubles; it is a whole number, which [Qfloor] reads
    off. *)
Definition onErrorRetry (config : Config) (key : string)
    (opts : RevalidateOption) (w : world) : world :=
  if negb (isDocumentVisible w) then w
  else if match errorRetryCount config with
          | Some _ => js_gt (retryCount opts) (errorRetryCount config)
          | None => false
          end
  then w
  else
    let count := Z.min (default 0 (retryCount opts)) 8 in
    let '(r, w) := Math_random w in
    let timeout :=
      js_mul
        (inject_Z
           (tilde_tilde
              (js_mul (js_add r (1 # 2)) (inject_Z (js_shl 1 count)))))
        (inject_Z (errorRetryInterval config)) in
    perform (ESetTimeout (TRevalidate key opts) (Qfloor timeout)) w.

(** ** use-swr.ts: the reducer and the events of a hook *)

Definition dispatch (c : Config) (payload : action) (hs : HookState)
    : HookState :=
  if dispatch_live hs then
    let shouldUpdateState :=
      (bool_decide (is_Some (a_data payload)) && dep_data hs)
      || (bool_decide (is_Some (a_error payload)) && dep_error hs)
      || (bool_decide (is_Some (a_isValidating payload))
          && dep_isValidating hs) in
    {| data := default (data hs) (a_data payload);
       error := default (error hs) (a_error payload);
       isValidating := default (isValidating hs) (a_isValidating payload);
       dep_data := dep_data hs; dep_error := dep_error hs;
       dep_isValidating := dep_isValidating hs;
       unmountedRef := unmountedRef hs;
       dispatch_live := true;
       rerenders :=
         if (shouldUpdateState || suspense c) && negb (unmountedRef hs)
         then S (rerenders hs) else rerenders hs |}
  else hs.

(** [eventsRef.current.emit(event, ...params)] for the callbacks the
    model does not run. *)
Definition emit (hs : HookState) (event : string) (params : list jsval)
    (w : world) : world :=
  if unmountedRef hs then w else perform (ECallback event params) w.

(** [emit('onErrorRetry', err, key, config, revalidate, opts)] *)
Definition emit_onErrorRetry (h : Hook) (hs : HookState) (err : jsval)
    (opts : RevalidateOption) (w : world) : world :=
  if unmountedRef hs then w
  else
    let w := perform (EOnErrorRetry err (key h) opts) w in
    if defaultOnErrorRetry (config h)
    then onErrorRetry (config h) (key h) opts w
    else w.

(** [addRevalidator(CACHE_REVALIDATORS, callback)] and
    [removeRevalidator(CACHE_REVALIDATORS, callback)] *)
Definition addRevalidator (k : string) (callback : nat) (w : world)
    : gmap string (list nat) :=
  match CACHE_REVALIDATORS w !! k with
  | None => <[k := [callback]]> (CACHE_REVALIDATORS w)
  | Some l => <[k := l ++ [callback]]> (CACHE_REVALIDATORS w)
  end.

Fixpoint indexOf (l : list nat) (x : nat) : option nat :=
  match l with
  | [] => None
  | y :: l' => if Nat.eqb y x then Some O else S <$> indexOf l' x
  end.

Definition removeRevalidator (k : string) (callback : nat) (w : world)
    : gmap string (list nat) :=
  match CACHE_REVALIDATORS w !! k with
  | None => CACHE_REVALIDATORS w
  | Some revalidators =>
      match indexOf revalidators callback with
      | Some index =>
          let moved :=
            match last revalidators with
            | Some x => <[index := x]> revalidators
            | None => revalidators
            end in
          <[k := removelast moved]> (CACHE_REVALIDATORS w)
      | None => CACHE_REVALIDATORS w
      end
  end.

(** ** use-swr.ts: the updater of a hook, called by [broadcastState] *)

(** The first part of [onUpdate(shouldRevalidate, updatedData,
    updatedError, dedupe)], which updates the state of the hook: the
    data when some is given and it differs from the hook's, the error
    when it differs. *)
Definition onUpdate_state (h : Hook) (updatedData updatedError : jsval)
    (hs : HookState) : HookState :=
  let newData :=
    if negb (String.eqb (typeof updatedData) "undefined")
       && negb (compare (config h) (data hs) updatedData)
    then Some updatedData else None in
  let newError :=
    if negb (strict_eq (error hs) updatedError)
    then Some updatedError else None in
  let needUpdate :=
    bool_decide (is_Some newData) || bool_decide (is_Some newError) in
  if needUpdate
  then dispatch (config h)
         {| a_data := newData; a_error := newError;
            a_isValidating := None |} hs
  else hs.

(** [updaters[i](false, data, error)]: the call is recorded; with
    [shouldRevalidate = false] the updater stops after the first part
    and returns [false] (see [onUpdate_false]), so that a call changes
    the cells of its hook and nothing else.  A number that [hooks] does
    not know names no closure of a hook; its call is only recorded. *)
Definition call_updater_false (u : nat) (data error : jsval) (w : world)
    : world :=
  let w := perform (EUpdater u false data error None) w in
  match hooks w !! u with
  | Some (h, hs) =>
      set_hooks (<[u := (h, onUpdate_state h data error hs)]> (hooks w)) w
  | None => w
  end.

(** [broadcastState(key, data, error)] *)
Definition broadcastState (k : string) (data error : jsval) (w : world)
    : world :=
  match CACHE_REVALIDATORS w !! k with
  | Some updaters =>
      if negb (String.eqb k "") then
        foldl (fun w u => call_updater_false u data error w) w updaters
      else w
  | None => w
  end.

(** ** use-swr.ts: revalidate *)

(** A [revalidate] call runs on the cells [hs] of its hook, which it is
    given and which it returns; [run_updater] below takes them from
    [hooks] and puts them back.  The call that the [broadcastState] of a
    [revalidate] makes to the updater of its own hook repeats, on the
    same cells, the update that [revalidate] has just dispatched: it
    changes nothing unless the value is not equal to itself ([NaN] as an
    error under [===], a [compare] that is not reflexive), and the cells
    that [revalidate] returns do not count the second rerender of that
    case. *)

(** The local variables of a [revalidate] call that is suspended at its
    [await]: the options after the default was merged in, whether the
    call joined a request in flight, its [startAt], and the value it
    awaits. *)
Record pending : Type := {
  revalidateOpts : RevalidateOption;
  shouldDeduping : bool;
  startAt : option Z;
  awaited : jsval
}.

Inductive started : Type :=
| Resolved (b : bool)
| Suspended (p : pending).

(** How many times a fetcher was invoked so far. *)
Definition is_EFetch (e : effect) : bool :=
  match e with EFetch _ => true | _ => false end.

Definition fetch_count (w : world) : nat :=
  length (List.filter is_EFetch (effects w)).

(** The condition under which a settled request is ignored. *)
Definition shouldIgnoreRequest (k : string) (startAt : option Z)
    (w : world) : bool :=
  js_gt (CONCURRENT_PROMISES_TS w !! k) startAt
  || (truthy_ts (MUTATION_TS w !! k)
      && (js_le startAt (MUTATION_TS w !! k)
          || js_le startAt (MUTATION_END_TS w !! k)
          || strict_eq_ts (MUTATION_END_TS w !! k) (Some 0))).

(** The [catch] block of [revalidate], then [loading = false] and
    [return true]. *)
Definition revalidate_catch (h : Hook) (opts : RevalidateOption)
    (shouldDeduping : bool) (err : jsval) (s : HookState * world)
    : bool * (HookState * world) :=
  let '(hs, w) := s in
  let w :=
    set_inflight (base.delete (key h) (CONCURRENT_PROMISES w))
      (base.delete (key h) (CONCURRENT_PROMISES_TS w)) w in
  let w := set (VStr (keyErr h)) err w in
  let '(hs, w) :=
    if negb (strict_eq (error hs) err) then
      (dispatch (config h)
         {| a_data := None; a_error := Some err;
            a_isValidating := Some false |} hs,
       if negb shouldDeduping
       then broadcastState (key h) VUndefined err w else w)
    else (hs, w) in
  let w := emit hs "onError" [err; VStr (key h)] w in
  let w :=
    if shouldRetryOnError (config h) then
      let retryCount := default 0 (retryCount opts) + 1 in
      emit_onErrorRetry h hs err
        (assign_opts
           (assign_opts {| dedupe := Some true; retryCount := None |} opts)
           {| dedupe := None; retryCount := Some retryCount |}) w
    else w in
  (true, (hs, w)).

(** [revalidate(revalidateOpts)] up to its [await]; when the fetcher
    throws at once, up to its end. *)
Definition revalidate_start (h : Hook) (opts : RevalidateOption)
    (s : HookState * world) : started * (HookState * world) :=
  let '(hs, w) := s in
  if String.eqb (key h) "" then (Resolved false, s)
  else
  match fn h with
  | None => (Resolved false, s)
  | Some fetcher =>
      if unmountedRef hs then (Resolved false, s)
      else
        let opts :=
          assign_opts {| dedupe := Some false; retryCount := None |} opts in
        let shouldDeduping :=
          negb (String.eqb
                  (typeof (default VUndefined
                             (CONCURRENT_PROMISES w !! key h)))
                  "undefined")
          && default false (dedupe opts) in
        let hs :=
          dispatch (config h)
            {| a_data := None; a_error := None;
               a_isValidating := Some true |} hs in
        if shouldDeduping then
          (Suspended
             {| revalidateOpts := opts; shouldDeduping := true;
                startAt := CONCURRENT_PROMISES_TS w !! key h;
                awaited := default VUndefined
                             (CONCURRENT_PROMISES w !! key h) |},
           (hs, w))
        else
          let w :=
            if negb (loadingTimeout (config h) =? 0) then
              let '(cached, w) := get (VStr (key h)) w in
              if negb (truthy cached)
              then perform (ESetTimeout (TLoadingSlow (key h))
                              (loadingTimeout (config h))) w
              else w
            else w in
          let args :=
            match fnArgs h with
            | Some a => a
            | None => [VStr (key h)]
            end in
          let called := fetcher (fetch_count w) args in
          let w := perform (EFetch args) w in
          match called with
          | Throws err =>
              let '(b, s) :=
                revalidate_catch h opts false err (hs, w) in
              (Resolved b, s)
          | Returns p =>
              let w :=
                set_inflight (<[key h := p]> (CONCURRENT_PROMISES w))
                  (CONCURRENT_PROMISES_TS w) w in
              let '(now, w) := Date_now w in
              let w :=
                set_inflight (CONCURRENT_PROMISES w)
                  (<[key h := now]> (CONCURRENT_PROMISES_TS w)) w in
              (Suspended
                 {| revalidateOpts := opts; shouldDeduping := false;
                    startAt := Some now; awaited := p |},
               (hs, w))
          end
  end.

(** [revalidate] from the settlement of the awaited value on: [Returns]
    is a fulfilled promise (or a plain value), [Throws] a rejected one. *)
Definition revalidate_resume (h : Hook) (p : pending)
    (settled : outcome jsval) (s : HookState * world)
    : bool * (HookState * world) :=
  let '(hs, w) := s in
  match settled with
  | Throws err =>
      revalidate_catch h (revalidateOpts p) (shouldDeduping p) err s
  | Returns newData =>
      let w :=
        if shouldDeduping p then w
        else
          let w :=
            perform (ESetTimeout (TDedupExpire (key h))
                       (dedupingInterval (config h))) w in
          emit hs "onSuccess" [newData; VStr (key h)] w in
      if shouldIgnoreRequest (key h) (startAt p) w then
        (false,
         (dispatch (config h)
            {| a_data := None; a_error := None;
               a_isValidating := Some false |} hs, w))
      else
        let w := set (VStr (key h)) newData w in
        let w := set (VStr (keyErr h)) VUndefined w in
        let newState :=
          {| a_isValidating := Some false;
             a_error :=
               if negb (String.eqb (typeof (error hs)) "undefined")
               then Some VUndefined else None;
             a_data :=
               if negb (compare (config h) (data hs) newData)
               then Some newData else None |} in
        let hs := dispatch (config h) newState hs in
        let w :=
          if negb (shouldDeduping p)
          then broadcastState (key h) newData VUndefined w else w in
        (true, (hs, w))
  end.

(** ** use-swr.ts: the updater that a mounted hook registers *)

(** What an updater returns: [false], or the promise of the [revalidate]
    call it made, given by how that call started. *)
Inductive updated : Type :=
| UFalse
| URevalidate (r : started).

(** [onUpdate(shouldRevalidate = true, updatedData, updatedError,
    dedupe = true)]; [None] is an argument that is left out. *)
Definition onUpdate (h : Hook) (shouldRevalidate : option bool)
    (updatedData updatedError : jsval) (dedupe : option bool)
    (s : HookState * world) : updated * (HookState * world) :=
  let '(hs, w) := s in
  let shouldRevalidate := default true shouldRevalidate in
  let dedupe := default true dedupe in
  let newData :=
    if negb (String.eqb (typeof updatedData) "undefined")
       && negb (compare (config h) (data hs) updatedData)
    then Some updatedData else None in
  let newError :=
    if negb (strict_eq (error hs) updatedError)
    then Some updatedError else None in
  let needUpdate :=
    bool_decide (is_Some newData) || bool_decide (is_Some newError) in
  let hs :=
    if needUpdate
    then dispatch (config h)
           {| a_data := newData; a_error := newError;
              a_isValidating := None |} hs
    else hs in
  if shouldRevalidate then
    let '(r, s') :=
      revalidate_start h
        (if dedupe then {| dedupe := Some true; retryCount := None |}
         else {| dedupe := None; retryCount := None |}) (hs, w) in
    (URevalidate r, s')
  else (UFalse, (hs, w)).

(** [updaters[i](shouldRevalidate, data, error, dedupe)] as [trigger]
    and [mutate] call it: the call is recorded, and the closure runs on
    the cells of its hook, up to the suspension of the [revalidate] call
    it makes, if any; the cells are put back when it returns.  A number
    that [hooks] does not know names no closure of a hook; its call is
    only recorded. *)
Definition run_updater (u : nat) (shouldRevalidate : bool)
    (data error : jsval) (dedupe : bool) (w : world) : updated * world :=
  let w := perform (EUpdater u shouldRevalidate data error (Some dedupe)) w in
  match hooks w !! u with
  | Some (h, hs) =>
      let '(r, (hs, w)) :=
        onUpdate h (Some shouldRevalidate) data error (Some dedupe) (hs, w) in
      (r, set_hooks (<[u := (h, hs)]> (hooks w)) w)
  | None => (UFalse, w)
  end.

(** The loop [for (let i = 0; i < updaters.length; ++i)
    promises.push(updaters[i](shouldRevalidate, data, error, i > 0))],
    from index [i] on: what the updaters returned, in order. *)
Fixpoint run_updaters (updaters : list nat) (i : nat)
    (shouldRevalidate : bool) (data error : jsval) (w : world)
    : list updated * world :=
  match updaters with
  | [] => ([], w)
  | u :: rest =>
      let '(r, w) :=
        run_updater u shouldRevalidate data error (negb (Nat.eqb i 0)) w in
      let '(rs, w) := run_updaters rest (S i) shouldRevalidate data error w in
      (r :: rs, w)
  end.

(** ** use-swr.ts: trigger and mutate *)

(** How the promise returned by [trigger] or [mutate] settles: at once
    with [r], or by [Promise.all(promises).then(...)] once the
    [revalidate] calls that the updaters started ([promises]) have
    settled (see [after_updaters]). *)
Inductive settles : Type :=
| Now (r : outcome jsval)
| AfterUpdaters (promises : list updated) (k : string) (error : jsval).

(** The callback given to [Promise.all(promises).then]. *)
Definition after_updaters (k : string) (error : jsval) (w : world)
    : outcome jsval * world :=
  if truthy error then (Throws error, w)
  else let '(v, w) := get (VStr k) w in (Returns v, w).

(** [if (error) throw error; return data] *)
Definition throw_or_return (data error : jsval) : outcome jsval :=
  if truthy error then Throws error else Returns data.

Definition trigger (_key : jsval) (shouldRevalidate : bool) (w : world)
    : settles * world :=
  let '((k, _, keyErr), w) := serializeKey _key w in
  if String.eqb k "" then (Now (Returns VUndefined), w)
  else
    match CACHE_REVALIDATORS w !! k with
    | Some updaters =>
        let '(currentData, w) := get (VStr k) w in
        let '(currentError, w) := get (VStr keyErr) w in
        let '(promises, w) :=
          run_updaters updaters 0 shouldRevalidate currentData
            currentError w in
        (AfterUpdaters promises k VUndefined, w)
    | None =>
        let '(v, w) := get (VStr k) w in (Now (Returns v), w)
    end.

(** The local variables of a [mutate] call that is suspended at its
    [await]. *)
Record mutate_pending : Type := {
  m_key : string;
  m_keyErr : string;
  m_shouldRevalidate : bool;
  beforeMutationTs : option Z;
  beforeConcurrentPromisesTs : option Z;
  m_awaited : jsval
}.

Inductive mutate_started : Type :=
| MSettles (r : settles)
| MSuspended (m : mutate_pending).

(** [mutate] from the check "if other mutations have occurred" to its
    end, with [data] and [error] as the resolution left them. *)
Definition mutate_commit (k keyErr : string) (shouldRevalidate : bool)
    (beforeMutationTs beforeConcurrentPromisesTs : option Z)
    (data error : jsval) (w : world) : settles * world :=
  if negb (strict_eq_ts beforeMutationTs (MUTATION_TS w !! k))
     || negb (strict_eq_ts beforeConcurrentPromisesTs
                (CONCURRENT_PROMISES_TS w !! k))
  then (Now (throw_or_return data error), w)
  else
    let w :=
      if negb (String.eqb (typeof data) "undefined")
      then set (VStr k) data w else w in
    let w := set (VStr keyErr) error w in
    let '(now, w) := Date_now w in
    let w := set_MUTATION_END_TS (<[k := now - 1]> (MUTATION_END_TS w)) w in
    match CACHE_REVALIDATORS w !! k with
    | Some updaters =>
        let '(promises, w) :=
          run_updaters updaters 0 shouldRevalidate data error w in
        (AfterUpdaters promises k error, w)
    | None => (Now (throw_or_return data error), w)
    end.

(** [mutate(_key, _data, shouldRevalidate)] up to its first suspension. *)
Definition mutate_start (_key _data : jsval) (shouldRevalidate : bool)
    (w : world) : mutate_started * world :=
  let '((k, _, keyErr), w) := serializeKey _key w in
  if String.eqb k "" then (MSettles (Now (Returns VUndefined)), w)
  else if String.eqb (typeof _data) "undefined" then
    let '(r, w) := trigger _key shouldRevalidate w in (MSettles r, w)
  else
    let '(now, w) := Date_now w in
    let w := set_MUTATION_TS (<[k := now - 1]> (MUTATION_TS w)) w in
    let w := set_MUTATION_END_TS (<[k := 0]> (MUTATION_END_TS w)) w in
    let beforeMutationTs := MUTATION_TS w !! k in
    let beforeConcurrentPromisesTs := CONCURRENT_PROMISES_TS w !! k in
    let suspend v w :=
      (MSuspended
         {| m_key := k; m_keyErr := keyErr;
            m_shouldRevalidate := shouldRevalidate;
            beforeMutationTs := beforeMutationTs;
            beforeConcurrentPromisesTs := beforeConcurrentPromisesTs;
            m_awaited := v |}, w) in
    match _data with
    | VFun src call =>
        let '(current, w) := get (VStr k) w in
        let w := perform (ECall src [current]) w in
        match call with
        | Returns v => suspend v w
        | Throws err =>
            let '(r, w) :=
              mutate_commit k keyErr shouldRevalidate beforeMutationTs
                beforeConcurrentPromisesTs VUndefined err w in
            (MSettles r, w)
        end
    | VPromise _ => suspend _data w
    | _ =>
        let '(r, w) :=
          mutate_commit k keyErr shouldRevalidate beforeMutationTs
            beforeConcurrentPromisesTs _data VUndefined w in
        (MSettles r, w)
    end.

(** [mutate] from the settlement [s] of the awaited value on. *)
Definition mutate_resume (m : mutate_pending) (s : outcome jsval)
    (w : world) : settles * world :=
  let '(data, error) :=
    match s with
    | Returns v => (v, VUndefined)
    | Throws err => (VUndefined, err)
    end in
  mutate_commit (m_key m) (m_keyErr m) (m_shouldRevalidate m)
    (beforeMutationTs m) (beforeConcurrentPromisesTs m) data error w.

(** A whole [mutate] call: [env] is what the other jobs do to the world
    while the call is suspended, [settled] how the awaited value
    settles. *)
Definition mutate (_key _data : jsval) (shouldRevalidate : bool)
    (env : world -> world) (settled : outcome jsval) (w : world)
    : settles * world :=
  match mutate_start _key _data shouldRevalidate w with
  | (MSettles r, w') => (r, w')
  | (MSuspended m, w') => mutate_resume m settled (env w')
  end.

(** What the timers do when they fire: the in-flight entry of [k] is
    removed once the deduping interval has passed. *)
Definition fire_TDedupExpire (k : string) (w : world) : world :=
  set_inflight (base.delete k (CONCURRENT_PROMISES w))
    (base.delete k (CONCURRENT_PROMISES_TS w)) w.

(** The cleanup of the mount effect: [dispatch] becomes a function that
    does nothing, [unmountedRef.current] is set, and the updater is taken
    out of the list of its key.  The cells are those of the closure
    [onUpdate], when [hooks] knows it. *)
Definition unmount (h : Hook) (onUpdate : nat) (s : HookState * world)
    : HookState * world :=
  let '(hs, w) := s in
  let hs :=
    {| data := data hs; error := error hs; isValidating := isValidating hs;
       dep_data := dep_data hs; dep_error := dep_error hs;
       dep_isValidating := dep_isValidating hs;
       unmountedRef := true; dispatch_live := false;
       rerenders := rerenders hs |} in
  (hs,
   {| table := table w; counter := counter w; __cache := __cache w;
      __listeners := __listeners w;
      CONCURRENT_PROMISES := CONCURRENT_PROMISES w;
      CONCURRENT_PROMISES_TS := CONCURRENT_PROMISES_TS w;
      CACHE_REVALIDATORS := removeRevalidator (key h) onUpdate w;
      MUTATION_TS := MUTATION_TS w; MUTATION_END_TS := MUTATION_END_TS w;
      clock := clock w; clock_reads := clock_reads w;
      random := random w; random_reads := random_reads w;
      hooks := match hooks w !! onUpdate with
               | Some (h', _) => <[onUpdate := (h', hs)]> (hooks w)
               | None => hooks w
               end;
      visible := visible w; effects := effects w |}).

(** The closure-capturing part of [useSWR(_key, fn, config)]: the hook
    reads its key, fetcher arguments and error key off [serializeKey]. *)
Definition useSWR (_key : jsval) (fn : option fetcherFn) (config : Config)
    (w : world) : Hook * world :=
  let '((k, fnArgs, keyErr), w) := serializeKey _key w in
  ({| key := k; fnArgs := fnArgs; keyErr := keyErr; fn := fn;
      config := config |}, w).

(** A sequence of store operations, for statements about "any earlier
    use of the store". *)
Inductive cache_op : Type :=
| OpGet (k : jsval)
| OpSet (k v : jsval)
| OpHas (k : jsval)
| OpDelete (k : jsval)
| OpClear.

Definition run_op (o : cache_op) (w : world) : world :=
  match o with
  | OpGet k => snd (get k w)
  | OpSet k v => set k v w
  | OpHas k => snd (has k w)
  | OpDelete k => delete k w
  | OpClear => clear w
  end.

Definition run_ops (os : list cache_op) (w : world) : world :=
  foldl (fun w o => run_op o w) w os.

(** The operations that only read the store. *)
Definition is_read (o : cache_op) : bool :=
  match o with OpGet _ | OpHas _ => true | _ => false end.

(** An empty store in a visible document, for the examples. *)
Definition initial_world : world :=
  {| table := ∅; counter := 0%nat; __cache := ∅; __listeners := [];
     CONCURRENT_PROMISES := ∅; CONCURRENT_PROMISES_TS := ∅;
     CACHE_REVALIDATORS := ∅; MUTATION_TS := ∅; MUTATION_END_TS := ∅;
     clock := fun n => 1000 + Z.of_nat n; clock_reads := 0%nat;
     random := fun _ => 0%Q; random_reads := 0%nat;
     hooks := ∅;
     visible := true; effects := [] |}.

Definition initial_state : HookState :=
  {| data := VUndefined; error := VUndefined; isValidating := false;
     dep_data := false; dep_error := false; dep_isValidating := false;
     unmountedRef := false; dispatch_live := true; rerenders := 0%nat |}.

(** A whole [revalidate] call: [env] is what the other jobs do to the
    hook and to the world while the call is suspended, [settled] how the
    awaited value settles. *)
Definition revalidate (h : Hook) (opts : RevalidateOption)
    (env : HookState * world -> HookState * world)
    (settled : outcome jsval) (s : HookState * world)
    : bool * (HookState * world) :=
  match revalidate_start h opts s with
  | (Resolved b, s') => (b, s')
  | (Suspended p, s') => revalidate_resume h p settled (env s')
  end.

(** The hooks that [useSWR] builds: the error key is the key behind the
    reserved prefix. *)
Definition hook_wf (h : Hook) : Prop :=
  keyErr h = if negb (String.eqb (key h) "") then "err@" +:+ key h else "".

Definition is_EUpdater (e : effect) : bool :=
  match e with EUpdater _ _ _ _ _ => true | _ => false end.

Definition is_EListener (e : effect) : bool :=
  match e with EListener _ => true | _ => false end.

(** The calls of per-key updaters (broadcasts) and of store listeners
    (store writes) made so far. *)
Definition broadcasts (w : world) : list effect :=
  List.filter is_EUpdater (effects w).

Definition notifications (w : world) : list effect :=
  List.filter is_EListener (effects w).

(** The situation of the staleness rule, in the words of the
    specification: for a fetch of [k] that recorded [startAt = t1], a
    fetch started later is registered in flight, or the key has a
    mutation that started at or after [t1], or ended at or after [t1], or
    has not ended.  A key has a mutation when its entry of [MUTATION_TS],
    a [Date.now() - 1], is there and is not [0]. *)
Definition superseded (k : string) (t1 : Z) (w : world) : Prop :=
  (exists t2 : Z, CONCURRENT_PROMISES_TS w !! k = Some t2 /\ t1 < t2)
  \/ (exists m : Z,
        MUTATION_TS w !! k = Some m /\ m <> 0 /\
        (t1 <= m
         \/ (exists e : Z, MUTATION_END_TS w !! k = Some e /\ t1 <= e)
         \/ MUTATION_END_TS w !! k = Some 0)).

(** The options of the retries that were handed to [setTimeout]. *)
Definition scheduled_retries (w : world) : list RevalidateOption :=
  flat_map (fun e => match e with
                     | ESetTimeout (TRevalidate _ o) _ => [o]
                     | _ => []
                     end) (effects w).

(** ** A hook for the examples *)

(** The default configuration of [config.ts] on a fast connection, with
    [errorRetryCount = 2]; [strict_eq] stands in for [deepEqual]. *)
Definition demo_config : Config :=
  {| loadingTimeout := 3000; dedupingInterval := 2000;
     errorRetryInterval := 5000; errorRetryCount := Some 2;
     shouldRetryOnError := true; suspense := false;
     compare := strict_eq; defaultOnErrorRetry := true |}.

(** A fetcher that returns a new promise at each invocation. *)
Definition demo_fetcher : fetcherFn := fun n _ => Returns (VPromise n).

Definition demo_hook : Hook :=
  (useSWR (VStr "user/1") (Some demo_fetcher) demo_config initial_world).1.

Definition plain_call : RevalidateOption :=
  {| dedupe := None; retryCount := None |}.

Definition soft_call : RevalidateOption :=
  {| dedupe := Some true; retryCount := None |}.

(** What [revalidate_start] left suspended, if anything. *)
Definition suspended_of (r : started * (HookState * world)) : pending :=
  match r.1 with
  | Suspended p => p
  | Resolved _ =>
      {| revalidateOpts := plain_call; shouldDeduping := false;
         startAt := None; awaited := VUndefined |}
  end.

(** Two fetches of one key: F1 starts, F2 starts after it, F2 is
    fulfilled with ["new"]; F1 is still suspended. *)
Definition race_F1 : started * (HookState * world) :=
  revalidate_start demo_hook plain_call (initial_state, initial_world).

Definition race_F2 : started * (HookState * world) :=
  revalidate_start demo_hook plain_call race_F1.2.

Definition race_F2_settled : bool * (HookState * world) :=
  revalidate_resume demo_hook (suspended_of race_F2) (Returns (VStr "new"))
    race_F2.2.

(** The hook state and the world at the three points of the race. *)
Definition hs_F1 : HookState := race_F1.2.1.
Definition w_F1 : world := race_F1.2.2.
Definition hs_F2 : HookState := race_F2.2.1.
Definition w_F2 : world := race_F2.2.2.
Definition hs_F2_settled : HookState := race_F2_settled.2.1.
Definition w_F2_settled : world := race_F2_settled.2.2.

(** What [mutate_start] left suspended, if anything. *)
Definition msuspended_of (r : mutate_started * world) : mutate_pending :=
  match r.1 with
  | MSuspended m => m
  | MSettles _ =>
      {| m_key := ""; m_keyErr := ""; m_shouldRevalidate := false;
         beforeMutationTs := None; beforeConcurrentPromisesTs := None;
         m_awaited := VUndefined |}
  end.

(** Two mutations of one key: the second starts while the promise given
    to the first is still pending. *)
Definition mutation_1 : mutate_started * world :=
  mutate_start (VStr "user/1") (VPromise 5) true initial_world.

Definition mutation_2 : mutate_started * world :=
  mutate_start (VStr "user/1") (VPromise 6) true mutation_1.2.

(** Two subscribers of one key call [revalidate({dedupe: true})] one
    after the other; the promise of the one fetch is then fulfilled and
    both calls are resumed, in the order in which they awaited. *)
Definition sub_1 : started * (HookState * world) :=
  revalidate_start demo_hook soft_call (initial_state, initial_world).

Definition sub_2 : started * (HookState * world) :=
  revalidate_start demo_hook soft_call (initial_state, sub_1.2.2).

Definition sub_1_settled : bool * (HookState * world) :=
  revalidate_resume demo_hook (suspended_of sub_1) (Returns (VObj 1))
    (sub_1.2.1, sub_2.2.2).

Definition sub_2_settled : bool * (HookState * world) :=
  revalidate_resume demo_hook (suspended_of sub_2) (Returns (VObj 1))
    (sub_2.2.1, sub_1_settled.2.2).

(** A fetch of [demo_hook] that is rejected with the object [VObj 99],
    with nothing else running in between. *)
Definition failed_attempt (o : RevalidateOption) (s : HookState * world)
    : HookState * world :=
  (revalidate demo_hook o id (Throws (VObj 99)) s).2.

(** ** cache.ts: listeners *)

Definition set___listeners (l : list nat) (w : world) : world :=
  {| table := table w; counter := counter w; __cache := __cache w;
     __listeners := l;
     CONCURRENT_PROMISES := CONCURRENT_PROMISES w;
     CONCURRENT_PROMISES_TS := CONCURRENT_PROMISES_TS w;
     CACHE_REVALIDATORS := CACHE_REVALIDATORS w;
     MUTATION_TS := MUTATION_TS w; MUTATION_END_TS := MUTATION_END_TS w;
     clock := clock w; clock_reads := clock_reads w;
     random := random w; random_reads := random_reads w;
     hooks := hooks w;
     visible := visible w; effects := effects w |}.

(** What [subscribe] does: it throws an [Error] with the given message,
    or it returns the [unsubscribe] closure, whose [isSubscribed] cell
    starts at [true]. *)
Inductive subscribed : Type :=
| SubscribeThrows (message : string)
| Subscribed (w : world).

(** [subscribe(listener)]; a listener function is named by a number,
    [None] is an argument that is not a function. *)
Definition subscribe (listener : option nat) (w : world) : subscribed :=
  match listener with
  | None => SubscribeThrows "Expected the listener to be a function."
  | Some l => Subscribed (set___listeners (__listeners w ++ [l]) w)
  end.

(** [array[index] = array[array.length - 1]] followed by
    [array.length--] (or [array.pop()]). *)
Definition swap_with_last (index : nat) (array : list nat) : list nat :=
  removelast (match last array with
              | Some x => <[index := x]> array
              | None => array
              end).

(** The closure that [subscribe] returns, called with its [isSubscribed]
    cell at [isSubscribed]; the result is the cell after the call. *)
Definition unsubscribe (listener : nat) (isSubscribed : bool) (w : world)
    : bool * world :=
  if negb isSubscribed then (isSubscribed, w)
  else
    match indexOf (__listeners w) listener with
    | Some index =>
        (false, set___listeners (swap_with_last index (__listeners w)) w)
    | None => (false, w)
    end.

(** ** libs/hash.ts: the state that [hash] keeps *)

(** Every number in [table] was handed out by [counter], and to one
    reference only. *)
Definition table_wf (t : gmap nat nat) (c : nat) : Prop :=
  (forall (r n : nat), t !! r = Some n -> (n < c)%nat)
  /\ (forall (r1 r2 n : nat),
        t !! r1 = Some n -> t !! r2 = Some n -> r1 = r2).

Definition hash_wf (w : world) : Prop := table_wf (table w) (counter w).

(** ** use-swr.ts: the registry of updaters *)

Definition set_CACHE_REVALIDATORS (m : gmap string (list nat)) (w : world)
    : world :=
  {| table := table w; counter := counter w; __cache := __cache w;
     __listeners := __listeners w;
     CONCURRENT_PROMISES := CONCURRENT_PROMISES w;
     CONCURRENT_PROMISES_TS := CONCURRENT_PROMISES_TS w;
     CACHE_REVALIDATORS := m;
     MUTATION_TS := MUTATION_TS w; MUTATION_END_TS := MUTATION_END_TS w;
     clock := clock w; clock_reads := clock_reads w;
     random := random w; random_reads := random_reads w;
     hooks := hooks w;
     visible := visible w; effects := effects w |}.

(** The canonical key of a key value in a world. *)
Definition canonical (K : jsval) (w : world) : string :=
  (serializeKey K w).1.1.1.

(** [w'] differs from [w] at most in the record of calls, in how often
    [Math.random()] was read and in the cells of hooks. *)
Definition only_calls (w w' : world) : Prop :=
  table w' = table w /\ counter w' = counter w
  /\ __cache w' = __cache w /\ __listeners w' = __listeners w
  /\ CONCURRENT_PROMISES w' = CONCURRENT_PROMISES w
  /\ CONCURRENT_PROMISES_TS w' = CONCURRENT_PROMISES_TS w
  /\ CACHE_REVALIDATORS w' = CACHE_REVALIDATORS w
  /\ MUTATION_TS w' = MUTATION_TS w
  /\ MUTATION_END_TS w' = MUTATION_END_TS w
  /\ clock w' = clock w /\ clock_reads w' = clock_reads w
  /\ visible w' = visible w.

(** The operations that write the store. *)
Definition is_write (o : cache_op) : bool := negb (is_read o).

(** A text that does not begin with a double quote. *)
Definition unquoted (s : string) : Prop :=
  match s with
  | String c _ => c <> Ascii.ascii_of_nat 34
  | EmptyString => True
  end.

(** ** cache.ts: writes that leave a key alone *)

(** Whether the operation [o], run in [w], leaves the entry of the
    canonical key [k] alone: a read does, a [set] or [delete] does when
    its key serializes to another canonical key, [clear] does not. *)
Definition op_avoids (k : string) (o : cache_op) (w : world) : bool :=
  match o with
  | OpGet _ | OpHas _ => true
  | OpSet K' _ | OpDelete K' => negb (String.eqb (canonical K' w) k)
  | OpClear => false
  end.

(** The same for a sequence of operations run from [w] on. *)
Fixpoint writes_avoid (k : string) (os : list cache_op) (w : world) : bool :=
  match os with
  | [] => true
  | o :: os' => op_avoids k o w && writes_avoid k os' (run_op o w)
  end.

(** ** A clock that starts at the epoch *)

(** [initial_world] with [Date.now()] returning [0], [1], [2], ... *)
Definition epoch_world : world :=
  {| table := ∅; counter := 0%nat; __cache := ∅; __listeners := [];
     CONCURRENT_PROMISES := ∅; CONCURRENT_PROMISES_TS := ∅;
     CACHE_REVALIDATORS := ∅; MUTATION_TS := ∅; MUTATION_END_TS := ∅;
     clock := fun n => Z.of_nat n; clock_reads := 0%nat;
     random := fun _ => 0%Q; random_reads := 0%nat;
     hooks := ∅;
     visible := true; effects := [] |}.

(** A fetch of [demo_hook] that starts at time [0], and a [mutate] of the
    same key with a pending promise that starts at time [1], while the
    fetch is in flight. *)
Definition epoch_F1 : started * (HookState * world) :=
  revalidate_start demo_hook plain_call (initial_state, epoch_world).

Definition epoch_mutation : mutate_started * world :=
  mutate_start (VStr "user/1") (VPromise 5) true epoch_F1.2.2.

(** ** The largest value of [Math.random()] *)


(** ** use-swr.ts: the hooks behind the updaters *)

(** What the cells of the hooks may become while a function runs: a
    closure stays the closure of its hook, and a hook that is mounted
    stays so. *)
Definition hooks_evolve (m m' : gmap nat (Hook * HookState)) : Prop :=
  forall (u : nat) (h : Hook) (hs : HookState),
    m !! u = Some (h, hs) ->
    exists hs' : HookState,
      m' !! u = Some (h, hs') /\ unmountedRef hs' = unmountedRef hs.

(** The updaters [us] are the [onUpdate] closures of mounted hooks that
    [useSWR] built for the key [k]: the mount effect registers the
    updater of a hook under the key of the hook, and its cleanup takes
    it out. *)
Definition registered (k : string) (us : list nat)
    (m : gmap nat (Hook * HookState)) : Prop :=
  forall u : nat,
    u ∈ us ->
    exists (h : Hook) (hs : HookState),
      m !! u = Some (h, hs)
      /\ key h = k /\ hook_wf h /\ unmountedRef hs = false.

(** What the updaters of the key [k] may change of the world while
    [trigger] or [mutate] calls them: the record of calls, the cells of
    hooks, the in-flight entry of [k], the reading of the clock that
    goes with it, and the entry of the error key of [k] in the store. *)
Definition during_updaters (k : string) (w w' : world) : Prop :=
  table w' = table w /\ counter w' = counter w
  /\ __listeners w' = __listeners w
  /\ CACHE_REVALIDATORS w' = CACHE_REVALIDATORS w
  /\ MUTATION_TS w' = MUTATION_TS w
  /\ MUTATION_END_TS w' = MUTATION_END_TS w
  /\ clock w' = clock w /\ visible w' = visible w
  /\ (forall k' : string,
        k' <> "err@" +:+ k -> __cache w' !! k' = __cache w !! k')
  /\ (forall k' : string,
        k' <> k ->
        CONCURRENT_PROMISES w' !! k' = CONCURRENT_PROMISES w !! k'
        /\ CONCURRENT_PROMISES_TS w' !! k' = CONCURRENT_PROMISES_TS w !! k')
  /\ hooks_evolve (hooks w) (hooks w').

(** The record of the calls that the loop over the updaters makes, from
    index [i] on: the first updater is called with [dedupe = false], the
    others with [dedupe = true]. *)
Fixpoint updater_calls (updaters : list nat) (i : nat)
    (shouldRevalidate : bool) (data error : jsval) : list effect :=
  match updaters with
  | [] => []
  | u :: rest =>
      EUpdater u shouldRevalidate data error (Some (negb (Nat.eqb i 0)))
      :: updater_calls rest (S i) shouldRevalidate data error
  end.

(** Two mounted hooks on the key ["user/1"], with the updaters [7] and
    [8], in an empty store. *)
Definition mounted_world : world :=
  set_hooks {[7%nat := (demo_hook, initial_state);
              8%nat := (demo_hook, initial_state)]}
    (set_CACHE_REVALIDATORS {["user/1" := [7; 8]%nat]} initial_world).

(** * Properties *)

(** ** Key codec *)

Lemma eqb_empty_true (s : string) : String.eqb s "" = true -> s = "".
Proof. intros H. by apply String.eqb_eq in H. Qed.

Lemma serializeKey_VStr (s : string) (w : world) :
  serializeKey (VStr s) w
  = ((s, None, if negb (String.eqb s "") then "err@" +:+ s else ""), w).
Proof.
  unfold serializeKey, js_or. simpl.
  destruct (String.eqb s "") eqn:E; simpl; rewrite ?E; simpl; [|done].
  apply eqb_empty_true in E. by subst.
Qed.

Lemma serializeKey_falsy (k : jsval) (w : world) :
  String.eqb (typeof k) "function" = false ->
  truthy k = false ->
  serializeKey k w = (("", None, ""), w).
Proof.
  intros Hf Ht. destruct k; simpl in *; try discriminate; try done.
  - by subst.
  - unfold serializeKey, js_or. simpl. by rewrite Ht.
  - unfold serializeKey, js_or. simpl. by rewrite Ht.
Qed.

Lemma get_VStr (s : string) (w : world) :
  get (VStr s) w = (default VUndefined (__cache w !! s), w).
Proof. unfold get. by rewrite serializeKey_VStr. Qed.

Lemma set_VStr (s : string) (v : jsval) (w : world) :
  set (VStr s) v w = notify (set___cache (<[s := v]> (__cache w)) w).
Proof. unfold set. by rewrite serializeKey_VStr. Qed.

(** [hash] never overwrites an entry of [table], and once the references
    of [args] are in the table it reads the same text for them from any
    larger table, whatever the counter. *)
Lemma hash_arg_stable (arg : jsval) (t : gmap nat nat) (c : nat)
    (s : string) (t' : gmap nat nat) (c' : nat) :
  hash_arg arg t c = (s, t', c') ->
  t ⊆ t' /\
  forall (t2 : gmap nat nat) (c2 : nat),
    t' ⊆ t2 -> hash_arg arg t2 c2 = (s, t2, c2).
Proof.
  unfold hash_arg. destruct (obj_ref arg) as [r|] eqn:Hr.
  - destruct (t !! r) as [n|] eqn:Hl; intros [= <- <- <-].
    + split; [done|]. intros t2 c2 Hsub.
      by rewrite (lookup_weaken _ _ _ _ Hl Hsub).
    + split; [by apply insert_subseteq|]. intros t2 c2 Hsub.
      assert (t2 !! r = Some c) as ->; [|done].
      eapply lookup_weaken; [|exact Hsub]. apply lookup_insert_eq.
  - intros H. split.
    + destruct arg; by inversion H.
    + intros t2 c2 _. destruct arg; inversion H; subst; try done.
Qed.

Lemma hash_loop_stable (args : list jsval) :
  forall (acc : string) (t : gmap nat nat) (c : nat)
         (s : string) (t' : gmap nat nat) (c' : nat),
    hash_loop args acc t c = (s, t', c') ->
    t ⊆ t' /\
    forall (t2 : gmap nat nat) (c2 : nat),
      t' ⊆ t2 -> hash_loop args acc t2 c2 = (s, t2, c2).
Proof.
  induction args as [|arg rest IH]; intros acc t c s t' c' H; simpl in H.
  - injection H as <- <- <-. split; [done|]. by intros.
  - destruct (hash_arg arg t c) as [[h t1] c1] eqn:Ha.
    apply hash_arg_stable in Ha as [Hsub1 Hre1].
    apply IH in H as [Hsub2 Hre2]. split.
    + by etrans.
    + intros t2 c2 Hsub. simpl.
      rewrite Hre1; [|by etrans]. by apply Hre2.
Qed.

(** The canonical key of a key value does not change when the table of
    [hash] grows. *)
Lemma serializeKey_stable (k : jsval) (w w' : world)
    (r : string * option (list jsval) * string) :
  serializeKey k w = (r, w') ->
  table w ⊆ table w' /\
  forall w2 : world, table w' ⊆ table w2 -> (serializeKey k w2).1 = r.
Proof.
  unfold serializeKey.
  set (k' := if String.eqb (typeof k) "function" then _ else k).
  clearbody k'. destruct k' as [| | | | | | |ref elems| |];
    try (intros [= <- <-]; split; [done|by intros]).
  unfold hash. destruct elems as [|a l].
  - intros [= <- <-]. split; [done|by intros].
  - destruct (hash_loop (a :: l) "arg" (table w) (counter w))
      as [[h t] c] eqn:Hh.
    intros [= <- <-]. apply hash_loop_stable in Hh as [Hsub Hre].
    split; [done|]. intros w2 Hsub2. simpl in Hsub2.
    by rewrite (Hre (table w2) (counter w2) Hsub2).
Qed.


(** [serializeKey] changes nothing of the world but the state of [hash]. *)
Lemma serializeKey_frame (k : jsval) (w : world) :
  exists (t : gmap nat nat) (c : nat), (serializeKey k w).2 = set_hash t c w.
Proof.
  assert (w = set_hash (table w) (counter w) w) as Hw by by destruct w.
  unfold serializeKey.
  set (k' := if String.eqb (typeof k) "function" then _ else k).
  clearbody k'. destruct k' as [| | | | | | |ref elems| |];
    try (exists (table w), (counter w); exact Hw).
  unfold hash. destruct elems as [|a l].
  - exists (table w), (counter w). exact Hw.
  - destruct (hash_loop (a :: l) "arg" (table w) (counter w))
      as [[h t] c]. by exists t, c.
Qed.

Lemma read_op_frame (o : cache_op) (w : world) :
  is_read o = true ->
  __cache (run_op o w) = __cache w /\ table w ⊆ table (run_op o w).
Proof.
  destruct o as [k|k v|k|k|]; try discriminate; intros _; simpl.
  - unfold get. destruct (serializeKey k w) as [[[s a] e] w'] eqn:E.
    destruct (serializeKey_frame k w) as (t & c & Hf).
    rewrite E in Hf. simpl in Hf. apply serializeKey_stable in E as [Hs _].
    simpl. by subst w'.
  - unfold has. destruct (serializeKey k w) as [[[s a] e] w'] eqn:E.
    destruct (serializeKey_frame k w) as (t & c & Hf).
    rewrite E in Hf. simpl in Hf. apply serializeKey_stable in E as [Hs _].
    simpl. by subst w'.
Qed.

Lemma read_ops_frame (os : list cache_op) :
  forall w : world,
    forallb is_read os = true ->
    __cache (run_ops os w) = __cache w /\ table w ⊆ table (run_ops os w).
Proof.
  induction os as [|o os IH]; intros w H; simpl in *; [done|].
  apply andb_prop in H as [Ho Hos].
  destruct (read_op_frame o w Ho) as [Hc Ht].
  destruct (IH (run_op o w) Hos) as [Hc' Ht'].
  unfold run_ops in *. split; [congruence|by etrans].
Qed.

(** C8: a key that is a zero-argument callable which throws when invoked
    is serialized to the empty canonical key, with no fetcher arguments and
    the empty error key, and nothing is thrown; the resource is disabled:
    [trigger] and [mutate] on it return at once and leave the world as it
    was, and [revalidate] of a hook bound to it resolves to [false]. *)
Theorem serializeKey_throwing_producer
    (src : string) (e : jsval) (w : world) (d : jsval) (sr : bool)
    (fetcher : option fetcherFn) (c : Config) (opts : RevalidateOption)
    (hs : HookState) :
  serializeKey (VFun src (Throws e)) w = (("", None, ""), w)
  /\ trigger (VFun src (Throws e)) sr w = (Now (Returns VUndefined), w)
  /\ mutate_start (VFun src (Throws e)) d sr w
     = (MSettles (Now (Returns VUndefined)), w)
  /\ revalidate_start (useSWR (VFun src (Throws e)) fetcher c w).1 opts
       (hs, w)
     = (Resolved false, (hs, w)).
Proof. repeat split. Qed.

(** C10: every key value that is neither a function nor an array and is
    falsy ([null], [undefined], [false], [0], [NaN], the empty string) is
    serialized to the empty canonical key with the empty error key, and
    [mutate] and [trigger] on it return at once: the cache, the
    timestamps, the subscribers and every other part of the world are
    what they were. *)
Theorem falsy_key_is_no_resource
    (k : jsval) (w : world) (d : jsval) (sr : bool) :
  String.eqb (typeof k) "function" = false ->
  Array_isArray k = false ->
  truthy k = false ->
  serializeKey k w = (("", None, ""), w)
  /\ mutate_start k d sr w = (MSettles (Now (Returns VUndefined)), w)
  /\ trigger k sr w = (Now (Returns VUndefined), w).
Proof.
  intros Hf _ Ht. pose proof (serializeKey_falsy k w Hf Ht) as Hs.
  unfold mutate_start, trigger. by rewrite Hs.
Qed.

Lemma falsy_key_is_no_resource_witness :
  serializeKey VNaN initial_world = (("", None, ""), initial_world)
  /\ mutate_start VNaN (VNum 7) true initial_world
     = (MSettles (Now (Returns VUndefined)), initial_world)
  /\ trigger VNaN true initial_world
     = (Now (Returns VUndefined), initial_world).
Proof.
  apply (falsy_key_is_no_resource VNaN initial_world (VNum 7) true);
    reflexivity.
Defined.

(** An operation that avoids [k] leaves its entry as it was; no
    operation shrinks the table of [hash]. *)
Lemma run_op_avoids (k : string) (o : cache_op) (w : world) :
  op_avoids k o w = true ->
  __cache (run_op o w) !! k = __cache w !! k
  /\ table w ⊆ table (run_op o w).
Proof.
  destruct o as [K'|K' v|K'|K'|]; simpl; try discriminate.
  - intros _. destruct (read_op_frame (OpGet K') w eq_refl) as [Hc Ht].
    simpl in Hc, Ht. by rewrite Hc.
  - intros Hne. apply negb_true_iff, String.eqb_neq in Hne.
    unfold canonical in Hne. unfold set.
    destruct (serializeKey_frame K' w) as (t & c & Hf).
    destruct (serializeKey K' w) as [[[s a] e] w1] eqn:E.
    simpl in Hf, Hne. apply serializeKey_stable in E as [Ht _].
    subst w1. simpl in *. by rewrite lookup_insert_ne.
  - intros _. destruct (read_op_frame (OpHas K') w eq_refl) as [Hc Ht].
    simpl in Hc, Ht. by rewrite Hc.
  - intros Hne. apply negb_true_iff, String.eqb_neq in Hne.
    unfold canonical in Hne. unfold delete.
    destruct (serializeKey_frame K' w) as (t & c & Hf).
    destruct (serializeKey K' w) as [[[s a] e] w1] eqn:E.
    simpl in Hf, Hne. apply serializeKey_stable in E as [Ht _].
    subst w1. simpl in *. by rewrite lookup_delete_ne.
Qed.

(** What [get(K)] returns after operations that avoid the canonical key
    of [K]. *)
Lemma get_after_avoiding (K : jsval) (w w1 : world) (k : string)
    (a : option (list jsval)) (e : string) (os : list cache_op) :
  serializeKey K w = ((k, a, e), w1) ->
  forall w2 : world,
    table w1 ⊆ table w2 ->
    writes_avoid k os w2 = true ->
    (get K (run_ops os w2)).1 = default VUndefined (__cache w2 !! k).
Proof.
  intros E. induction os as [|o os IH]; intros w2 Ht Hav.
  - simpl. pose proof (serializeKey_stable _ _ _ _ E) as [_ Hst].
    pose proof (Hst w2 Ht) as Hk.
    destruct (serializeKey_frame K w2) as (t & c & Hf).
    unfold get. destruct (serializeKey K w2) as [[[k' a'] e'] w3].
    simpl in Hk, Hf. injection Hk as -> -> ->. by subst w3.
  - simpl in Hav. apply andb_prop in Hav as [Ho Hos].
    destruct (run_op_avoids k o w2 Ho) as [Hc Ht'].
    change (run_ops (o :: os) w2) with (run_ops os (run_op o w2)).
    rewrite IH; [by rewrite Hc|by etrans|done].
Qed.

(** C9, amended: whatever operations the store went through before,
    [set(K, X)] followed by [get(K)] returns [X], with any operations in
    between that do not write the canonical key of [K]: reads of any
    keys, [set] and [delete] of keys that serialize to another canonical
    key, but no [clear].  Both operations reach the map through
    [serializeKey], which gives [K] the same canonical key both times. *)
Theorem set_then_get
    (prior between : list cache_op) (w : world) (K X : jsval) :
  writes_avoid (canonical K (run_ops prior w)) between
    (set K X (run_ops prior w)) = true ->
  (get K (run_ops between (set K X (run_ops prior w)))).1 = X.
Proof.
  set (w0 := run_ops prior w). unfold canonical, set.
  destruct (serializeKey K w0) as [[[k a] e] w1] eqn:E. simpl.
  intros Hav.
  rewrite (get_after_avoiding K w0 w1 k a e between E); [| |exact Hav].
  - simpl. by rewrite lookup_insert_eq.
  - done.
Qed.

Lemma set_then_get_witness :
  (get (VArr 0 [VStr "user"; VObj 7])
     (run_ops [OpGet (VArr 1 [VObj 2]); OpSet (VStr "b") (VNum 2);
               OpDelete (VArr 2 [VStr "user"; VObj 8]); OpHas (VStr "a")]
        (set (VArr 0 [VStr "user"; VObj 7]) (VNum 5)
           (run_ops [OpSet (VStr "a") (VNum 1); OpDelete (VStr "a")]
              initial_world)))).1
  = VNum 5.
Proof.
  apply (set_then_get [OpSet (VStr "a") (VNum 1); OpDelete (VStr "a")]
           [OpGet (VArr 1 [VObj 2]); OpSet (VStr "b") (VNum 2);
            OpDelete (VArr 2 [VStr "user"; VObj 8]); OpHas (VStr "a")]
           initial_world (VArr 0 [VStr "user"; VObj 7]) (VNum 5)).
  vm_compute. reflexivity.
Defined.

(** C9 as stated fails when "a write to [K]" is read by the key value:
    a write to another key value that serializes to the same canonical
    key replaces the entry.  The number [1] and the string ["1"] are one
    resource ([String(key)]), and so are a key producer and the key it
    returns; two arrays of strings collide when a string holds the
    separator between quotes. *)
Lemma set_then_get_counterexample :
  (VStr "1" <> VNum 1
   /\ (get (VNum 1)
         (set (VStr "1") (VStr "other")
            (set (VNum 1) (VStr "mine") initial_world))).1
      = VStr "other")
  /\ (VFun "() => 'user'" (Returns (VStr "user")) <> VStr "user"
      /\ (get (VStr "user")
            (set (VFun "() => 'user'" (Returns (VStr "user"))) (VStr "other")
               (set (VStr "user") (VStr "mine") initial_world))).1
         = VStr "other")
  /\ (VArr 1 [VStr ("a" +:+ quote +:+ "@" +:+ quote +:+ "b")]
      <> VArr 0 [VStr "a"; VStr "b"]
      /\ (get (VArr 0 [VStr "a"; VStr "b"])
            (set (VArr 1 [VStr ("a" +:+ quote +:+ "@" +:+ quote +:+ "b")])
               (VStr "other")
               (set (VArr 0 [VStr "a"; VStr "b"]) (VStr "mine")
                  initial_world))).1
         = VStr "other").
Proof.
  repeat split; try discriminate; vm_compute; reflexivity.
Qed.

(** ** Revalidation *)

Lemma useSWR_wf (_key : jsval) (f : option fetcherFn) (c : Config)
    (w : world) :
  hook_wf (useSWR _key f c w).1.
Proof.
  unfold useSWR, serializeKey.
  set (k' := if String.eqb (typeof _key) "function" then _ else _key).
  clearbody k'.
  destruct k' as [| | | | | | |ref elems| |]; try reflexivity.
  destruct (hash elems w) as [hk w']. reflexivity.
Qed.

Lemma emit_frame (hs : HookState) (ev : string) (ps : list jsval)
    (w : world) :
  let w' := emit hs ev ps w in
  __cache w' = __cache w
  /\ CONCURRENT_PROMISES w' = CONCURRENT_PROMISES w
  /\ CONCURRENT_PROMISES_TS w' = CONCURRENT_PROMISES_TS w
  /\ MUTATION_TS w' = MUTATION_TS w
  /\ MUTATION_END_TS w' = MUTATION_END_TS w
  /\ broadcasts w' = broadcasts w
  /\ notifications w' = notifications w.
Proof.
  unfold emit, broadcasts, notifications.
  destruct (unmountedRef hs); simpl; repeat split;
    rewrite List.filter_app; simpl; by rewrite app_nil_r.
Qed.

(** The staleness rule reads the in-flight timestamps and the mutation
    ledger only. *)
Lemma shouldIgnoreRequest_ext (k : string) (t : option Z) (w w' : world) :
  CONCURRENT_PROMISES_TS w' = CONCURRENT_PROMISES_TS w ->
  MUTATION_TS w' = MUTATION_TS w ->
  MUTATION_END_TS w' = MUTATION_END_TS w ->
  shouldIgnoreRequest k t w' = shouldIgnoreRequest k t w.
Proof. unfold shouldIgnoreRequest. by intros -> -> ->. Qed.

(** The code's condition holds in the situation the specification
    describes. *)
Lemma superseded_ignored (k : string) (t1 : Z) (w : world) :
  superseded k t1 w -> shouldIgnoreRequest k (Some t1) w = true.
Proof.
  unfold superseded, shouldIgnoreRequest.
  intros [(t2 & -> & Hlt) | (m & -> & Hm & Hc)]; simpl.
  - apply orb_true_iff. left. by apply Z.ltb_lt.
  - apply orb_true_iff. right.
    assert ((m =? 0) = false) as -> by by apply Z.eqb_neq. simpl.
    destruct Hc as [Hle | [(e & -> & Hle) | ->]].
    + assert ((t1 <=? m) = true) as -> by by apply Z.leb_le. done.
    + simpl. assert ((t1 <=? e) = true) as -> by by apply Z.leb_le.
      by rewrite orb_true_r.
    + simpl. unfold strict_eq_ts.
      rewrite bool_decide_eq_true_2; [|done]. by rewrite !orb_true_r.
Qed.

(** What [revalidate] has done to the world when it reaches the
    staleness check: nothing a deduped call can see, the expiry timer
    and [onSuccess] otherwise. *)
Lemma before_check_frame (h : Hook) (p : pending) (v : jsval)
    (hs : HookState) (w : world) :
  let w1 :=
    if shouldDeduping p then w
    else emit hs "onSuccess" [v; VStr (key h)]
           (perform (ESetTimeout (TDedupExpire (key h))
                       (dedupingInterval (config h))) w) in
  __cache w1 = __cache w
  /\ CONCURRENT_PROMISES w1 = CONCURRENT_PROMISES w
  /\ CONCURRENT_PROMISES_TS w1 = CONCURRENT_PROMISES_TS w
  /\ MUTATION_TS w1 = MUTATION_TS w
  /\ MUTATION_END_TS w1 = MUTATION_END_TS w
  /\ broadcasts w1 = broadcasts w
  /\ notifications w1 = notifications w.
Proof.
  destruct (shouldDeduping p); simpl; [done|].
  match goal with |- context [emit ?a ?b ?c ?d] =>
    destruct (emit_frame a b c d) as (-> & -> & -> & -> & -> & -> & ->)
  end.
  unfold broadcasts, notifications. simpl.
  rewrite !List.filter_app. simpl. by rewrite !app_nil_r.
Qed.

(** C1, amended: when the result of a fetch that recorded
    [startAt = t1] arrives while a fetch of the same key that started
    later is still registered in flight (or while the key has a mutation
    whose recorded start is not [0] and that started at or after [t1],
    ended at or after [t1], or has not ended), [revalidate] discards it:
    it dispatches [isValidating = false], which sets the field as long as
    the hook's [dispatch] is in place (the cleanup of the mount effect
    replaces it by a function that does nothing), resolves to [false],
    writes neither the key nor the error key of the store, and calls no
    updater; the store is what the later fetch made it. *)
Theorem stale_result_is_discarded
    (h : Hook) (p : pending) (t1 : Z) (v : jsval) (hs : HookState)
    (w : world) :
  startAt p = Some t1 ->
  superseded (key h) t1 w ->
  exists (hs' : HookState) (w' : world),
    revalidate_resume h p (Returns v) (hs, w) = (false, (hs', w'))
    /\ hs' = dispatch (config h)
               {| a_data := None; a_error := None;
                  a_isValidating := Some false |} hs
    /\ (dispatch_live hs = true -> isValidating hs' = false)
    /\ __cache w' = __cache w
    /\ notifications w' = notifications w
    /\ broadcasts w' = broadcasts w.
Proof.
  intros Hs Hsup. unfold revalidate_resume.
  pose proof (before_check_frame h p v hs w) as Hfr. simpl in Hfr.
  set (w1 := if shouldDeduping p then w else _) in *.
  destruct Hfr as (Hc & _ & Hts & Hm & Hme & Hb & Hn).
  rewrite (shouldIgnoreRequest_ext _ _ w w1 Hts Hm Hme), Hs.
  rewrite (superseded_ignored _ _ _ Hsup).
  eexists _, _. split; [reflexivity|]. split; [reflexivity|].
  split; [|done]. unfold dispatch. by intros ->.
Qed.

Lemma fetch_count_perform (e : effect) (w : world) :
  fetch_count (perform e w)
  = (fetch_count w + if is_EFetch e then 1 else 0)%nat.
Proof.
  unfold fetch_count, perform. simpl. rewrite List.filter_app, length_app.
  simpl. by destruct (is_EFetch e).
Qed.

(** A call that starts a fetch of its own registers the value the
    fetcher returned and the time of the call, and awaits that value. *)
Lemma revalidate_start_registers (h : Hook) (opts : RevalidateOption)
    (s : HookState * world) (p : pending) (hs' : HookState) (w' : world) :
  revalidate_start h opts s = (Suspended p, (hs', w')) ->
  shouldDeduping p = false ->
  CONCURRENT_PROMISES w' !! key h = Some (awaited p)
  /\ CONCURRENT_PROMISES_TS w' !! key h = startAt p
  /\ fetch_count w' = S (fetch_count s.2).
Proof.
  destruct s as [hs w]. unfold revalidate_start.
  destruct (String.eqb (key h) ""); [done|].
  destruct (fn h) as [f|]; [|done].
  destruct (unmountedRef hs); [done|].
  match goal with |- context [if ?c then _ else _] => destruct c end.
  { intros [= <- _ _] Hd. discriminate Hd. }
  rewrite get_VStr.
  set (w1 := if negb _ then _ else w).
  assert (fetch_count w1 = fetch_count w) as Hfc.
  { subst w1. destruct (negb (loadingTimeout (config h) =? 0)); [|done].
    destruct (negb (truthy _)); [|done].
    rewrite fetch_count_perform. simpl. lia. }
  destruct (f _ _) as [v|e].
  - intros [= <- <- <-] _. simpl. rewrite !lookup_insert_eq.
    split; [done|]. split; [done|].
    change (fetch_count (perform (EFetch
      match fnArgs h with Some a => a | None => [VStr (key h)] end) w1)
      = S (fetch_count w)).
    rewrite fetch_count_perform. simpl. lia.
  - destruct (revalidate_catch _ _ _ _ _) as [b s']. discriminate.
Qed.

(** C2: a call [revalidate({dedupe: true})] made while a promise is
    registered in flight for the key of the hook invokes no fetcher (the
    world, and with it the record of fetcher invocations, is unchanged):
    it awaits the registered promise and takes the registered timestamp
    as its [startAt].  The call that registered the promise awaits the
    same promise with the same [startAt], so both are resumed by the one
    settlement of the one fetcher invocation. *)
Theorem deduped_call_joins_inflight
    (h : Hook) (f : fetcherFn) (opts : RevalidateOption) (hs : HookState)
    (w : world) (promise : jsval) :
  key h <> "" ->
  fn h = Some f ->
  unmountedRef hs = false ->
  dedupe opts = Some true ->
  CONCURRENT_PROMISES w !! key h = Some promise ->
  promise <> VUndefined ->
  exists pd : pending,
    revalidate_start h opts (hs, w)
    = (Suspended pd,
       (dispatch (config h)
          {| a_data := None; a_error := None;
             a_isValidating := Some true |} hs, w))
    /\ shouldDeduping pd = true
    /\ awaited pd = promise
    /\ startAt pd = CONCURRENT_PROMISES_TS w !! key h
    /\ forall (h0 : Hook) (opts0 : RevalidateOption)
              (s0 : HookState * world) (p0 : pending) (hs0 : HookState),
         revalidate_start h0 opts0 s0 = (Suspended p0, (hs0, w)) ->
         key h0 = key h ->
         shouldDeduping p0 = false ->
         awaited p0 = awaited pd
         /\ startAt p0 = startAt pd
         /\ fetch_count w = S (fetch_count s0.2).
Proof.
  intros Hk Hf Hu Hd Hp Hne. unfold revalidate_start.
  apply String.eqb_neq in Hk. rewrite Hk, Hf, Hu, Hp. simpl. rewrite Hd.
  assert (String.eqb (typeof promise) "undefined" = false) as ->
    by by destruct promise.
  simpl. eexists. split; [reflexivity|]. simpl.
  split; [done|]. split; [done|]. split; [done|].
  intros h0 opts0 s0 p0 hs0 Hstart Hkey Hown.
  destruct (revalidate_start_registers _ _ _ _ _ _ Hstart Hown)
    as (Ha & Ht & Hc).
  rewrite Hkey in Ha, Ht. rewrite Hp in Ha. injection Ha as <-.
  by rewrite Ht.
Qed.

Lemma err_prefix_ne (k : string) : "err@" +:+ k <> k.
Proof.
  intros H. apply (f_equal String.length) in H.
  cbv [String.append] in H. simpl in H. lia.
Qed.

Lemma dispatch_unmountedRef (c : Config) (a : action) (hs : HookState) :
  unmountedRef (dispatch c a hs) = unmountedRef hs.
Proof. unfold dispatch. by destruct (dispatch_live hs). Qed.

Lemma onUpdate_state_unmountedRef (h : Hook) (d e : jsval) (hs : HookState) :
  unmountedRef (onUpdate_state h d e hs) = unmountedRef hs.
Proof.
  unfold onUpdate_state.
  match goal with |- context [if ?b then dispatch _ _ _ else _] =>
    destruct b end; [apply dispatch_unmountedRef|done].
Qed.

Lemma hooks_evolve_refl (m : gmap nat (Hook * HookState)) : hooks_evolve m m.
Proof. intros u h hs H. by exists hs. Qed.

Lemma hooks_evolve_trans (m1 m2 m3 : gmap nat (Hook * HookState)) :
  hooks_evolve m1 m2 -> hooks_evolve m2 m3 -> hooks_evolve m1 m3.
Proof.
  intros H1 H2 u h hs H. destruct (H1 u h hs H) as (hs' & H' & E').
  destruct (H2 u h hs' H') as (hs'' & H'' & E''). exists hs''.
  split; [done|congruence].
Qed.

Lemma hooks_evolve_insert (m : gmap nat (Hook * HookState)) (u : nat)
    (h : Hook) (hs hs' : HookState) :
  m !! u = Some (h, hs) ->
  unmountedRef hs' = unmountedRef hs ->
  hooks_evolve m (<[u := (h, hs')]> m).
Proof.
  intros Hu He v h0 hs0 H. destruct (decide (v = u)) as [-> | Hne].
  - rewrite Hu in H. injection H as <- <-. exists hs'.
    by rewrite lookup_insert_eq.
  - exists hs0. by rewrite lookup_insert_ne.
Qed.

(** The loop of [broadcastState] records one call for each updater, in
    order, and changes cells of hooks; it changes nothing else. *)
Lemma broadcast_loop (d e : jsval) (us : list nat) :
  forall w : world,
    exists m : gmap nat (Hook * HookState),
      foldl (fun w u => call_updater_false u d e w) w us
      = set_hooks m
          (perform_all ((fun u => EUpdater u false d e None) <$> us) w)
      /\ hooks_evolve (hooks w) m.
Proof.
  induction us as [|u us IH]; intros w; simpl.
  - exists (hooks w). split; [|apply hooks_evolve_refl].
    destruct w. unfold perform_all, set_hooks, set_effects.
    simpl. by rewrite app_nil_r.
  - destruct (IH (call_updater_false u d e w)) as (m & -> & Hev).
    exists m. unfold call_updater_false, perform, perform_all in *.
    simpl in *. destruct (hooks w !! u) as [[h hs]|] eqn:Hu;
      unfold set_hooks, set_effects in *; simpl in *.
    + split; [by rewrite <- app_assoc|].
      eapply hooks_evolve_trans; [|exact Hev].
      eapply hooks_evolve_insert; [done|].
      apply onUpdate_state_unmountedRef.
    + split; [by rewrite <- app_assoc|done].
Qed.

Lemma broadcastState_spec (k : string) (d e : jsval) (w : world) :
  exists m : gmap nat (Hook * HookState),
    broadcastState k d e w
    = set_hooks m
        (perform_all
           (if negb (String.eqb k "")
            then (fun u => EUpdater u false d e None)
                 <$> default [] (CACHE_REVALIDATORS w !! k)
            else []) w)
    /\ hooks_evolve (hooks w) m.
Proof.
  assert (w = set_hooks (hooks w) (perform_all [] w)) as Hw.
  { destruct w. unfold perform_all, set_hooks, set_effects. simpl.
    by rewrite app_nil_r. }
  unfold broadcastState.
  destruct (CACHE_REVALIDATORS w !! k) as [us|]; simpl.
  - destruct (negb (String.eqb k "")); [apply broadcast_loop|].
    exists (hooks w). split; [done|apply hooks_evolve_refl].
  - exists (hooks w). split; [|apply hooks_evolve_refl].
    by destruct (negb (String.eqb k "")).
Qed.

Lemma broadcastState_frame (k : string) (d e : jsval) (w : world) :
  __cache (broadcastState k d e w) = __cache w.
Proof. by destruct (broadcastState_spec k d e w) as (m & -> & _). Qed.

Lemma onErrorRetry_frame (c : Config) (k : string) (o : RevalidateOption)
    (w : world) :
  __cache (onErrorRetry c k o w) = __cache w.
Proof.
  unfold onErrorRetry. destruct (negb _); [done|].
  destruct (match errorRetryCount c with Some _ => _ | None => _ end); done.
Qed.

Lemma emit_onErrorRetry_frame (h : Hook) (hs : HookState) (e : jsval)
    (o : RevalidateOption) (w : world) :
  __cache (emit_onErrorRetry h hs e o w) = __cache w.
Proof.
  unfold emit_onErrorRetry. destruct (unmountedRef hs); [done|].
  destruct (defaultOnErrorRetry _); [|done]. by rewrite onErrorRetry_frame.
Qed.

(** The [catch] block leaves the thrown value under the error key, and
    returns [true]. *)
Lemma revalidate_catch_spec (h : Hook) (o : RevalidateOption) (d : bool)
    (err : jsval) (s : HookState * world) :
  (revalidate_catch h o d err s).1 = true
  /\ __cache (revalidate_catch h o d err s).2.2 !! keyErr h = Some err.
Proof.
  destruct s as [hs w]. unfold revalidate_catch.
  rewrite set_VStr.
  set (w1 := notify _).
  assert (__cache w1 !! keyErr h = Some err) as Hc
    by (subst w1; simpl; apply lookup_insert_eq).
  destruct (negb (strict_eq (error hs) err)); simpl.
  - split; [done|].
    destruct (shouldRetryOnError _).
    + rewrite emit_onErrorRetry_frame.
      destruct (emit_frame
        (dispatch (config h)
           {| a_data := None; a_error := Some err;
              a_isValidating := Some false |} hs)
        "onError" [err; VStr (key h)]
        (if negb d then broadcastState (key h) VUndefined err w1 else w1))
        as (-> & _).
      destruct (negb d); [by rewrite broadcastState_frame|done].
    + match goal with |- context [emit ?a ?b ?c ?d] =>
        destruct (emit_frame a b c d) as (-> & _) end.
      destruct (negb d); [by rewrite broadcastState_frame|done].
  - split; [done|].
    destruct (shouldRetryOnError _).
    + rewrite emit_onErrorRetry_frame.
      by destruct (emit_frame hs "onError" [err; VStr (key h)] w1)
        as (-> & _).
    + by destruct (emit_frame hs "onError" [err; VStr (key h)] w1)
        as (-> & _).
Qed.

(** Name the result of the [catch] block in the goal, with what
    [revalidate_catch_spec] says of it. *)
Ltac case_catch b s Hc :=
  match goal with
  | |- context [revalidate_catch ?h ?o ?d ?e ?s0] =>
      pose proof (revalidate_catch_spec h o d e s0) as Hc;
      destruct (revalidate_catch h o d e s0) as [b s]
  end.

(** What [revalidate] resolves to once the awaited value has settled. *)
Lemma revalidate_resume_result (h : Hook) (p : pending)
    (settled : outcome jsval) (hs : HookState) (w : world) :
  (revalidate_resume h p settled (hs, w)).1
  = match settled with
    | Returns _ => negb (shouldIgnoreRequest (key h) (startAt p) w)
    | Throws _ => true
    end.
Proof.
  unfold revalidate_resume. destruct settled as [v|e].
  - pose proof (before_check_frame h p v hs w) as Hfr. simpl in Hfr.
    set (w1 := if shouldDeduping p then w else _) in *.
    destruct Hfr as (_ & _ & Hts & Hm & Hme & _).
    rewrite (shouldIgnoreRequest_ext _ _ w w1 Hts Hm Hme).
    by destruct (shouldIgnoreRequest _ _ w).
  - apply revalidate_catch_spec.
Qed.


(** C7: [revalidate] resolves to [false] exactly when it does nothing
    (the key is empty, there is no fetcher, or the hook is unmounted) or
    when the awaited value is fulfilled and the staleness check ignores
    it; in particular a call that is not a no-op and whose fetch rejects
    resolves to [true]. *)
Theorem revalidate_false_iff
    (h : Hook) (opts : RevalidateOption)
    (env : HookState * world -> HookState * world)
    (settled : outcome jsval) (hs : HookState) (w : world) :
  ((revalidate h opts env settled (hs, w)).1 = false
   <-> (key h = "" \/ fn h = None \/ unmountedRef hs = true)
       \/ exists (p : pending) (s' : HookState * world) (v : jsval),
            revalidate_start h opts (hs, w) = (Suspended p, s')
            /\ settled = Returns v
            /\ shouldIgnoreRequest (key h) (startAt p) (env s').2 = true)
  /\ (forall err : jsval,
        settled = Throws err ->
        ~ (key h = "" \/ fn h = None \/ unmountedRef hs = true) ->
        (revalidate h opts env settled (hs, w)).1 = true).
Proof.
  assert (Hnoop : key h = "" \/ fn h = None \/ unmountedRef hs = true ->
                  revalidate_start h opts (hs, w) = (Resolved false, (hs, w))).
  { unfold revalidate_start. intros [-> | [-> | ->]]; simpl; [done| |].
    - by destruct (String.eqb (key h) "").
    - destruct (String.eqb (key h) ""); [done|]. by destruct (fn h). }
  assert (Hrun : ~ (key h = "" \/ fn h = None \/ unmountedRef hs = true) ->
                 (exists s', revalidate_start h opts (hs, w)
                             = (Resolved true, s'))
                 \/ exists p s', revalidate_start h opts (hs, w)
                                 = (Suspended p, s')).
  { intros Hn. unfold revalidate_start.
    destruct (String.eqb_spec (key h) ""); [tauto|].
    destruct (fn h) as [f|]; [|tauto].
    destruct (unmountedRef hs); [tauto|].
    match goal with |- context [if ?c then _ else _] => destruct c end;
      [right; by eexists _, _|].
    rewrite get_VStr. destruct (f _ _) as [v|e].
    - right. by eexists _, _.
    - left. case_catch b' s' Hc. destruct Hc as [Ht _].
      simpl in Ht. subst b'. by eexists. }
  assert (Hdec : (key h = "" \/ fn h = None \/ unmountedRef hs = true)
                 \/ ~ (key h = "" \/ fn h = None \/ unmountedRef hs = true)).
  { destruct (String.eqb_spec (key h) ""); [tauto|].
    destruct (fn h); [|tauto]. destruct (unmountedRef hs); [tauto|].
    right. intros [? | [? | ?]]; done. }
  unfold revalidate. split.
  - destruct Hdec as [Hn | Hn].
    + rewrite (Hnoop Hn). simpl. tauto.
    + destruct (Hrun Hn) as [[s' ->] | (p & [hs' w'] & ->)]; simpl.
      * split; [done|]. intros [? | (p & s2 & v & ? & _)]; [tauto|done].
      * destruct (env (hs', w')) as [hs2 w2] eqn:He.
        rewrite revalidate_resume_result. split.
        -- destruct settled as [v|e]; [|done]. intros Hi. right.
           exists p, (hs', w'), v. rewrite He. simpl.
           split; [done|]. split; [done|].
           by destruct (shouldIgnoreRequest _ _ _).
        -- intros [? | (p2 & s2 & v & [= <- <-] & -> & Hi)]; [tauto|].
           rewrite He in Hi. simpl in Hi. by rewrite Hi.
  - intros err -> Hn.
    destruct (Hrun Hn) as [[s' ->] | (p & [hs' w'] & ->)]; simpl; [done|].
    destruct (env (hs', w')) as [hs2 w2]. by rewrite revalidate_resume_result.
Qed.


Lemma stale_result_is_discarded_witness :
  startAt (suspended_of race_F1) = Some 1000
  /\ superseded (key demo_hook) 1000 w_F2_settled
  /\ exists (hs' : HookState) (w' : world),
       revalidate_resume demo_hook (suspended_of race_F1)
         (Returns (VStr "old")) (hs_F2_settled, w_F2_settled)
       = (false, (hs', w'))
       /\ __cache w' = __cache w_F2_settled.
Proof.
  assert (H1 : startAt (suspended_of race_F1) = Some 1000)
    by (vm_compute; reflexivity).
  assert (H2 : superseded (key demo_hook) 1000 w_F2_settled).
  { left. exists 1001. split; [vm_compute; reflexivity|lia]. }
  split; [exact H1|]. split; [exact H2|].
  destruct (stale_result_is_discarded demo_hook (suspended_of race_F1) 1000
              (VStr "old") hs_F2_settled w_F2_settled H1 H2)
    as (hs' & w' & Hr & _ & _ & Hc & _).
  exists hs', w'. split; [exact Hr|exact Hc].
Defined.

(** The race end to end: when F1 is fulfilled last, the store still holds
    what F2 fetched. *)
Example last_started_wins :
  race_F2_settled.1 = true
  /\ __cache
       (revalidate_resume demo_hook (suspended_of race_F1)
          (Returns (VStr "old")) race_F2_settled.2).2.2 !! "user/1"
     = Some (VStr "new").
Proof. split; vm_compute; reflexivity. Qed.

(** The rule needs F2's entry: once the deduping interval has passed
    after F2 settled and the timer has removed the entry, a late F1 is
    not recognised as stale and its value is written. *)
Example late_result_after_expiry :
  let r := revalidate_resume demo_hook (suspended_of race_F1)
             (Returns (VStr "old"))
             (hs_F2_settled, fire_TDedupExpire "user/1" w_F2_settled) in
  r.1 = true /\ __cache r.2.2 !! "user/1" = Some (VStr "old").
Proof. split; vm_compute; reflexivity. Qed.

(** C1 as stated fails in two situations.  First, when F2 was the fetch
    of another hook instance on the same key and the cleanup of the mount
    effect of F1's hook has run in between: F2's timestamp, [1001], is
    registered and later than F1's, [1000], the late result of F1 is
    discarded, but [dispatch] is no longer the reducer and the hook keeps
    the [isValidating = true] that the start of F1 had set.  Second, when
    a [mutate] of the key started at [Date.now() = 1]: it recorded the
    start [0], which [shouldIgnoreRequest] takes for "no mutation", so
    that the result of a fetch that started at [0] is accepted and
    written while the mutation has not ended. *)
Lemma stale_result_is_discarded_counterexample :
  (startAt (suspended_of race_F1) = Some 1000
   /\ CONCURRENT_PROMISES_TS (unmount demo_hook 0 (hs_F1, w_F2_settled)).2
        !! key demo_hook = Some 1001
   /\ (revalidate_resume demo_hook (suspended_of race_F1)
         (Returns (VStr "old"))
         (unmount demo_hook 0 (hs_F1, w_F2_settled))).1 = false
   /\ isValidating
        (revalidate_resume demo_hook (suspended_of race_F1)
           (Returns (VStr "old"))
           (unmount demo_hook 0 (hs_F1, w_F2_settled))).2.1 = true)
  /\ (startAt (suspended_of epoch_F1) = Some 0
      /\ MUTATION_TS epoch_mutation.2 !! key demo_hook = Some 0
      /\ MUTATION_END_TS epoch_mutation.2 !! key demo_hook = Some 0
      /\ (revalidate_resume demo_hook (suspended_of epoch_F1)
            (Returns (VStr "old")) (epoch_F1.2.1, epoch_mutation.2)).1
         = true
      /\ __cache
           (revalidate_resume demo_hook (suspended_of epoch_F1)
              (Returns (VStr "old")) (epoch_F1.2.1, epoch_mutation.2)).2.2
           !! key demo_hook
         = Some (VStr "old")).
Proof. repeat split; vm_compute; reflexivity. Qed.

(** The first situation, with the store: the value of F2 stays. *)
Example discard_after_cleanup :
  let r := revalidate_resume demo_hook (suspended_of race_F1)
             (Returns (VStr "old"))
             (unmount demo_hook 0 (hs_F1, w_F2_settled)) in
  r.1 = false /\ isValidating r.2.1 = true
  /\ __cache r.2.2 !! "user/1" = Some (VStr "new").
Proof. repeat split; vm_compute; reflexivity. Qed.

(** While a mutation of the key is in progress, every fetch result is
    ignored, whatever its [startAt]. *)
Lemma open_window_ignores (k : string) (t : option Z) (m : Z) (w : world) :
  MUTATION_TS w !! k = Some m -> m <> 0 ->
  MUTATION_END_TS w !! k = Some 0 ->
  shouldIgnoreRequest k t w = true.
Proof.
  intros Hm Hne He. unfold shouldIgnoreRequest. rewrite Hm, He. simpl.
  assert ((m =? 0) = false) as -> by by apply Z.eqb_neq.
  unfold strict_eq_ts. rewrite bool_decide_eq_true_2 by done.
  by rewrite !orb_true_r.
Qed.

Lemma deduped_call_joins_inflight_witness :
  exists pd : pending,
    revalidate_start demo_hook soft_call (hs_F1, w_F1)
    = (Suspended pd,
       (dispatch (config demo_hook)
          {| a_data := None; a_error := None;
             a_isValidating := Some true |} hs_F1, w_F1))
    /\ awaited pd = VPromise 0
    /\ startAt pd = CONCURRENT_PROMISES_TS w_F1 !! key demo_hook.
Proof.
  assert (Hk : key demo_hook <> "") by (vm_compute; discriminate).
  assert (Hf : fn demo_hook = Some demo_fetcher) by reflexivity.
  assert (Hu : unmountedRef hs_F1 = false) by (vm_compute; reflexivity).
  assert (Hd : dedupe soft_call = Some true) by reflexivity.
  assert (Hp : CONCURRENT_PROMISES w_F1 !! key demo_hook
               = Some (VPromise 0)) by (vm_compute; reflexivity).
  assert (Hn : VPromise 0 <> VUndefined) by discriminate.
  destruct (deduped_call_joins_inflight demo_hook demo_fetcher soft_call
              hs_F1 w_F1 (VPromise 0) Hk Hf Hu Hd Hp Hn)
    as (pd & Hs & _ & Ha & Ht & _).
  exists pd. split; [exact Hs|]. split; [exact Ha|exact Ht].
Defined.

(** The scenario of two subscribers: one fetcher invocation, both calls
    await the same promise and resolve to [true], the store holds the
    fetched object and [undefined] under the error key. *)
Example two_subscribers_one_fetch :
  fetch_count sub_2_settled.2.2 = 1%nat
  /\ awaited (suspended_of sub_1) = awaited (suspended_of sub_2)
  /\ startAt (suspended_of sub_1) = startAt (suspended_of sub_2)
  /\ sub_1_settled.1 = true /\ sub_2_settled.1 = true
  /\ __cache sub_2_settled.2.2 !! "user/1" = Some (VObj 1)
  /\ __cache sub_2_settled.2.2 !! "err@user/1" = Some VUndefined.
Proof. repeat split; vm_compute; reflexivity. Qed.


(** ** Mutation *)

(** A suspended [mutate] carries the timestamps of the world it left. *)
Lemma mutate_start_snapshot (K V : jsval) (sr : bool) (w0 w1 : world)
    (m : mutate_pending) :
  mutate_start K V sr w0 = (MSuspended m, w1) ->
  beforeMutationTs m = MUTATION_TS w1 !! m_key m
  /\ beforeConcurrentPromisesTs m = CONCURRENT_PROMISES_TS w1 !! m_key m
  /\ ((exists (src : string) (v : jsval),
         V = VFun src (Returns v) /\ m_awaited m = v)
      \/ exists r : nat, V = VPromise r /\ m_awaited m = V).
Proof.
  unfold mutate_start.
  destruct (serializeKey K w0) as [[[k a] e] w'].
  destruct (String.eqb k ""); [done|].
  destruct (String.eqb (typeof V) "undefined").
  { by destruct (trigger K sr w'). }
  unfold Date_now. cbv beta iota zeta.
  destruct V as [| | | | | |src call| | |r];
    try (match goal with |- context [mutate_commit ?a ?b ?c ?d ?e ?f ?g ?h] =>
           destruct (mutate_commit a b c d e f g h) end; done).
  - rewrite get_VStr. destruct call as [v|err].
    + intros [= <- <-]. simpl. repeat split. left. by exists src, v.
    + match goal with |- context [mutate_commit ?a ?b ?c ?d ?e ?f ?g ?h] =>
        destruct (mutate_commit a b c d e f g h) end. done.
  - intros [= <- <-]. simpl. repeat split. right. by exists r.
Qed.

(** A [mutate] that suspends has opened the mutation window of its
    key: the start is the time of the call less one, the end is [0]. *)
Lemma mutate_start_opens_window (K V : jsval) (sr : bool) (w0 w1 : world)
    (m : mutate_pending) :
  mutate_start K V sr w0 = (MSuspended m, w1) ->
  MUTATION_TS w1 !! m_key m = Some (clock w0 (clock_reads w0) - 1)
  /\ MUTATION_END_TS w1 !! m_key m = Some 0.
Proof.
  unfold mutate_start.
  destruct (serializeKey_frame K w0) as (t & c & Hf).
  destruct (serializeKey K w0) as [[[k a] e] w']. simpl in Hf. subst w'.
  destruct (String.eqb k ""); [done|].
  destruct (String.eqb (typeof V) "undefined").
  { by destruct (trigger K sr _). }
  unfold Date_now. cbv beta iota zeta.
  destruct V as [| | | | | |src call| | |r];
    try (match goal with |- context [mutate_commit ?a ?b ?c ?d ?e ?f ?g ?h] =>
           destruct (mutate_commit a b c d e f g h) end; done).
  - rewrite get_VStr. destruct call as [v|err].
    + intros [= <- <-]. simpl. by rewrite !lookup_insert_eq.
    + match goal with |- context [mutate_commit ?a ?b ?c ?d ?e ?f ?g ?h] =>
        destruct (mutate_commit a b c d e f g h) end. done.
  - intros [= <- <-]. simpl. by rewrite !lookup_insert_eq.
Qed.

(** What an overtaken [mutate] does: when a [mutate] whose value
    resolution suspended (the value is a function or a promise) is
    resumed in a world where the mutation timestamp or the in-flight
    timestamp of its key is no longer the one it recorded before
    suspending, it changes nothing: no write to the store under the key
    or the error key, no updater called, the whole world is what it was.
    It then throws the caught error when that is a truthy value, returns
    [undefined] when the caught error is a falsy value, and returns the
    resolved value when there is no error. *)
Theorem superseded_mutation_is_abandoned
    (K V : jsval) (sr : bool) (w0 w1 w : world) (m : mutate_pending)
    (settled : outcome jsval) :
  mutate_start K V sr w0 = (MSuspended m, w1) ->
  MUTATION_TS w !! m_key m <> MUTATION_TS w1 !! m_key m
  \/ CONCURRENT_PROMISES_TS w !! m_key m
     <> CONCURRENT_PROMISES_TS w1 !! m_key m ->
  (typeof V = "function" \/ exists r : nat, V = VPromise r)
  /\ mutate_resume m settled w
     = (Now match settled with
            | Returns v => Returns v
            | Throws err =>
                if truthy err then Throws err else Returns VUndefined
            end, w).
Proof.
  intros Hs Hc. apply mutate_start_snapshot in Hs as (Hm & Ht & HV).
  split.
  { destruct HV as [(src & v & -> & _) | (r & -> & _)];
      [by left | right; by exists r]. }
  unfold mutate_resume, mutate_commit. rewrite Hm, Ht.
  assert (negb (strict_eq_ts (MUTATION_TS w1 !! m_key m)
                  (MUTATION_TS w !! m_key m))
          || negb (strict_eq_ts (CONCURRENT_PROMISES_TS w1 !! m_key m)
                     (CONCURRENT_PROMISES_TS w !! m_key m)) = true) as Hb.
  { unfold strict_eq_ts. apply orb_true_iff.
    destruct Hc as [Hc | Hc]; [left | right];
      rewrite bool_decide_eq_false_2; done. }
  destruct settled as [v|err]; rewrite Hb; [done|].
  unfold throw_or_return. by destruct (truthy err).
Qed.

Lemma superseded_mutation_is_abandoned_witness :
  mutate_start (VStr "user/1") (VPromise 5) true initial_world
  = (MSuspended (msuspended_of mutation_1), mutation_1.2)
  /\ MUTATION_TS mutation_2.2 !! "user/1" = Some 1000
  /\ MUTATION_TS mutation_1.2 !! "user/1" = Some 999
  /\ mutate_resume (msuspended_of mutation_1) (Throws (VObj 3)) mutation_2.2
     = (Now (Throws (VObj 3)), mutation_2.2).
Proof.
  assert (Hs : mutate_start (VStr "user/1") (VPromise 5) true initial_world
               = (MSuspended (msuspended_of mutation_1), mutation_1.2))
    by (vm_compute; reflexivity).
  assert (Hc : MUTATION_TS mutation_2.2 !! m_key (msuspended_of mutation_1)
               <> MUTATION_TS mutation_1.2 !! m_key (msuspended_of mutation_1))
    by (vm_compute; discriminate).
  split; [exact Hs|]. split; [vm_compute; reflexivity|].
  split; [vm_compute; reflexivity|].
  exact (proj2 (superseded_mutation_is_abandoned (VStr "user/1")
                  (VPromise 5) true initial_world mutation_1.2 mutation_2.2
                  (msuspended_of mutation_1) (Throws (VObj 3)) Hs
                  (or_introl Hc))).
Defined.

(** C3, at a [mutate] whose promise is rejected with the value [0] after
    a second [mutate] of the key has started: the first call does not
    re-raise the captured error, it returns [undefined]; the test
    [if (error) throw error] misses an error that is a falsy value.  The
    store is left alone, as the claim says. *)
Theorem falsy_rejection_is_not_reraised :
  mutate_resume (msuspended_of mutation_1) (Throws (VNum 0)) mutation_2.2
  = (Now (Returns VUndefined), mutation_2.2)
  /\ mutate_resume (msuspended_of mutation_1) (Throws VUndefined)
       mutation_2.2
     = (Now (Returns VUndefined), mutation_2.2).
Proof. split; vm_compute; reflexivity. Qed.

(** The abandonment end to end: [mutate(K, V2)] starts and commits while
    the promise given to [mutate(K, promise)] is pending; when the
    promise is fulfilled with ["V1"], the first call returns ["V1"] and
    the store holds ["V2"]. *)
Example second_mutation_wins :
  let r := mutate (VStr "user/1") (VPromise 5) false
             (fun w => (mutate_start (VStr "user/1") (VStr "V2") false w).2)
             (Returns (VStr "V1")) initial_world in
  r.1 = Now (Returns (VStr "V1"))
  /\ __cache r.2 !! "user/1" = Some (VStr "V2").
Proof. split; vm_compute; reflexivity. Qed.

(** A mutation that nothing interleaved with does write the store (here
    through a plain value, which does not suspend). *)
Example mutate_plain_value_commits :
  __cache (mutate_start (VStr "user/1") (VStr "B") false initial_world).2
    !! "user/1" = Some (VStr "B")
  /\ fetch_count
       (mutate_start (VStr "user/1") (VStr "B") false initial_world).2
     = 0%nat.
Proof. split; vm_compute; reflexivity. Qed.

(** ** Retry policy *)




(** When the retry count exceeds [errorRetryCount], [onErrorRetry] does
    nothing at all. *)
Lemma onErrorRetry_over_count (c : Config) (k : string)
    (o : RevalidateOption) (n m : Z) (w : world) :
  errorRetryCount c = Some m -> retryCount o = Some n -> m < n ->
  onErrorRetry c k o w = w.
Proof.
  intros Hm Hn Hlt. unfold onErrorRetry. destruct (negb _); [done|].
  rewrite Hm, Hn. simpl.
  by assert ((m <? n) = true) as -> by by apply Z.ltb_lt.
Qed.

(** *** Rounding to a double *)



























(** *** The delay of a retry *)






(** C5, at the call [revalidate()] (no options) whose fetch is rejected,
    with [errorRetryCount = 2], [shouldRetryOnError] on and the document
    visible: the retry handed to [setTimeout] carries [retryCount = 1]
    and [dedupe = false], not [dedupe = true]. *)
Theorem retry_of_plain_call_is_not_deduped :
  scheduled_retries (failed_attempt plain_call (initial_state, initial_world)).2
  = [{| dedupe := Some false; retryCount := Some 1 |}].
Proof. vm_compute. reflexivity. Qed.

(** The options of a retry take their [dedupe] from the call that
    failed: the default [dedupe: false] merged into [revalidateOpts] at
    the top of [revalidate] overrides the [{dedupe: true}] the [catch]
    block starts from. *)
Lemma retry_opts_dedupe (o : RevalidateOption) (n : Z) :
  dedupe
    (assign_opts
       (assign_opts {| dedupe := Some true; retryCount := None |}
          (assign_opts {| dedupe := Some false; retryCount := None |} o))
       {| dedupe := None; retryCount := Some n |})
  = Some (default false (dedupe o)).
Proof. by destruct o as [[[]|] ?]. Qed.

(** The rest of the retry cap, on the same hook: after the first failure
    and the failures of the two retries it leads to, two retries have
    been scheduled, with counts 1 and 2; the third failure schedules
    nothing. *)
Example retry_cap_two :
  let s1 := failed_attempt plain_call (initial_state, initial_world) in
  let s2 := failed_attempt {| dedupe := Some false; retryCount := Some 1 |} s1 in
  let s3 := failed_attempt {| dedupe := Some false; retryCount := Some 2 |} s2 in
  scheduled_retries s3.2
  = [{| dedupe := Some false; retryCount := Some 1 |};
     {| dedupe := Some false; retryCount := Some 2 |}]
  /\ scheduled_retries s3.2 = scheduled_retries s2.2.
Proof. split; vm_compute; reflexivity. Qed.

(** A call that asked for deduping keeps it in its retries. *)
Example retry_of_soft_call_is_deduped :
  scheduled_retries (failed_attempt soft_call (initial_state, initial_world)).2
  = [{| dedupe := Some true; retryCount := Some 1 |}].
Proof. vm_compute. reflexivity. Qed.

(** Without [errorRetryCount] no retry count is over the limit: every
    failure in a visible document schedules the next retry. *)
Lemma retry_unbounded (c : Config) (k : string) (o : RevalidateOption)
    (w : world) :
  errorRetryCount c = None -> visible w = true ->
  scheduled_retries (onErrorRetry c k o w) = scheduled_retries w ++ [o].
Proof.
  intros Hc Hv. unfold onErrorRetry, isDocumentVisible. rewrite Hv, Hc.
  unfold scheduled_retries. simpl. by rewrite flat_map_app.
Qed.

(** * Further properties of the store and of the key codec *)

Lemma serializeKey_effects (k : jsval) (w : world) :
  effects (serializeKey k w).2 = effects w
  /\ __cache (serializeKey k w).2 = __cache w
  /\ __listeners (serializeKey k w).2 = __listeners w.
Proof.
  destruct (serializeKey_frame k w) as (t & c & ->). done.
Qed.

(** What a read of [K] sees in a world whose table extends the one in
    which [K] was last serialized. *)
Lemma get_has_stable (K : jsval) (w w' w2 : world)
    (k : string) (a : option (list jsval)) (e : string) :
  serializeKey K w = ((k, a, e), w') ->
  table w' ⊆ table w2 ->
  (get K w2).1 = default VUndefined (__cache w2 !! k)
  /\ (has K w2).1 = bool_decide (is_Some (__cache w2 !! k)).
Proof.
  intros Hs Ht. apply serializeKey_stable in Hs as [_ Hst].
  pose proof (Hst w2 Ht) as Hk.
  destruct (serializeKey_frame K w2) as (t & c & Hf).
  unfold get, has.
  destruct (serializeKey K w2) as [[[k' a'] e'] w3].
  simpl in Hk, Hf. injection Hk as -> -> ->. by subst w3.
Qed.

(** After [delete(K)], and whatever is read in between, [get(K)] returns
    [undefined] and [has(K)] is [false]. *)
Theorem delete_then_get
    (reads : list cache_op) (w : world) (K : jsval) :
  forallb is_read reads = true ->
  (get K (run_ops reads (delete K w))).1 = VUndefined
  /\ (has K (run_ops reads (delete K w))).1 = false.
Proof.
  intros Hr. unfold delete.
  destruct (serializeKey K w) as [[[k a] e] w1] eqn:E.
  set (w2 := notify _).
  destruct (read_ops_frame reads w2 Hr) as [Hc Ht].
  destruct (get_has_stable K w w1 (run_ops reads w2) k a e E Ht) as [-> ->].
  rewrite Hc. subst w2. simpl. rewrite lookup_delete_eq. done.
Qed.

Lemma delete_then_get_witness :
  (get (VArr 0 [VObj 7]) (run_ops [OpHas (VObj 7)]
     (delete (VArr 0 [VObj 7])
        (set (VArr 0 [VObj 7]) (VNum 5) initial_world)))).1 = VUndefined.
Proof.
  exact (proj1 (delete_then_get [OpHas (VObj 7)]
                  (set (VArr 0 [VObj 7]) (VNum 5) initial_world)
                  (VArr 0 [VObj 7]) eq_refl)).
Defined.

(** After [set(K, X)], [has(K)] is [true] for every [X]: an entry that
    holds [undefined] is present, where an absent key is not, although
    [get] returns [undefined] for both. *)
Theorem set_then_has
    (reads : list cache_op) (w : world) (K X : jsval) :
  forallb is_read reads = true ->
  (has K (run_ops reads (set K X w))).1 = true.
Proof.
  intros Hr. unfold set.
  destruct (serializeKey K w) as [[[k a] e] w1] eqn:E.
  set (w2 := notify _).
  destruct (read_ops_frame reads w2 Hr) as [Hc Ht].
  destruct (get_has_stable K w w1 (run_ops reads w2) k a e E Ht) as [_ ->].
  rewrite Hc. subst w2. simpl. rewrite lookup_insert_eq.
  by apply bool_decide_eq_true_2.
Qed.

Lemma set_then_has_witness :
  (has (VStr "k") (run_ops [OpGet (VStr "k")]
                     (set (VStr "k") VUndefined initial_world))).1 = true
  /\ (get (VStr "k") (set (VStr "k") VUndefined initial_world)).1
     = (get (VStr "k") initial_world).1.
Proof.
  split.
  - exact (set_then_has [OpGet (VStr "k")] initial_world (VStr "k")
             VUndefined eq_refl).
  - vm_compute. reflexivity.
Defined.

(** After [clear()] no key is present, whatever is read afterwards. *)
Theorem clear_then_get
    (reads : list cache_op) (w : world) (K : jsval) :
  forallb is_read reads = true ->
  (get K (run_ops reads (clear w))).1 = VUndefined
  /\ (has K (run_ops reads (clear w))).1 = false.
Proof.
  intros Hr. destruct (read_ops_frame reads (clear w) Hr) as [Hc _].
  destruct (serializeKey_effects K (run_ops reads (clear w)))
    as (_ & Hc' & _).
  unfold get, has.
  destruct (serializeKey K (run_ops reads (clear w))) as [[[k a] e] w1].
  simpl in *. rewrite Hc', Hc. simpl. by rewrite lookup_empty.
Qed.

Lemma clear_then_get_witness :
  (get (VStr "a") (run_ops [OpHas (VStr "b")]
                     (clear (set (VStr "a") (VNum 1) initial_world)))).1
  = VUndefined.
Proof.
  exact (proj1 (clear_then_get [OpHas (VStr "b")]
                  (set (VStr "a") (VNum 1) initial_world) (VStr "a")
                  eq_refl)).
Defined.

(** [set(K, X)] and [delete(K)] leave the entry of every string key other
    than the canonical key of [K] as it was. *)
Theorem write_leaves_other_keys
    (w : world) (K X : jsval) (s : string) :
  canonical K w <> s ->
  (get (VStr s) (set K X w)).1 = (get (VStr s) w).1
  /\ (get (VStr s) (delete K w)).1 = (get (VStr s) w).1.
Proof.
  unfold canonical, set, delete. intros Hne. rewrite !get_VStr.
  destruct (serializeKey_effects K w) as (_ & Hc & _).
  destruct (serializeKey K w) as [[[k a] e] w1]. simpl in *.
  by rewrite lookup_insert_ne, lookup_delete_ne, Hc.
Qed.

Lemma write_leaves_other_keys_witness :
  (get (VStr "err@user/1")
     (set (VStr "user/1") (VNum 2)
        (set (VStr "err@user/1") (VStr "boom") initial_world))).1
  = VStr "boom".
Proof.
  assert (H : canonical (VStr "user/1")
                (set (VStr "err@user/1") (VStr "boom") initial_world)
              <> "err@user/1") by (vm_compute; discriminate).
  rewrite (proj1 (write_leaves_other_keys _ (VStr "user/1") (VNum 2)
                    "err@user/1" H)).
  vm_compute. reflexivity.
Defined.

(** The error key is empty exactly when the canonical key is; otherwise
    it is the canonical key behind ["err@"], a different string: the
    data and the error of a resource never share an entry of the store. *)
Theorem error_key_of_key (K : jsval) (w : world) :
  let '(k, _, e) := (serializeKey K w).1 in
  (k = "" <-> e = "")
  /\ (k <> "" -> e = "err@" +:+ k /\ e <> k).
Proof.
  pose proof (useSWR_wf K None demo_config w) as Hwf.
  unfold hook_wf, useSWR in Hwf.
  destruct (serializeKey K w) as [[[k a] e] w1]. simpl in *. subst e.
  destruct (String.eqb_spec k "") as [-> | Hne]; simpl.
  - split; [done|]. by intros [].
  - split; [|intros _; split; [done|apply err_prefix_ne]].
    split; [done|]. intros H. cbv [String.append] in H. discriminate.
Qed.

(** A canonical key and its error key serialize to themselves: the
    strings that [serializeKey] returns address the same entries when
    they are handed to the store again. *)
Theorem canonical_key_is_fixed_point (K : jsval) (w w2 : world) :
  let '(k, _, e) := (serializeKey K w).1 in
  serializeKey (VStr k) w2 = ((k, None, e), w2)
  /\ canonical (VStr e) w2 = e.
Proof.
  pose proof (useSWR_wf K None demo_config w) as Hwf.
  unfold hook_wf, useSWR, canonical in *.
  destruct (serializeKey K w) as [[[k a] e] w1]. simpl in Hwf |- *.
  rewrite !serializeKey_VStr. split; [by rewrite <- Hwf|].
  unfold js_or. simpl. by destruct (String.eqb_spec e "") as [-> | ?].
Qed.

Lemma append_nonempty (a b : string) : a <> "" -> a +:+ b <> "".
Proof. destruct a; [done|]. intros _. cbv [String.append]. discriminate. Qed.

Lemma hash_loop_nonempty (args : list jsval) :
  forall (acc : string) (t : gmap nat nat) (c : nat),
    acc <> "" -> (hash_loop args acc t c).1.1 <> "".
Proof.
  induction args as [|x rest IH]; intros acc t c Hacc; simpl; [done|].
  destruct (hash_arg x t c) as [[h t1] c1]. apply IH.
  by apply append_nonempty.
Qed.

(** An array key, given directly or by a key producer, keeps its
    elements verbatim as the arguments of the fetcher, and its canonical
    key is empty exactly when the array is. *)
Theorem array_key_arguments
    (K : jsval) (ref : nat) (elems : list jsval) (w : world) :
  K = VArr ref elems
  \/ (exists src : string, K = VFun src (Returns (VArr ref elems))) ->
  (serializeKey K w).1.1.2 = Some elems
  /\ (canonical K w = "" <-> elems = []).
Proof.
  intros HK. unfold canonical.
  assert (serializeKey K w
          = let '(h, w') := hash elems w in
            ((h, Some elems, if negb (String.eqb h "") then "err@" +:+ h
                             else ""), w')) as ->.
  { destruct HK as [-> | [src ->]]; unfold serializeKey; simpl;
      by destruct (hash elems w). }
  unfold hash. destruct elems as [|x l]; simpl; [done|].
  pose proof (hash_loop_nonempty (x :: l) "arg" (table w) (counter w)) as Hn.
  simpl in Hn.
  destruct (hash_arg x (table w) (counter w)) as [[h0 t0] c0].
  destruct (hash_loop l _ t0 c0) as [[h t] c]. simpl in *.
  split; [done|]. split; [|done]. intros ->. by destruct Hn.
Qed.

Lemma array_key_arguments_witness :
  (serializeKey (VFun "() => [url, user]"
                   (Returns (VArr 0 [VStr "/api"; VObj 4]))) initial_world)
    .1.1.2
  = Some [VStr "/api"; VObj 4].
Proof.
  exact (proj1 (array_key_arguments _ 0 [VStr "/api"; VObj 4] initial_world
                  (or_intror (ex_intro _ "() => [url, user]" eq_refl)))).
Defined.

(** ** The table of [hash] *)

Lemma hash_arg_wf (x : jsval) (t : gmap nat nat) (c : nat)
    (h : string) (t' : gmap nat nat) (c' : nat) :
  table_wf t c -> hash_arg x t c = (h, t', c') -> table_wf t' c'.
Proof.
  intros [Hlt Hinj]. unfold hash_arg.
  destruct (obj_ref x) as [r|].
  - destruct (t !! r) as [n|] eqn:Hl; intros [= <- <- <-]; [done|].
    split.
    + intros r0 n. rewrite lookup_insert. case_decide.
      * intros [= <-]. lia.
      * intros Hn. apply Hlt in Hn. lia.
    + intros r1 r2 n. rewrite !lookup_insert.
      repeat case_decide; subst; try done.
      * intros [= <-] Hn. apply Hlt in Hn. lia.
      * intros Hn [= <-]. apply Hlt in Hn. lia.
      * apply Hinj.
  - destruct x; intros [= <- <- <-]; done.
Qed.

Lemma hash_loop_wf (args : list jsval) :
  forall (acc : string) (t : gmap nat nat) (c : nat)
         (s : string) (t' : gmap nat nat) (c' : nat),
    table_wf t c -> hash_loop args acc t c = (s, t', c') -> table_wf t' c'.
Proof.
  induction args as [|x rest IH]; intros acc t c s t' c' Hwf; simpl.
  - by intros [= <- <- <-].
  - destruct (hash_arg x t c) as [[h t1] c1] eqn:Ha.
    apply IH. by eapply hash_arg_wf.
Qed.

Lemma serializeKey_wf (K : jsval) (w : world) :
  hash_wf w -> hash_wf (serializeKey K w).2.
Proof.
  intros Hwf. unfold serializeKey.
  set (k' := if String.eqb (typeof K) "function" then _ else K).
  clearbody k'. destruct k' as [| | | | | | |ref elems| |]; try done.
  unfold hash. destruct elems as [|a l]; [done|].
  destruct (hash_loop (a :: l) "arg" (table w) (counter w))
    as [[h t] c] eqn:Hh.
  simpl. eapply hash_loop_wf; [exact Hwf|exact Hh].
Qed.

Lemma run_op_frame (o : cache_op) (w : world) :
  (hash_wf w -> hash_wf (run_op o w)) /\ table w ⊆ table (run_op o w).
Proof.
  assert (forall k : jsval,
    (hash_wf w -> hash_wf (serializeKey k w).2)
    /\ table w ⊆ table (serializeKey k w).2) as Hk.
  { intros k. split; [apply serializeKey_wf|].
    destruct (serializeKey k w) as [r w1] eqn:E.
    by apply serializeKey_stable in E as [? _]. }
  destruct o as [k|k v|k|k|]; simpl;
    try (specialize (Hk k); unfold get, set, has, delete;
         destruct (serializeKey k w) as [[[s a] e] w1]; exact Hk).
  done.
Qed.

Lemma run_ops_frame (os : list cache_op) :
  forall w : world,
    (hash_wf w -> hash_wf (run_ops os w)) /\ table w ⊆ table (run_ops os w).
Proof.
  induction os as [|o os IH]; intros w; simpl; [done|].
  destruct (run_op_frame o w) as [Hw Ht].
  destruct (IH (run_op o w)) as [Hw' Ht']. unfold run_ops in *.
  split; [auto|by etrans].
Qed.

(** The store operations keep the table of [hash] well formed: every
    number in it is below the counter and belongs to one reference. *)
Theorem hash_table_invariant (os : list cache_op) (w : world) :
  hash_wf w -> hash_wf (run_ops os w).
Proof. apply run_ops_frame. Qed.

Lemma hash_wf_initial : hash_wf initial_world.
Proof. split; intros *; simpl; by rewrite lookup_empty. Qed.

Lemma hash_table_invariant_witness :
  hash_wf (run_ops [OpSet (VArr 0 [VObj 3; VObj 4]) VNull;
                    OpGet (VArr 1 [VObj 4; VPromise 9]); OpClear]
             initial_world).
Proof.
  exact (hash_table_invariant _ initial_world hash_wf_initial).
Defined.

(** The canonical key that a key value once got is the one it gets in
    every later state of the store: the table of [hash] only grows. *)
Theorem canonical_key_is_stable
    (os : list cache_op) (K : jsval) (w : world) :
  canonical K (run_ops os (serializeKey K w).2) = canonical K w.
Proof.
  unfold canonical.
  destruct (serializeKey K w) as [r w1] eqn:E.
  apply serializeKey_stable in E as [_ Hst]. simpl.
  destruct (run_ops_frame os w1) as [_ Ht].
  by rewrite (Hst _ Ht).
Qed.

Lemma hash_loop_snoc (pre : list jsval) (x : jsval) :
  forall (acc : string) (t : gmap nat nat) (c : nat),
    hash_loop (pre ++ [x]) acc t c
    = let '(s, t1, c1) := hash_loop pre acc t c in
      let '(h, t2, c2) := hash_arg x t1 c1 in
      (s +:+ "@" +:+ h, t2, c2).
Proof.
  induction pre as [|y pre IH]; intros acc t c; simpl.
  - by destruct (hash_arg x t c) as [[h t2] c2].
  - destruct (hash_arg y t c) as [[h t1] c1]. apply IH.
Qed.

Lemma hash_arg_object (x : jsval) (r : nat) (t : gmap nat nat) (c : nat)
    (h : string) (t' : gmap nat nat) (c' : nat) :
  obj_ref x = Some r -> hash_arg x t c = (h, t', c') ->
  exists n : nat, h = pretty n /\ t' !! r = Some n.
Proof.
  unfold hash_arg. intros ->.
  destruct (t !! r) as [n|] eqn:Hl; intros [= <- <- <-].
  - by exists n.
  - exists c. by rewrite lookup_insert_eq.
Qed.

(** Two array keys that differ only in their last element, two different
    objects, get different canonical keys when they are serialized one
    after the other: different objects are different resources. *)
Theorem distinct_objects_distinct_keys
    (w : world) (pre : list jsval) (oa ob : jsval) (a b i j : nat) :
  hash_wf w ->
  obj_ref oa = Some a ->
  obj_ref ob = Some b ->
  a <> b ->
  canonical (VArr i (pre ++ [oa])) w
  <> canonical (VArr j (pre ++ [ob]))
       (serializeKey (VArr i (pre ++ [oa])) w).2.
Proof.
  intros Hwf Ha Hb Hne. unfold canonical, serializeKey. simpl.
  assert (forall (x : jsval) (w0 : world),
    hash (pre ++ [x]) w0
    = let '(s, t, c) := hash_loop (pre ++ [x]) "arg" (table w0) (counter w0) in
      (s, set_hash t c w0)) as Hh.
  { intros x w0. unfold hash. by destruct pre. }
  rewrite !Hh, hash_loop_snoc.
  destruct (hash_loop pre "arg" (table w) (counter w))
    as [[s t1] c1] eqn:Hpre.
  destruct (hash_arg oa t1 c1) as [[ha t2] c2] eqn:Hoa. simpl.
  rewrite hash_loop_snoc.
  pose proof (hash_loop_wf _ _ _ _ _ _ _ Hwf Hpre) as Hwf1.
  pose proof (hash_arg_wf _ _ _ _ _ _ Hwf1 Hoa) as Hwf2.
  apply hash_loop_stable in Hpre as [_ Hre].
  pose proof (hash_arg_stable _ _ _ _ _ _ Hoa) as [Hsub _].
  rewrite (Hre t2 c2 Hsub).
  destruct (hash_arg ob t2 c2) as [[hb t3] c3] eqn:Hob. simpl.
  pose proof (hash_arg_wf _ _ _ _ _ _ Hwf2 Hob) as [_ Hinj].
  pose proof (hash_arg_stable _ _ _ _ _ _ Hob) as [Hsub3 _].
  destruct (hash_arg_object _ _ _ _ _ _ _ Ha Hoa) as (na & -> & Hla).
  destruct (hash_arg_object _ _ _ _ _ _ _ Hb Hob) as (nb & -> & Hlb).
  intros Heq. apply (inj (String.append s)) in Heq.
  apply (inj (String.append "@")) in Heq.
  apply (inj pretty) in Heq. subst nb.
  apply Hne. eapply Hinj; [|exact Hlb].
  by eapply lookup_weaken.
Qed.

Lemma distinct_objects_distinct_keys_witness :
  canonical (VArr 0 [VStr "/api/user"; VObj 4]) initial_world
  <> canonical (VArr 1 [VStr "/api/user"; VObj 5])
       (serializeKey (VArr 0 [VStr "/api/user"; VObj 4]) initial_world).2.
Proof.
  exact (distinct_objects_distinct_keys initial_world [VStr "/api/user"]
           (VObj 4) (VObj 5) 4 5 0 1 hash_wf_initial eq_refl eq_refl
           ltac:(discriminate)).
Defined.

(** ** Listeners and updaters: removal by swapping with the last *)

Lemma indexOf_Some (l : list nat) (x : nat) :
  forall i : nat,
    indexOf l x = Some i ->
    exists l1 l2 : list nat, l = l1 ++ x :: l2 /\ length l1 = i.
Proof.
  induction l as [|y l IH]; intros i; simpl; [done|].
  destruct (Nat.eqb_spec y x) as [-> | Hne].
  - intros [= <-]. by exists [], l.
  - destruct (indexOf l x) as [j|]; [|done]. simpl. intros [= <-].
    destruct (IH j eq_refl) as (l1 & l2 & -> & <-).
    by exists (y :: l1), l2.
Qed.

Lemma indexOf_None (l : list nat) (x : nat) : indexOf l x = None -> x ∉ l.
Proof.
  induction l as [|y l IH]; simpl; [intros _; apply not_elem_of_nil|].
  destruct (Nat.eqb_spec y x) as [-> | Hne]; [done|].
  destruct (indexOf l x); [done|]. intros _.
  apply not_elem_of_cons. split; [done|by apply IH].
Qed.

Lemma indexOf_elem (l : list nat) (x : nat) :
  x ∈ l -> is_Some (indexOf l x).
Proof.
  intros Hin. destruct (indexOf l x) eqn:E; [done|].
  by apply indexOf_None in E.
Qed.

Lemma indexOf_snoc (l : list nat) (x : nat) :
  exists i : nat,
    indexOf (l ++ [x]) x = Some i /\ (l ++ [x]) !! i = Some x.
Proof.
  induction l as [|y l (i & Hi & Hl)]; simpl.
  - rewrite Nat.eqb_refl. by exists 0%nat.
  - destruct (Nat.eqb_spec y x) as [-> | Hne]; [by exists 0%nat|].
    rewrite Hi. by exists (S i).
Qed.

(** Removing the element at [length l1] by swapping leaves the other
    elements, possibly in another order. *)
Lemma swap_with_last_perm (l1 l2 : list nat) (x : nat) :
  x :: swap_with_last (length l1) (l1 ++ x :: l2) ≡ₚ l1 ++ x :: l2.
Proof.
  unfold swap_with_last.
  destruct (decide (l2 = [])) as [-> | Hne].
  - rewrite last_snoc, list_insert_id, removelast_last.
    + apply Permutation_cons_append.
    + by rewrite lookup_app_r, Nat.sub_diag.
  - destruct (last l2) as [z|] eqn:Hl;
      [|by apply last_None in Hl].
    apply last_Some in Hl as [l2' ->].
    rewrite last_app_cons.
    change (x :: l2' ++ [z]) with ((x :: l2') ++ [z]). rewrite last_snoc.
    rewrite insert_app_r_alt by lia. rewrite Nat.sub_diag. simpl.
    change (l1 ++ z :: l2' ++ [z]) with (l1 ++ (z :: l2') ++ [z]).
    rewrite app_assoc, removelast_last.
    rewrite <- !Permutation_middle. f_equiv.
    by rewrite app_nil_r.
Qed.

(** [subscribe] followed at once by the [unsubscribe] it returned gives
    back the list of listeners as it was, also when the listener was
    subscribed before. *)
Theorem subscribe_then_unsubscribe (l : nat) (w : world) :
  exists w1 : world,
    subscribe (Some l) w = Subscribed w1
    /\ unsubscribe l true w1 = (false, w).
Proof.
  eexists. split; [reflexivity|]. unfold unsubscribe. simpl.
  destruct (indexOf_snoc (__listeners w) l) as (i & -> & Hi).
  unfold swap_with_last. rewrite last_snoc, list_insert_id by done.
  rewrite removelast_last. by destruct w.
Qed.

(** A first call of an [unsubscribe] closure removes one registration of
    its listener and keeps all the others (in an order that may differ);
    every further call of the same closure does nothing, even when the
    listener is still registered through another subscription. *)
Theorem unsubscribe_removes_one (l : nat) (w : world) :
  l ∈ __listeners w ->
  let w' := (unsubscribe l true w).2 in
  (unsubscribe l true w).1 = false
  /\ l :: __listeners w' ≡ₚ __listeners w
  /\ unsubscribe l false w' = (false, w').
Proof.
  intros Hin. unfold unsubscribe. simpl.
  destruct (indexOf_elem _ _ Hin) as [i Hi]. rewrite Hi. simpl.
  split; [done|]. split; [|done].
  apply indexOf_Some in Hi as (l1 & l2 & -> & <-).
  apply swap_with_last_perm.
Qed.

Lemma unsubscribe_removes_one_witness :
  1%nat :: __listeners (unsubscribe 1 true
                          (set___listeners [1; 2; 3; 1]%nat initial_world)).2
  ≡ₚ [1; 2; 3; 1]%nat.
Proof.
  assert (H : 1%nat ∈ __listeners (set___listeners [1; 2; 3; 1]%nat
                                      initial_world))
    by (simpl; apply list_elem_of_here).
  exact (proj1 (proj2 (unsubscribe_removes_one 1
                         (set___listeners [1; 2; 3; 1]%nat initial_world)
                         H))).
Defined.

(** The order does change: the last listener takes the place of the one
    removed. *)
Example unsubscribe_reorders :
  __listeners (unsubscribe 1 true
                 (set___listeners [1; 2; 3]%nat initial_world)).2
  = [3; 2]%nat.
Proof. reflexivity. Qed.

(** [removeRevalidator] takes one registration of the callback out of
    the list of its key, keeps the other callbacks of that key (in an
    order that may differ) and leaves the lists of all other keys. *)
Theorem removeRevalidator_removes_one
    (k : string) (callback : nat) (l : list nat) (w : world) :
  CACHE_REVALIDATORS w !! k = Some l ->
  callback ∈ l ->
  exists l' : list nat,
    removeRevalidator k callback w !! k = Some l'
    /\ callback :: l' ≡ₚ l
    /\ forall k' : string,
         k' <> k ->
         removeRevalidator k callback w !! k' = CACHE_REVALIDATORS w !! k'.
Proof.
  intros Hl Hin. unfold removeRevalidator. rewrite Hl.
  destruct (indexOf_elem _ _ Hin) as [i Hi]. rewrite Hi.
  exists (swap_with_last i l). split; [apply lookup_insert_eq|].
  split.
  - apply indexOf_Some in Hi as (l1 & l2 & -> & <-).
    apply swap_with_last_perm.
  - intros k' Hne. by rewrite lookup_insert_ne.
Qed.

Lemma removeRevalidator_removes_one_witness :
  exists l' : list nat,
    removeRevalidator "user/1" 7
      (set_CACHE_REVALIDATORS {["user/1" := [7; 8; 9]%nat]} initial_world)
    !! "user/1" = Some l'
    /\ 7%nat :: l' ≡ₚ [7; 8; 9]%nat.
Proof.
  destruct (removeRevalidator_removes_one "user/1" 7 [7; 8; 9]%nat
              (set_CACHE_REVALIDATORS {["user/1" := [7; 8; 9]%nat]}
                 initial_world))
    as (l' & H1 & H2 & _).
  - vm_compute. reflexivity.
  - apply list_elem_of_here.
  - by exists l'.
Defined.

(** Registering a callback and removing it again leaves the list of the
    key as it was; a key that had no list is left with an empty one, not
    without one. *)
Theorem addRevalidator_then_remove
    (k : string) (callback : nat) (w : world) :
  removeRevalidator k callback
    (set_CACHE_REVALIDATORS (addRevalidator k callback w) w)
  = <[k := default [] (CACHE_REVALIDATORS w !! k)]> (CACHE_REVALIDATORS w).
Proof.
  unfold removeRevalidator, addRevalidator. simpl.
  destruct (CACHE_REVALIDATORS w !! k) as [l|] eqn:Hl;
    rewrite lookup_insert_eq; simpl.
  - destruct (indexOf_snoc l callback) as (i & -> & Hi).
    rewrite last_snoc, list_insert_id, removelast_last by done.
    by rewrite insert_insert_eq.
  - rewrite Nat.eqb_refl. simpl. by rewrite insert_insert_eq.
Qed.

(** * Further properties of revalidation *)

(** ** What the steps of [revalidate] add to the record of calls *)

Lemma set_VStr_effects (s : string) (v : jsval) (w : world) :
  effects (set (VStr s) v w) = effects w ++ (EListener <$> __listeners w).
Proof. by rewrite set_VStr. Qed.

Lemma broadcastState_effects (k : string) (d e : jsval) (w : world) :
  effects (broadcastState k d e w)
  = effects w
    ++ (if negb (String.eqb k "")
        then (fun u => EUpdater u false d e None)
             <$> default [] (CACHE_REVALIDATORS w !! k)
        else []).
Proof. by destruct (broadcastState_spec k d e w) as (m & -> & _). Qed.

Lemma emit_effects (hs : HookState) (ev : string) (ps : list jsval)
    (w : world) :
  effects (emit hs ev ps w)
  = effects w ++ (if unmountedRef hs then [] else [ECallback ev ps]).
Proof. unfold emit. destruct (unmountedRef hs); simpl; by rewrite ?app_nil_r. Qed.

(** Whether [onErrorRetry] lets a retry with options [o] through. *)
Lemma onErrorRetry_effects (c : Config) (k : string) (o : RevalidateOption)
    (w : world) :
  exists delay : Z,
    effects (onErrorRetry c k o w)
    = effects w
      ++ (if visible w
             && negb (match errorRetryCount c with
                      | Some _ => js_gt (retryCount o) (errorRetryCount c)
                      | None => false
                      end)
          then [ESetTimeout (TRevalidate k o) delay] else []).
Proof.
  unfold onErrorRetry, isDocumentVisible.
  destruct (visible w); simpl; [|exists 0; by rewrite app_nil_r].
  destruct (match errorRetryCount c with Some _ => _ | None => _ end); simpl.
  - exists 0. by rewrite app_nil_r.
  - by eexists.
Qed.

Lemma dispatch_data_None (c : Config) (a : action) (hs : HookState) :
  a_data a = None -> data (dispatch c a hs) = data hs.
Proof. unfold dispatch. intros ->. by destruct (dispatch_live hs). Qed.

(** The options that the [catch] block hands to [onErrorRetry]. *)
Lemma retry_opts_retryCount (o : RevalidateOption) :
  retryCount
    (assign_opts (assign_opts {| dedupe := Some true; retryCount := None |} o)
       {| dedupe := None;
          retryCount := Some (default 0 (retryCount o) + 1) |})
  = Some (default 0 (retryCount o) + 1).
Proof. done. Qed.

(** The calls that the [catch] block of [revalidate] makes, in order:
    the store listeners (for the write of the error key), the updaters
    when the error is new and the call was not a joined one, [onError],
    [onErrorRetry], and the timer of the retry when [onErrorRetry] is the
    default one and lets it through. *)
Lemma revalidate_catch_effects (h : Hook) (o : RevalidateOption) (d : bool)
    (err : jsval) (hs : HookState) (w : world) :
  let o' :=
    assign_opts (assign_opts {| dedupe := Some true; retryCount := None |} o)
      {| dedupe := None;
         retryCount := Some (default 0 (retryCount o) + 1) |} in
  exists delay : Z,
    effects (revalidate_catch h o d err (hs, w)).2.2
    = effects w
      ++ (EListener <$> __listeners w)
      ++ (if negb (strict_eq (error hs) err) && negb d
             && negb (String.eqb (key h) "")
          then (fun u => EUpdater u false VUndefined err None)
               <$> default [] (CACHE_REVALIDATORS w !! key h)
          else [])
      ++ (if unmountedRef hs then [] else [ECallback "onError" [err; VStr (key h)]])
      ++ (if shouldRetryOnError (config h) && negb (unmountedRef hs)
          then EOnErrorRetry err (key h) o'
               :: (if defaultOnErrorRetry (config h) && visible w
                      && negb (match errorRetryCount (config h) with
                               | Some _ =>
                                   js_gt (retryCount o')
                                     (errorRetryCount (config h))
                               | None => false
                               end)
                   then [ESetTimeout (TRevalidate (key h) o') delay]
                   else [])
          else []).
Proof.
  intros o'. unfold revalidate_catch. fold o'.
  set (w0 := set_inflight _ _ w).
  set (w1 := set (VStr (keyErr h)) err w0).
  assert (effects w1 = effects w ++ (EListener <$> __listeners w)) as Hw1
    by (subst w1; by rewrite set_VStr_effects).
  assert (CACHE_REVALIDATORS w1 = CACHE_REVALIDATORS w
          /\ visible w1 = visible w) as [Hrev Hvis]
    by (subst w1; by rewrite set_VStr).
  set (c := negb (strict_eq (error hs) err)).
  set (hs1 := dispatch (config h) _ hs).
  assert (exists (hs2 : HookState) (w2 : world),
    (if c then (hs1, if negb d then broadcastState (key h) VUndefined err w1
                     else w1)
     else (hs, w1)) = (hs2, w2)
    /\ unmountedRef hs2 = unmountedRef hs
    /\ visible w2 = visible w
    /\ effects w2
       = effects w1
         ++ (if c && negb d && negb (String.eqb (key h) "")
             then (fun u => EUpdater u false VUndefined err None)
                  <$> default [] (CACHE_REVALIDATORS w !! key h)
             else [])) as (hs2 & w2 & -> & Hu & Hv & He).
  { destruct c.
    - eexists _, _. split; [reflexivity|].
      split; [apply dispatch_unmountedRef|].
      destruct d; simpl.
      + split; [done|]. by rewrite app_nil_r.
      + split; [by destruct (broadcastState_spec (key h) VUndefined err w1)
                     as (m & -> & _)|].
        by rewrite broadcastState_effects, Hrev.
    - eexists _, _. split; [reflexivity|]. split; [done|]. split; [done|].
      simpl. by rewrite app_nil_r. }
  set (w3 := emit hs2 "onError" [err; VStr (key h)] w2).
  assert (effects w3
          = effects w2 ++ (if unmountedRef hs then []
                           else [ECallback "onError" [err; VStr (key h)]])
          /\ visible w3 = visible w) as [Hw3 Hv3].
  { subst w3. rewrite emit_effects, Hu. split; [done|].
    unfold emit. by destruct (unmountedRef hs2). }
  destruct (shouldRetryOnError (config h)); simpl.
  - unfold emit_onErrorRetry. rewrite Hu.
    destruct (unmountedRef hs); simpl.
    + exists 0. rewrite Hw3, He, Hw1. by rewrite !app_nil_r, <- !app_assoc.
    + destruct (defaultOnErrorRetry (config h)); simpl.
      * destruct (onErrorRetry_effects (config h) (key h) o'
                    (perform (EOnErrorRetry err (key h) o') w3))
          as (delay & ->).
        exists delay. simpl. rewrite Hw3, He, Hw1, Hv3.
        by rewrite <- !app_assoc.
      * exists 0. rewrite Hw3, He, Hw1. by rewrite <- !app_assoc.
  - exists 0. rewrite Hw3, He, Hw1. by rewrite !app_nil_r, <- !app_assoc.
Qed.

Lemma only_calls_refl (w : world) : only_calls w w.
Proof. by repeat split. Qed.

Lemma only_calls_trans (w1 w2 w3 : world) :
  only_calls w1 w2 -> only_calls w2 w3 -> only_calls w1 w3.
Proof.
  unfold only_calls. intros H1 H2. destruct_and!.
  repeat split; congruence.
Qed.

Lemma broadcastState_only_calls (k : string) (d e : jsval) (w : world) :
  only_calls w (broadcastState k d e w).
Proof.
  destruct (broadcastState_spec k d e w) as (m & -> & _). by repeat split.
Qed.

Lemma emit_only_calls (hs : HookState) (ev : string) (ps : list jsval)
    (w : world) :
  only_calls w (emit hs ev ps w).
Proof. unfold emit. destruct (unmountedRef hs); by repeat split. Qed.

Lemma emit_onErrorRetry_only_calls (h : Hook) (hs : HookState) (e : jsval)
    (o : RevalidateOption) (w : world) :
  only_calls w (emit_onErrorRetry h hs e o w).
Proof.
  unfold emit_onErrorRetry, onErrorRetry, isDocumentVisible.
  destruct (unmountedRef hs); [by repeat split|].
  destruct (defaultOnErrorRetry _); [|by repeat split]. simpl.
  destruct (negb (visible w)); [by repeat split|].
  destruct (match errorRetryCount (config h) with Some _ => _ | None => _ end);
    by repeat split.
Qed.

(** What the [catch] block leaves of the shared state: the in-flight
    entry of the key is gone, the error is under the error key, and
    nothing else has changed. *)
Lemma revalidate_catch_state (h : Hook) (o : RevalidateOption) (d : bool)
    (err : jsval) (hs : HookState) (w : world) :
  only_calls
    (set___cache (<[keyErr h := err]> (__cache w))
       (set_inflight (base.delete (key h) (CONCURRENT_PROMISES w))
          (base.delete (key h) (CONCURRENT_PROMISES_TS w)) w))
    (revalidate_catch h o d err (hs, w)).2.2
  /\ data (revalidate_catch h o d err (hs, w)).2.1 = data hs.
Proof.
  unfold revalidate_catch. rewrite set_VStr.
  set (w1 := notify _).
  set (w0 := set___cache _ _).
  assert (only_calls w0 w1) as H01 by by repeat split.
  destruct (negb (strict_eq (error hs) err)).
  - set (w2 := if negb d then _ else w1).
    assert (only_calls w1 w2) as H12.
    { subst w2. destruct (negb d);
        [apply broadcastState_only_calls|apply only_calls_refl]. }
    split; [|simpl; by apply dispatch_data_None].
    simpl. eapply only_calls_trans; [exact H01|].
    eapply only_calls_trans; [exact H12|].
    eapply only_calls_trans; [apply emit_only_calls|].
    destruct (shouldRetryOnError _);
      [apply emit_onErrorRetry_only_calls|apply only_calls_refl].
  - split; [|done]. simpl.
    eapply only_calls_trans; [exact H01|].
    eapply only_calls_trans; [apply emit_only_calls|].
    destruct (shouldRetryOnError _);
      [apply emit_onErrorRetry_only_calls|apply only_calls_refl].
Qed.

Lemma start_without_inflight (h : Hook) (opts : RevalidateOption)
    (hs : HookState) (w : world) (p : pending) (s : HookState * world) :
  CONCURRENT_PROMISES w !! key h = None ->
  revalidate_start h opts (hs, w) = (Suspended p, s) ->
  shouldDeduping p = false.
Proof.
  intros Hnone. unfold revalidate_start.
  destruct (String.eqb (key h) ""); [done|].
  destruct (fn h) as [f|]; [|done].
  destruct (unmountedRef hs); [done|].
  rewrite Hnone.
  change (negb (String.eqb (typeof (default VUndefined None)) "undefined"))
    with false.
  cbv beta iota zeta. rewrite andb_false_l.
  rewrite get_VStr. destruct (f _ _) as [v|e]; [by intros [= <- _]|].
  by destruct (revalidate_catch _ _ _ _ _).
Qed.

(** A failed fetch removes the in-flight entry of the key at once, so
    the next call starts a fetch of its own, whatever its [dedupe]; it
    keeps the data: the entry of the key in the store and the [data] of
    the hook are what they were. *)
Theorem failed_fetch_clears_inflight
    (h : Hook) (p : pending) (err : jsval) (hs : HookState) (w : world) :
  hook_wf h ->
  key h <> "" ->
  let s' := (revalidate_resume h p (Throws err) (hs, w)).2 in
  CONCURRENT_PROMISES s'.2 !! key h = None
  /\ CONCURRENT_PROMISES_TS s'.2 !! key h = None
  /\ __cache s'.2 !! key h = __cache w !! key h
  /\ data s'.1 = data hs
  /\ forall (opts : RevalidateOption) (hs2 : HookState) (p2 : pending)
            (s2 : HookState * world),
       revalidate_start h opts (hs2, s'.2) = (Suspended p2, s2) ->
       shouldDeduping p2 = false.
Proof.
  intros Hwf Hk s'. subst s'. unfold revalidate_resume.
  destruct (revalidate_catch_state h (revalidateOpts p) (shouldDeduping p)
              err hs w) as [Hoc Hd].
  destruct (revalidate_catch _ _ _ _ _) as [b [hs' w']]. simpl in *.
  destruct Hoc as (_ & _ & Hc & _ & Hp & Ht & _). simpl in *.
  assert (CONCURRENT_PROMISES w' !! key h = None) as Hnone
    by (rewrite Hp; apply lookup_delete_eq).
  split; [done|]. split; [rewrite Ht; apply lookup_delete_eq|].
  split.
  { rewrite Hc, lookup_insert_ne; [done|].
    rewrite Hwf. apply String.eqb_neq in Hk. rewrite Hk. simpl.
    apply err_prefix_ne. }
  split; [done|].
  intros opts hs2 p2 s2 Hst.
  exact (start_without_inflight h opts hs2 w' p2 s2 Hnone Hst).
Qed.

Lemma failed_fetch_clears_inflight_witness :
  CONCURRENT_PROMISES
    (revalidate_resume demo_hook (suspended_of race_F1)
       (Throws (VObj 99)) (hs_F2, w_F2)).2.2 !! key demo_hook = None
  /\ CONCURRENT_PROMISES w_F2 !! key demo_hook = Some (VPromise 1).
Proof.
  assert (Hw : hook_wf demo_hook) by (vm_compute; reflexivity).
  assert (Hk : key demo_hook <> "") by (vm_compute; discriminate).
  split.
  - exact (proj1 (failed_fetch_clears_inflight demo_hook
                    (suspended_of race_F1) (VObj 99) hs_F2 w_F2 Hw Hk)).
  - vm_compute. reflexivity.
Defined.

Lemma filter_fmap_false (f : effect -> bool) (g : nat -> effect)
    (l : list nat) :
  (forall u : nat, f (g u) = false) -> List.filter f (g <$> l) = [].
Proof. intros H. induction l as [|u l IH]; simpl; [done|]. by rewrite H. Qed.

Lemma filter_fmap_true (f : effect -> bool) (g : nat -> effect)
    (l : list nat) :
  (forall u : nat, f (g u) = true) -> List.filter f (g <$> l) = g <$> l.
Proof.
  intros H. induction l as [|u l IH]; simpl; [done|]. rewrite H.
  by f_equal.
Qed.

(** The calls that a fulfilled and accepted fetch makes. *)
Lemma revalidate_accept_effects (h : Hook) (p : pending) (v : jsval)
    (hs hs' : HookState) (w w' : world) :
  revalidate_resume h p (Returns v) (hs, w) = (true, (hs', w')) ->
  effects w'
  = effects w
    ++ (if shouldDeduping p then []
        else ESetTimeout (TDedupExpire (key h)) (dedupingInterval (config h))
             :: (if unmountedRef hs then []
                 else [ECallback "onSuccess" [v; VStr (key h)]]))
    ++ (EListener <$> __listeners w)
    ++ (EListener <$> __listeners w)
    ++ (if negb (shouldDeduping p) && negb (String.eqb (key h) "")
        then (fun u => EUpdater u false v VUndefined None)
             <$> default [] (CACHE_REVALIDATORS w !! key h)
        else []).
Proof.
  unfold revalidate_resume.
  set (w1 := if shouldDeduping p then w else _).
  assert (effects w1
          = effects w
            ++ (if shouldDeduping p then []
                else ESetTimeout (TDedupExpire (key h))
                       (dedupingInterval (config h))
                     :: (if unmountedRef hs then []
                         else [ECallback "onSuccess" [v; VStr (key h)]]))
          /\ __listeners w1 = __listeners w
          /\ CACHE_REVALIDATORS w1 = CACHE_REVALIDATORS w)
    as (He1 & Hl1 & Hr1).
  { subst w1. destruct (shouldDeduping p); [by rewrite app_nil_r|].
    rewrite emit_effects. simpl. rewrite <- app_assoc. split; [done|].
    unfold emit. by destruct (unmountedRef hs). }
  destruct (shouldIgnoreRequest _ _ w1); [discriminate|].
  intros [= <- <-]. rewrite !set_VStr.
  destruct (shouldDeduping p); simpl.
  - rewrite He1, Hl1. by rewrite !app_nil_r, <- !app_assoc.
  - rewrite broadcastState_effects. simpl. rewrite He1, Hl1, Hr1.
    by rewrite <- !app_assoc.
Qed.

(** An accepted fetch result is handed to every updater of the key once,
    in the order of registration, with [shouldRevalidate = false], unless
    the call had joined a request in flight: then it calls none.  Each
    listener of the store is called twice, once for the write of the data
    and once for the write of the error key. *)
Theorem accepted_result_is_broadcast
    (h : Hook) (p : pending) (v : jsval) (hs hs' : HookState)
    (w w' : world) :
  key h <> "" ->
  revalidate_resume h p (Returns v) (hs, w) = (true, (hs', w')) ->
  broadcasts w'
  = broadcasts w
    ++ (if shouldDeduping p then []
        else (fun u => EUpdater u false v VUndefined None)
             <$> default [] (CACHE_REVALIDATORS w !! key h))
  /\ notifications w'
     = notifications w
       ++ (EListener <$> __listeners w) ++ (EListener <$> __listeners w).
Proof.
  intros Hk Hr. apply revalidate_accept_effects in Hr.
  apply String.eqb_neq in Hk. rewrite Hk in Hr. simpl in Hr.
  unfold broadcasts, notifications. rewrite Hr, !List.filter_app.
  rewrite !(filter_fmap_false is_EUpdater EListener) by done.
  rewrite !(filter_fmap_true is_EListener EListener) by done.
  destruct (shouldDeduping p); simpl.
  - by rewrite !app_nil_r.
  - rewrite (filter_fmap_true is_EUpdater) by done.
    rewrite (filter_fmap_false is_EListener) by done.
    destruct (unmountedRef hs); simpl; by rewrite ?app_nil_r.
Qed.

Lemma accepted_result_is_broadcast_witness :
  broadcasts
    (revalidate_resume demo_hook (suspended_of race_F2)
       (Returns (VStr "new"))
       (hs_F2, set_CACHE_REVALIDATORS {["user/1" := [7; 8]%nat]} w_F2)).2.2
  = [EUpdater 7 false (VStr "new") VUndefined None;
     EUpdater 8 false (VStr "new") VUndefined None].
Proof.
  assert (Hk : key demo_hook <> "") by (vm_compute; discriminate).
  pose proof (accepted_result_is_broadcast demo_hook (suspended_of race_F2)
                (VStr "new") hs_F2
                (revalidate_resume demo_hook (suspended_of race_F2)
                   (Returns (VStr "new"))
                   (hs_F2, set_CACHE_REVALIDATORS
                             {["user/1" := [7; 8]%nat]} w_F2)).2.1
                (set_CACHE_REVALIDATORS {["user/1" := [7; 8]%nat]} w_F2)
                (revalidate_resume demo_hook (suspended_of race_F2)
                   (Returns (VStr "new"))
                   (hs_F2, set_CACHE_REVALIDATORS
                             {["user/1" := [7; 8]%nat]} w_F2)).2.2
                Hk ltac:(vm_compute; reflexivity)) as [Hb _].
  rewrite Hb. vm_compute. reflexivity.
Defined.

(** When the fetched value compares equal to the hook's data, the
    accepted result leaves the hook's [data] as it is (the old reference
    is kept), and, when the hook had no error and [isValidating] was not
    read, it causes no re-render outside suspense mode. *)
Theorem equal_data_is_not_dispatched
    (h : Hook) (p : pending) (v : jsval) (hs hs' : HookState)
    (w w' : world) :
  compare (config h) (data hs) v = true ->
  revalidate_resume h p (Returns v) (hs, w) = (true, (hs', w')) ->
  data hs' = data hs
  /\ (error hs = VUndefined ->
      dep_isValidating hs = false ->
      suspense (config h) = false ->
      rerenders hs' = rerenders hs).
Proof.
  intros Hc. unfold revalidate_resume.
  destruct (shouldIgnoreRequest _ _ _); [discriminate|].
  rewrite Hc. intros [= <- _]. split.
  - by apply dispatch_data_None.
  - intros -> Hd Hs. unfold dispatch. simpl.
    destruct (dispatch_live hs); [|done]. simpl. by rewrite Hd, Hs.
Qed.

Lemma equal_data_is_not_dispatched_witness :
  data (revalidate_resume demo_hook (suspended_of race_F1)
          (Returns VUndefined) (hs_F1, w_F1)).2.1 = data hs_F1.
Proof.
  exact (proj1 (equal_data_is_not_dispatched demo_hook (suspended_of race_F1)
                  VUndefined hs_F1
                  (revalidate_resume demo_hook (suspended_of race_F1)
                     (Returns VUndefined) (hs_F1, w_F1)).2.1
                  w_F1
                  (revalidate_resume demo_hook (suspended_of race_F1)
                     (Returns VUndefined) (hs_F1, w_F1)).2.2
                  ltac:(vm_compute; reflexivity)
                  ltac:(vm_compute; reflexivity))).
Defined.

Lemma flat_map_fmap_nil {A : Type} (g' : effect -> list A)
    (g : nat -> effect) (l : list nat) :
  (forall u : nat, g' (g u) = []) -> flat_map g' (g <$> l) = [].
Proof. intros H. induction l as [|u l IH]; simpl; [done|]. by rewrite H. Qed.

(** After a rejected fetch with retry count [c] (absent counts as [0]),
    the default [onErrorRetry] schedules one retry, with count [c + 1],
    exactly when [shouldRetryOnError] is on, the hook is mounted, the
    document is visible and [c + 1] does not exceed [errorRetryCount];
    otherwise it schedules none. *)
Theorem retry_is_scheduled
    (h : Hook) (p : pending) (err : jsval) (hs : HookState) (w : world) :
  defaultOnErrorRetry (config h) = true ->
  let c := default 0 (retryCount (revalidateOpts p)) in
  retryCount
    <$> scheduled_retries (revalidate_resume h p (Throws err) (hs, w)).2.2
  = (retryCount <$> scheduled_retries w)
    ++ (if shouldRetryOnError (config h) && negb (unmountedRef hs)
           && visible w
           && match errorRetryCount (config h) with
              | Some m => c + 1 <=? m
              | None => true
              end
        then [Some (c + 1)] else []).
Proof.
  intros Hd c. unfold revalidate_resume.
  destruct (revalidate_catch_effects h (revalidateOpts p) (shouldDeduping p)
              err hs w) as (delay & He).
  unfold scheduled_retries. rewrite He, Hd. clear He.
  rewrite !flat_map_app, !fmap_app.
  rewrite (flat_map_fmap_nil _ EListener) by done.
  assert (forall (b : bool) (v e : jsval) (l : list nat),
    flat_map (fun e0 => match e0 with
                        | ESetTimeout (TRevalidate _ o) _ => [o]
                        | _ => []
                        end)
      (if b then (fun u => EUpdater u false v e None) <$> l else [])
    = []) as ->.
  { intros [] v e l; [|done]. by apply flat_map_fmap_nil. }
  assert (forall (b : bool) (e0 : effect),
    (forall (k : string) (o : RevalidateOption) (z : Z),
       e0 <> ESetTimeout (TRevalidate k o) z) ->
    flat_map (fun e1 => match e1 with
                        | ESetTimeout (TRevalidate _ o) _ => [o]
                        | _ => []
                        end)
      (if b then [] else [e0]) = []) as Hcb.
  { intros [] e0 Hne; [done|]. simpl.
    destruct e0 as [| | | | | |t z]; try done.
    destruct t as [k0|k0|k0 o0]; try done. by destruct (Hne k0 o0 z). }
  rewrite Hcb by done. f_equal. subst c.
  destruct (shouldRetryOnError (config h)), (unmountedRef hs); simpl;
    try done.
  destruct (visible w); simpl; [|done].
  destruct (errorRetryCount (config h)) as [m|]; simpl; [|done].
  rewrite Z.leb_antisym.
  by destruct (m <? default 0 (retryCount (revalidateOpts p)) + 1).
Qed.

Lemma retry_is_scheduled_witness :
  retryCount
    <$> scheduled_retries
          (revalidate_resume demo_hook
             {| revalidateOpts :=
                  {| dedupe := Some true; retryCount := Some 2 |};
                shouldDeduping := false; startAt := Some 5;
                awaited := VPromise 0 |}
             (Throws (VObj 99)) (initial_state, initial_world)).2.2
  = [].
Proof.
  exact (retry_is_scheduled demo_hook
           {| revalidateOpts :=
                {| dedupe := Some true; retryCount := Some 2 |};
              shouldDeduping := false; startAt := Some 5;
              awaited := VPromise 0 |}
           (VObj 99) initial_state initial_world eq_refl).
Defined.

Lemma revalidate_catch_fetches (h : Hook) (o : RevalidateOption) (d : bool)
    (err : jsval) (hs : HookState) (w : world) :
  List.filter is_EFetch (effects (revalidate_catch h o d err (hs, w)).2.2)
  = List.filter is_EFetch (effects w).
Proof.
  destruct (revalidate_catch_effects h o d err hs w) as (delay & ->).
  rewrite !List.filter_app.
  rewrite (filter_fmap_false is_EFetch EListener) by done.
  assert (forall (b : bool) (l : list nat),
    List.filter is_EFetch
      (if b then (fun u => EUpdater u false VUndefined err None) <$> l
       else []) = []) as ->.
  { intros [] l; [|done]. by apply filter_fmap_false. }
  destruct (unmountedRef hs), (shouldRetryOnError (config h)); simpl;
    rewrite ?app_nil_r; try done.
  match goal with |- context [if ?b then _ else _] => destruct b end;
    simpl; by rewrite app_nil_r.
Qed.

(** The fetcher invocations of a call that does not join a request. *)
Lemma revalidate_start_own (h : Hook) (f : fetcherFn)
    (opts : RevalidateOption) (hs : HookState) (w : world) :
  key h <> "" ->
  fn h = Some f ->
  unmountedRef hs = false ->
  dedupe opts <> Some true \/ CONCURRENT_PROMISES w !! key h = None ->
  List.filter is_EFetch (effects (revalidate_start h opts (hs, w)).2.2)
  = List.filter is_EFetch (effects w)
    ++ [EFetch match fnArgs h with
               | Some a => a
               | None => [VStr (key h)]
               end].
Proof.
  intros Hk Hf Hu Hd. unfold revalidate_start.
  apply String.eqb_neq in Hk. rewrite Hk, Hf, Hu.
  assert (negb (String.eqb
                  (typeof (default VUndefined
                             (CONCURRENT_PROMISES w !! key h)))
                  "undefined")
          && default false
               (dedupe (assign_opts
                          {| dedupe := Some false; retryCount := None |}
                          opts)) = false) as Hsd.
  { destruct Hd as [Hd | ->]; [|done].
    destruct opts as [[[]|] rc]; simpl in *; try done;
      by rewrite andb_false_r. }
  cbv zeta. rewrite Hsd. rewrite get_VStr.
  set (w1 := if negb _ then _ else w).
  assert (List.filter is_EFetch (effects w1)
          = List.filter is_EFetch (effects w)) as Hw1.
  { subst w1. destruct (negb (loadingTimeout (config h) =? 0)); [|done].
    destruct (negb (truthy _)); [|done]. simpl.
    rewrite List.filter_app. simpl. by rewrite app_nil_r. }
  destruct (f _ _) as [v|e].
  - simpl. rewrite List.filter_app, Hw1. done.
  - pose proof (revalidate_catch_fetches h
                  (assign_opts {| dedupe := Some false; retryCount := None |}
                     opts) false e
                  (dispatch (config h)
                     {| a_data := None; a_error := None;
                        a_isValidating := Some true |} hs)
                  (perform (EFetch match fnArgs h with
                                   | Some a => a
                                   | None => [VStr (key h)]
                                   end) w1)) as Hc.
    destruct (revalidate_catch _ _ _ _ _) as [b [hs2 w2]]. simpl in *.
    rewrite Hc, List.filter_app, Hw1. done.
Qed.

(** A call that is not a no-op and that does not ask for deduping, or
    finds no request in flight, invokes the fetcher exactly once: with
    the elements of the array when the key is an array, with the
    canonical key string otherwise. *)
Theorem fresh_call_fetches_once
    (K : jsval) (f : fetcherFn) (c : Config) (w0 : world)
    (opts : RevalidateOption) (hs : HookState) (w : world) :
  let h := (useSWR K (Some f) c w0).1 in
  canonical K w0 <> "" ->
  unmountedRef hs = false ->
  dedupe opts <> Some true \/ CONCURRENT_PROMISES w !! key h = None ->
  List.filter is_EFetch (effects (revalidate_start h opts (hs, w)).2.2)
  = List.filter is_EFetch (effects w)
    ++ [EFetch match (serializeKey K w0).1.1.2 with
               | Some elems => elems
               | None => [VStr (canonical K w0)]
               end].
Proof.
  intros h Hk Hu Hd.
  assert (key h = canonical K w0
          /\ fnArgs h = (serializeKey K w0).1.1.2
          /\ fn h = Some f) as (Hkey & Hargs & Hfn).
  { subst h. unfold useSWR, canonical.
    by destruct (serializeKey K w0) as [[[k a] e] w1]. }
  rewrite <- Hargs, <- Hkey. apply (revalidate_start_own h f); try done.
  by rewrite Hkey.
Qed.

Lemma fresh_call_fetches_once_witness :
  List.filter is_EFetch
    (effects (revalidate_start
                (useSWR (VArr 0 [VStr "/api"; VNum 3]) (Some demo_fetcher)
                   demo_config initial_world).1
                plain_call (initial_state, w_F1)).2.2)
  = [EFetch [VStr "user/1"]; EFetch [VStr "/api"; VNum 3]].
Proof.
  rewrite (fresh_call_fetches_once (VArr 0 [VStr "/api"; VNum 3])
             demo_fetcher demo_config initial_world plain_call
             initial_state w_F1);
    [vm_compute; reflexivity | vm_compute; discriminate | reflexivity
    | left; discriminate].
Defined.

(** * Further properties of the updaters, of [trigger] and of [mutate] *)

Lemma dispatch_isValidating_None (c : Config) (a : action) (hs : HookState) :
  a_isValidating a = None -> isValidating (dispatch c a hs) = isValidating hs.
Proof. unfold dispatch. intros ->. by destruct (dispatch_live hs). Qed.

(** An updater called with [shouldRevalidate = false], as
    [broadcastState] calls it, returns [false] and leaves the shared
    state alone: it starts no fetch.  It never touches [isValidating],
    and when no data comes with the call (an error is broadcast) the hook
    keeps its data. *)
Theorem broadcast_update_is_local
    (h : Hook) (updatedData updatedError : jsval) (dedupe : option bool)
    (hs : HookState) (w : world) :
  let r := onUpdate h (Some false) updatedData updatedError dedupe (hs, w) in
  r.1 = UFalse
  /\ r.2.2 = w
  /\ isValidating r.2.1 = isValidating hs
  /\ (updatedData = VUndefined -> data r.2.1 = data hs).
Proof.
  unfold onUpdate. simpl.
  split; [done|]. split; [done|].
  match goal with |- context [if ?b then dispatch _ _ _ else _] =>
    destruct b end.
  - split; [by apply dispatch_isValidating_None|].
    intros ->. by apply dispatch_data_None.
  - done.
Qed.

Lemma revalidate_start_joins (h : Hook) (f : fetcherFn) (hs : HookState)
    (w : world) (promise : jsval) :
  key h <> "" -> fn h = Some f -> unmountedRef hs = false ->
  CONCURRENT_PROMISES w !! key h = Some promise -> promise <> VUndefined ->
  (revalidate_start h {| dedupe := Some true; retryCount := None |}
     (hs, w)).2.2 = w.
Proof.
  intros Hk Hf Hu Hp Hne. unfold revalidate_start.
  apply String.eqb_neq in Hk. rewrite Hk, Hf, Hu, Hp. simpl.
  assert (String.eqb (typeof promise) "undefined" = false) as ->
    by by destruct promise.
  done.
Qed.

(** An updater called with [shouldRevalidate] on (or left out)
    revalidates.  Called with [dedupe = false], as the first updater of a
    key is by [trigger] and [mutate], it invokes the fetcher once, also
    while a request is in flight; called with [dedupe] on or left out
    while a request is in flight, it joins that request and the shared
    state is unchanged. *)
Theorem updater_revalidates
    (h : Hook) (f : fetcherFn) (shouldRevalidate : option bool)
    (updatedData updatedError : jsval) (hs : HookState) (w : world) :
  key h <> "" ->
  fn h = Some f ->
  unmountedRef hs = false ->
  default true shouldRevalidate = true ->
  List.filter is_EFetch
    (effects (onUpdate h shouldRevalidate updatedData updatedError
                (Some false) (hs, w)).2.2)
  = List.filter is_EFetch (effects w)
    ++ [EFetch match fnArgs h with
               | Some a => a
               | None => [VStr (key h)]
               end]
  /\ forall (dedupe : option bool) (promise : jsval),
       default true dedupe = true ->
       CONCURRENT_PROMISES w !! key h = Some promise ->
       promise <> VUndefined ->
       (onUpdate h shouldRevalidate updatedData updatedError dedupe
          (hs, w)).2.2 = w.
Proof.
  intros Hk Hf Hu Hsr. unfold onUpdate. rewrite Hsr.
  set (hs1 := if _ || _ then _ else hs).
  assert (unmountedRef hs1 = false) as Hu1.
  { subst hs1. match goal with |- context [if ?b then _ else _] =>
      destruct b end; [by rewrite dispatch_unmountedRef|done]. }
  split.
  - assert (dedupe {| dedupe := None; retryCount := None |} <> Some true)
      as Hd by done.
    pose proof (revalidate_start_own h f
                  {| dedupe := None; retryCount := None |} hs1 w Hk Hf Hu1
                  (or_introl Hd)) as Ho.
    change (default true (Some false)) with false. cbv iota.
    by destruct (revalidate_start h {| dedupe := None; retryCount := None |}
                   (hs1, w)) as [r s'].
  - intros dedupe promise -> Hp Hne.
    pose proof (revalidate_start_joins h f hs1 w promise Hk Hf Hu1 Hp Hne)
      as Hj.
    cbv iota.
    by destruct (revalidate_start h
                   {| dedupe := Some true; retryCount := None |}
                   (hs1, w)) as [r s'].
Qed.

Lemma updater_revalidates_witness :
  List.filter is_EFetch
    (effects (onUpdate demo_hook (Some true) (VStr "B") VUndefined
                (Some false) (hs_F1, w_F1)).2.2)
  = [EFetch [VStr "user/1"]; EFetch [VStr "user/1"]]
  /\ (onUpdate demo_hook (Some true) (VStr "B") VUndefined (Some true)
        (hs_F1, w_F1)).2.2 = w_F1.
Proof.
  assert (Hk : key demo_hook <> "") by (vm_compute; discriminate).
  assert (Hu : unmountedRef hs_F1 = false) by (vm_compute; reflexivity).
  destruct (updater_revalidates demo_hook demo_fetcher (Some true)
              (VStr "B") VUndefined hs_F1 w_F1 Hk eq_refl Hu eq_refl)
    as [Ha Hb].
  split.
  - rewrite Ha. vm_compute. reflexivity.
  - apply (Hb (Some true) (VPromise 0)); [reflexivity| |discriminate].
    vm_compute. reflexivity.
Defined.

Lemma mutate_start_pending (K V : jsval) (sr : bool) (w0 w1 : world)
    (m : mutate_pending) :
  mutate_start K V sr w0 = (MSuspended m, w1) ->
  m_key m <> ""
  /\ m_key m = canonical K w0
  /\ m_keyErr m = "err@" +:+ m_key m
  /\ m_shouldRevalidate m = sr.
Proof.
  unfold mutate_start, canonical.
  pose proof (useSWR_wf K None demo_config w0) as Hwf.
  unfold hook_wf, useSWR in Hwf.
  destruct (serializeKey K w0) as [[[k a] e] w']. simpl in Hwf.
  destruct (String.eqb_spec k "") as [-> | Hne]; [done|].
  simpl in Hwf.
  destruct (String.eqb (typeof V) "undefined").
  { by destruct (trigger K sr w'). }
  unfold Date_now. cbv beta iota zeta.
  destruct V as [| | | | | |src call| | |r];
    try (match goal with |- context [mutate_commit ?a ?b ?c ?d ?e ?f ?g ?h] =>
           destruct (mutate_commit a b c d e f g h) end; done).
  - rewrite get_VStr. destruct call as [v|err].
    + by intros [= <- <-].
    + match goal with |- context [mutate_commit ?a ?b ?c ?d ?e ?f ?g ?h] =>
        destruct (mutate_commit a b c d e f g h) end. done.
  - by intros [= <- <-].
Qed.

Lemma serializeKey_canonical (K : jsval) (w : world) :
  exists (a : option (list jsval)) (t : gmap nat nat) (c : nat),
    serializeKey K w
    = ((canonical K w, a,
        if negb (String.eqb (canonical K w) "")
        then "err@" +:+ canonical K w else ""), set_hash t c w).
Proof.
  pose proof (useSWR_wf K None demo_config w) as Hwf.
  destruct (serializeKey_frame K w) as (t & c & Hf).
  unfold hook_wf, useSWR, canonical in *.
  destruct (serializeKey K w) as [[[k a] e] w1]. simpl in *.
  exists a, t, c. by subst.
Qed.

(** While a [mutate] is suspended, every fetch result for its key is
    ignored, whenever the fetch started: the window it opened has its end
    at [0].  (The start of the window is the clock less one, which must
    not be [0] to count as a mutation.) *)
Theorem mutation_in_progress_ignores_fetch
    (K V : jsval) (sr : bool) (w0 w1 w : world) (m : mutate_pending)
    (t : option Z) :
  mutate_start K V sr w0 = (MSuspended m, w1) ->
  clock w0 (clock_reads w0) <> 1 ->
  MUTATION_TS w !! m_key m = MUTATION_TS w1 !! m_key m ->
  MUTATION_END_TS w !! m_key m = MUTATION_END_TS w1 !! m_key m ->
  shouldIgnoreRequest (m_key m) t w = true.
Proof.
  intros Hs Hc Hm He.
  apply mutate_start_opens_window in Hs as [Hs1 Hs2].
  rewrite Hs1 in Hm. rewrite Hs2 in He.
  eapply open_window_ignores; [exact Hm|lia|exact He].
Qed.

Lemma mutation_in_progress_ignores_fetch_witness :
  shouldIgnoreRequest "user/1" (Some 5000) mutation_1.2 = true.
Proof.
  assert (Hs : mutate_start (VStr "user/1") (VPromise 5) true initial_world
               = (MSuspended (msuspended_of mutation_1), mutation_1.2))
    by (vm_compute; reflexivity).
  assert (Hc : clock initial_world (clock_reads initial_world) <> 1)
    by (vm_compute; discriminate).
  exact (mutation_in_progress_ignores_fetch (VStr "user/1") (VPromise 5)
           true initial_world mutation_1.2 mutation_1.2
           (msuspended_of mutation_1) (Some 5000) Hs Hc eq_refl eq_refl).
Defined.

(** * Further properties of the listeners and of [hash] *)

Lemma run_op_calls (o : cache_op) (w : world) :
  effects (run_op o w)
  = effects w ++ (if is_read o then [] else EListener <$> __listeners w)
  /\ __listeners (run_op o w) = __listeners w.
Proof.
  destruct o as [k|k v|k|k|]; simpl;
    unfold get, set, has, delete, clear;
    try (destruct (serializeKey_frame k w) as (t & c & Hf);
         destruct (serializeKey k w) as [[[k' a'] e'] w1];
         simpl in Hf; subst w1);
    simpl; by rewrite ?app_nil_r.
Qed.

(** Over any sequence of store operations, every listener is called once
    for each [set], [delete] and [clear], in the order of subscription,
    also when the write changes nothing; [get] and [has] call none. *)
Theorem listeners_called_once_per_write (os : list cache_op) (w : world) :
  effects (run_ops os w)
  = effects w
    ++ List.concat (replicate (length (List.filter is_write os))
                      (EListener <$> __listeners w)).
Proof.
  revert w. induction os as [|o os IH]; intros w.
  - simpl. by rewrite app_nil_r.
  - change (run_ops (o :: os) w) with (run_ops os (run_op o w)).
    rewrite IH. destruct (run_op_calls o w) as [-> ->].
    unfold is_write. simpl. destruct (is_read o); simpl.
    + by rewrite app_nil_r.
    + by rewrite <- app_assoc.
Qed.

Lemma pretty_N_go_unquoted (x : N) :
  forall s : string, unquoted s -> unquoted (pretty_N_go x s).
Proof.
  induction (N.lt_wf_0 x) as [x _ IH]; intros s Hs.
  assert (x = 0 \/ 0 < x)%N as [->|Hx] by lia.
  - by rewrite pretty_N_go_0.
  - rewrite pretty_N_go_step by done. apply IH.
    + by apply N.div_lt.
    + simpl. unfold pretty_N_char. by repeat case_match.
Qed.

Lemma pretty_N_unquoted (x : N) : unquoted (pretty x).
Proof.
  unfold pretty, pretty_N. case_decide; [by simpl|].
  by apply pretty_N_go_unquoted.
Qed.

Lemma pretty_Z_unquoted (z : Z) : unquoted (pretty z).
Proof.
  destruct z as [|p|p]; unfold pretty, pretty_Z.
  - by simpl.
  - apply pretty_N_unquoted.
  - by cbv [String.append unquoted].
Qed.

(** The text that [hash] appends for an element that is neither a string
    nor a function does not begin with a double quote. *)
Lemma hash_arg_unquoted (x : jsval) (t : gmap nat nat) (c : nat) :
  typeof x <> "string" -> typeof x <> "function" ->
  unquoted (hash_arg x t c).1.1.
Proof.
  intros Hs Hf. unfold hash_arg.
  destruct x as [| |[|]|z| |s|src o|r l|r|r]; simpl; try done;
    try apply pretty_Z_unquoted;
    destruct (t !! r); simpl; apply pretty_N_unquoted.
Qed.

(** A string element of an array key is told from every element that is
    neither a string nor a function, whatever that element prints as:
    [["undefined"]] and [[undefined]], [["1"]] and [[1]], [["null"]] and
    [[null]] are different resources, now and after any further use of
    the store. *)
Theorem string_element_is_quoted
    (os : list cache_op) (w : world) (pre : list jsval) (s : string)
    (x : jsval) (i j : nat) :
  typeof x <> "string" ->
  typeof x <> "function" ->
  canonical (VArr i (pre ++ [VStr s])) w
  <> canonical (VArr j (pre ++ [x]))
       (run_ops os (serializeKey (VArr i (pre ++ [VStr s])) w).2).
Proof.
  intros Hs Hf. unfold canonical, serializeKey. simpl.
  assert (forall (y : jsval) (w0 : world),
    hash (pre ++ [y]) w0
    = let '(s, t, c) := hash_loop (pre ++ [y]) "arg" (table w0) (counter w0) in
      (s, set_hash t c w0)) as Hh.
  { intros y w0. unfold hash. by destruct pre. }
  rewrite !Hh, hash_loop_snoc.
  destruct (hash_loop pre "arg" (table w) (counter w))
    as [[s1 t1] c1] eqn:Hpre.
  change (hash_arg (VStr s) t1 c1) with (quote +:+ s +:+ quote, t1, c1).
  simpl.
  rewrite hash_loop_snoc.
  apply hash_loop_stable in Hpre as [_ Hre].
  destruct (run_ops_frame os (set_hash t1 c1 w)) as [_ Hsub].
  rewrite (Hre _ (counter (run_ops os (set_hash t1 c1 w))) Hsub).
  pose proof (hash_arg_unquoted x (table (run_ops os (set_hash t1 c1 w)))
                (counter (run_ops os (set_hash t1 c1 w))) Hs Hf) as Hu.
  destruct (hash_arg x _ _) as [[h t3] c3]. simpl in Hu |- *.
  intros Heq. apply (inj (String.append s1)) in Heq.
  apply (inj (String.append "@")) in Heq. subst h.
  by cbv [String.append quote unquoted] in Hu.
Qed.

Lemma string_element_is_quoted_witness :
  canonical (VArr 0 [VStr "/api"; VStr "undefined"]) initial_world
  <> canonical (VArr 1 [VStr "/api"; VUndefined])
       (run_ops [OpSet (VArr 2 [VObj 5]) VNull]
          (serializeKey (VArr 0 [VStr "/api"; VStr "undefined"])
             initial_world).2).
Proof.
  exact (string_element_is_quoted [OpSet (VArr 2 [VObj 5]) VNull]
           initial_world [VStr "/api"] "undefined" VUndefined 0 1
           ltac:(vm_compute; discriminate) ltac:(vm_compute; discriminate)).
Defined.

(** The quoting does not make [hash] injective on strings: a string that
    holds the separator between quotes reads as two elements. *)
Example quoted_separator_collides :
  canonical (VArr 0 [VStr "a"; VStr "b"]) initial_world
  = canonical (VArr 1 [VStr ("a" +:+ quote +:+ "@" +:+ quote +:+ "b")])
      initial_world.
Proof. vm_compute. reflexivity. Qed.

(** * The updaters as [trigger] and [mutate] call them *)

(** ** What a call of [revalidate] may change *)

Lemma onUpdate_false (h : Hook) (d e : jsval) (dd : option bool)
    (hs : HookState) (w : world) :
  onUpdate h (Some false) d e dd (hs, w)
  = (UFalse, (onUpdate_state h d e hs, w)).
Proof. reflexivity. Qed.

Lemma onUpdate_true (h : Hook) (d e : jsval) (dd : bool)
    (hs : HookState) (w : world) :
  onUpdate h (Some true) d e (Some dd) (hs, w)
  = let '(r, s') :=
      revalidate_start h
        (if dd then {| dedupe := Some true; retryCount := None |}
         else {| dedupe := None; retryCount := None |})
        (onUpdate_state h d e hs, w) in
    (URevalidate r, s').
Proof. reflexivity. Qed.

Lemma emit_hooks (hs : HookState) (ev : string) (ps : list jsval)
    (w : world) :
  hooks (emit hs ev ps w) = hooks w.
Proof. unfold emit. by destruct (unmountedRef hs). Qed.

Lemma emit_onErrorRetry_hooks (h : Hook) (hs : HookState) (e : jsval)
    (o : RevalidateOption) (w : world) :
  hooks (emit_onErrorRetry h hs e o w) = hooks w.
Proof.
  unfold emit_onErrorRetry, onErrorRetry, isDocumentVisible.
  destruct (unmountedRef hs); [done|].
  destruct (defaultOnErrorRetry _); [|done]. simpl.
  destruct (negb (visible w)); [done|].
  by destruct (match errorRetryCount (config h) with
               | Some _ => _ | None => _ end).
Qed.

Lemma revalidate_catch_hooks (h : Hook) (o : RevalidateOption) (d : bool)
    (err : jsval) (hs : HookState) (w : world) :
  hooks_evolve (hooks w) (hooks (revalidate_catch h o d err (hs, w)).2.2)
  /\ unmountedRef (revalidate_catch h o d err (hs, w)).2.1 = unmountedRef hs.
Proof.
  unfold revalidate_catch. rewrite set_VStr.
  set (w1 := notify _).
  assert (hooks w1 = hooks w) as H1 by done.
  destruct (negb (strict_eq (error hs) err)).
  - set (w2 := if negb d then _ else w1).
    assert (hooks_evolve (hooks w) (hooks w2)) as H2.
    { subst w2. rewrite <- H1. destruct (negb d); [|apply hooks_evolve_refl].
      by destruct (broadcastState_spec (key h) VUndefined err w1)
        as (m & -> & Hev). }
    simpl. split; [|apply dispatch_unmountedRef].
    destruct (shouldRetryOnError _);
      by rewrite ?emit_onErrorRetry_hooks, emit_hooks.
  - simpl. split; [|done].
    destruct (shouldRetryOnError _);
      rewrite ?emit_onErrorRetry_hooks, emit_hooks, H1;
      apply hooks_evolve_refl.
Qed.

Lemma during_updaters_refl (k : string) (w : world) : during_updaters k w w.
Proof. repeat split; try done. apply hooks_evolve_refl. Qed.

Lemma during_updaters_trans (k : string) (w1 w2 w3 : world) :
  during_updaters k w1 w2 -> during_updaters k w2 w3 ->
  during_updaters k w1 w3.
Proof.
  intros (A1 & A2 & A3 & A4 & A5 & A6 & A7 & A8 & A9 & A10 & A11)
         (B1 & B2 & B3 & B4 & B5 & B6 & B7 & B8 & B9 & B10 & B11).
  repeat split; try congruence.
  - intros k' Hk. rewrite B9, A9; done.
  - destruct (B10 k' H) as [-> _]. by destruct (A10 k' H) as [-> _].
  - destruct (B10 k' H) as [_ ->]. by destruct (A10 k' H) as [_ ->].
  - by eapply hooks_evolve_trans.
Qed.

(** A [revalidate] call, up to its suspension, changes the world only as
    the updaters of its key may. *)
Lemma revalidate_start_frame (h : Hook) (opts : RevalidateOption)
    (hs : HookState) (w : world) :
  keyErr h = "err@" +:+ key h ->
  during_updaters (key h) w (revalidate_start h opts (hs, w)).2.2
  /\ unmountedRef (revalidate_start h opts (hs, w)).2.1 = unmountedRef hs.
Proof.
  intros Hke. unfold revalidate_start.
  destruct (String.eqb (key h) ""); [split; [apply during_updaters_refl|done]|].
  destruct (fn h) as [f|]; [|split; [apply during_updaters_refl|done]].
  destruct (unmountedRef hs) eqn:Hu;
    [split; [apply during_updaters_refl|done]|].
  cbv zeta.
  match goal with |- context [if ?b then (Suspended _, _) else _] =>
    destruct b end.
  { simpl. split; [apply during_updaters_refl|].
    by rewrite dispatch_unmountedRef. }
  rewrite get_VStr.
  set (w1 := if negb (loadingTimeout (config h) =? 0) then _ else w).
  assert (only_calls w w1 /\ hooks w1 = hooks w) as [Hoc Hh].
  { subst w1. destruct (negb (loadingTimeout (config h) =? 0));
      [|split; [apply only_calls_refl|done]].
    destruct (negb (truthy _)); [|split; [apply only_calls_refl|done]].
    split; [by repeat split|done]. }
  destruct Hoc as (Ht & Hc & Hca & Hl & Hcp & Hcpts & Hcr & Hm & Hme & Hcl
                   & Hclr & Hv).
  set (hs1 := dispatch _ _ hs).
  assert (unmountedRef hs1 = false) as Hu1
    by (subst hs1; by rewrite dispatch_unmountedRef).
  destruct (f _ _) as [p|err].
  - simpl. split; [|done]. repeat split; try done; simpl.
    + intros k' Hk. by rewrite Hca.
    + rewrite lookup_insert_ne by done. by rewrite Hcp.
    + rewrite lookup_insert_ne by done. by rewrite Hcpts.
    + rewrite Hh. apply hooks_evolve_refl.
  - set (wf := perform _ w1).
    destruct (revalidate_catch_state h
                (assign_opts {| dedupe := Some false; retryCount := None |}
                   opts) false err hs1 wf) as [Hoc _].
    destruct (revalidate_catch_hooks h
                (assign_opts {| dedupe := Some false; retryCount := None |}
                   opts) false err hs1 wf) as [Hev Hun].
    destruct (revalidate_catch _ _ _ _ _) as [b [hs2 w2]]. simpl in *.
    destruct Hoc as (Bt & Bc & Bca & Bl & Bcp & Bcpts & Bcr & Bm & Bme & Bcl
                     & Bclr & Bv).
    simpl in *. split; [|congruence].
    repeat split; try congruence.
    + intros k' Hk. rewrite Bca, lookup_insert_ne, Hca; [done|congruence].
    + rewrite Bcp, lookup_delete_ne, Hcp; done.
    + rewrite Bcpts, lookup_delete_ne, Hcpts; done.
    + by rewrite <- Hh.
Qed.

(** ** The loop over the updaters *)

Lemma registered_evolve (k : string) (us : list nat)
    (m m' : gmap nat (Hook * HookState)) :
  registered k us m -> hooks_evolve m m' -> registered k us m'.
Proof.
  intros Hr Hev u Hu. destruct (Hr u Hu) as (h & hs & Hl & Hk & Hw & Hm).
  destruct (Hev u h hs Hl) as (hs' & Hl' & Hm').
  exists h, hs'. repeat split; try done. congruence.
Qed.

Lemma registered_tail (k : string) (u : nat) (us : list nat)
    (m : gmap nat (Hook * HookState)) :
  registered k (u :: us) m -> registered k us m.
Proof. intros Hr v Hv. apply Hr. apply elem_of_cons. by right. Qed.

Lemma hook_wf_keyErr (h : Hook) :
  hook_wf h -> key h <> "" -> keyErr h = "err@" +:+ key h.
Proof.
  unfold hook_wf. intros -> Hk. apply String.eqb_neq in Hk. by rewrite Hk.
Qed.

(** One call of an updater of a hook of the key [k]. *)
Lemma run_updater_frame (k : string) (u : nat) (sr : bool) (d e : jsval)
    (b : bool) (w : world) :
  k <> "" ->
  registered k [u] (hooks w) ->
  during_updaters k w (run_updater u sr d e b w).2.
Proof.
  intros Hk Hr.
  destruct (Hr u) as (h & hs & Hl & Hkey & Hwf & Hm);
    [by apply list_elem_of_singleton|].
  assert (keyErr h = "err@" +:+ key h) as Hke
    by (apply hook_wf_keyErr; [done|congruence]).
  unfold run_updater. set (wp := perform _ w).
  assert (during_updaters k w wp) as Hp
    by (repeat split; try done; apply hooks_evolve_refl).
  assert (hooks wp !! u = Some (h, hs)) as -> by done.
  destruct sr.
  - rewrite onUpdate_true.
    destruct (revalidate_start_frame h
                (if b then {| dedupe := Some true; retryCount := None |}
                 else {| dedupe := None; retryCount := None |})
                (onUpdate_state h d e hs) wp Hke) as [Hd Hu].
    destruct (revalidate_start h _ _) as [r [hs2 w2]]. simpl in *.
    rewrite Hkey in Hd.
    eapply during_updaters_trans; [exact Hp|].
    eapply during_updaters_trans; [exact Hd|].
    destruct Hd as (_ & _ & _ & _ & _ & _ & _ & _ & _ & _ & Hev).
    destruct (Hev u h hs Hl) as (hs' & Hl' & Hm').
    repeat split; try done. simpl.
    eapply hooks_evolve_insert; [exact Hl'|].
    rewrite Hu, onUpdate_state_unmountedRef. congruence.
  - rewrite onUpdate_false. simpl.
    eapply during_updaters_trans; [exact Hp|].
    repeat split; try done. simpl.
    eapply hooks_evolve_insert; [done|].
    apply onUpdate_state_unmountedRef.
Qed.

Lemma run_updaters_frame (k : string) (sr : bool) (d e : jsval)
    (us : list nat) :
  forall (i : nat) (w : world),
    k <> "" ->
    registered k us (hooks w) ->
    during_updaters k w (run_updaters us i sr d e w).2.
Proof.
  induction us as [|u us IH]; intros i w Hk Hr; simpl.
  - apply during_updaters_refl.
  - assert (registered k [u] (hooks w)) as Hu.
    { intros v Hv. apply list_elem_of_singleton in Hv as ->.
      apply Hr, elem_of_cons. by left. }
    pose proof (run_updater_frame k u sr d e (negb (Nat.eqb i 0)) w Hk Hu)
      as H1.
    destruct (run_updater u sr d e _ w) as [r w1]. simpl in H1.
    assert (registered k us (hooks w1)) as Hr1.
    { eapply registered_evolve; [by eapply registered_tail|].
      by destruct H1 as (_ & _ & _ & _ & _ & _ & _ & _ & _ & _ & Hev). }
    pose proof (IH (S i) w1 Hk Hr1) as H2.
    destruct (run_updaters us (S i) sr d e w1) as [rs w2]. simpl in *.
    by eapply during_updaters_trans.
Qed.

(** With [shouldRevalidate = false] the loop records its calls and
    changes cells of hooks, nothing else. *)
Lemma run_updaters_false (d e : jsval) (us : list nat) :
  forall (i : nat) (w : world),
    exists m : gmap nat (Hook * HookState),
      run_updaters us i false d e w
      = (replicate (length us) UFalse,
         set_hooks m (perform_all (updater_calls us i false d e) w))
      /\ hooks_evolve (hooks w) m.
Proof.
  induction us as [|u us IH]; intros i w; simpl.
  - exists (hooks w). split; [|apply hooks_evolve_refl].
    destruct w. unfold perform_all, set_hooks, set_effects. simpl.
    by rewrite app_nil_r.
  - unfold run_updater at 1. set (wp := perform _ w).
    destruct (hooks wp !! u) as [[h hs]|] eqn:Hl.
    + rewrite onUpdate_false.
      destruct (IH (S i)
                  (set_hooks (<[u := (h, onUpdate_state h d e hs)]> (hooks wp))
                     wp)) as (m & -> & Hev).
      exists m. split.
      * f_equal. unfold perform_all, perform, set_hooks, set_effects.
        simpl. by rewrite <- app_assoc.
      * eapply hooks_evolve_trans; [|exact Hev]. simpl.
        eapply hooks_evolve_insert; [exact Hl|].
        apply onUpdate_state_unmountedRef.
    + destruct (IH (S i) wp) as (m & -> & Hev).
      exists m. split; [|done].
      f_equal. unfold perform_all, perform, set_hooks, set_effects.
      simpl. by rewrite <- app_assoc.
Qed.

(** A [revalidate({dedupe: true})] while a request of the key is in
    flight leaves the world as it is. *)
Lemma soft_call_joins (h : Hook) (hs : HookState) (w : world) (p : jsval) :
  CONCURRENT_PROMISES w !! key h = Some p ->
  typeof p <> "undefined" ->
  (revalidate_start h {| dedupe := Some true; retryCount := None |}
     (hs, w)).2.2 = w
  /\ unmountedRef
       (revalidate_start h {| dedupe := Some true; retryCount := None |}
          (hs, w)).2.1 = unmountedRef hs.
Proof.
  intros Hp Hne. unfold revalidate_start.
  destruct (String.eqb (key h) ""); [done|].
  destruct (fn h) as [f|]; [|done].
  destruct (unmountedRef hs) eqn:Hu; [done|].
  rewrite Hp. simpl.
  assert (String.eqb (typeof p) "undefined" = false) as ->
    by by apply String.eqb_neq.
  simpl. split; [done|]. by rewrite dispatch_unmountedRef.
Qed.

(** The updaters after the first, while a request of the key is in
    flight: every one joins it. *)
Lemma run_updaters_join (k : string) (p : jsval) (d e : jsval)
    (us : list nat) :
  forall (i : nat) (w : world),
    registered k us (hooks w) ->
    CONCURRENT_PROMISES w !! k = Some p ->
    typeof p <> "undefined" ->
    exists m : gmap nat (Hook * HookState),
      (run_updaters us (S i) true d e w).2
      = set_hooks m (perform_all (updater_calls us (S i) true d e) w)
      /\ hooks_evolve (hooks w) m.
Proof.
  induction us as [|u us IH]; intros i w Hr Hp Hne; simpl.
  - exists (hooks w). split; [|apply hooks_evolve_refl].
    destruct w. unfold perform_all, set_hooks, set_effects. simpl.
    by rewrite app_nil_r.
  - destruct (Hr u) as (h & hs & Hl & Hkey & Hwf & Hm);
      [apply elem_of_cons; by left|].
    unfold run_updater at 1. set (wp := perform _ w).
    assert (hooks wp !! u = Some (h, hs)) as -> by done.
    rewrite onUpdate_true. cbv iota.
    assert (CONCURRENT_PROMISES wp !! key h = Some p) as Hp'
      by (by rewrite Hkey).
    destruct (soft_call_joins h (onUpdate_state h d e hs) wp p Hp' Hne)
      as [Hw Hu].
    destruct (revalidate_start h _ _) as [r [hs2 w2]]. simpl in Hw, Hu.
    subst w2.
    set (w1 := set_hooks _ wp).
    assert (hooks_evolve (hooks w) (hooks w1)) as Hev1.
    { subst w1. simpl. eapply hooks_evolve_insert; [exact Hl|].
      by rewrite Hu, onUpdate_state_unmountedRef. }
    destruct (IH (S i) w1) as (m & Hrun & Hev); [| |done|].
    { eapply registered_evolve; [by eapply registered_tail|done]. }
    { done. }
    destruct (run_updaters us (S (S i)) true d e w1) as [rs w3].
    simpl in *. subst w3. exists m. split.
    + unfold perform_all, perform, set_hooks, set_effects.
      simpl. by rewrite <- app_assoc.
    + by eapply hooks_evolve_trans.
Qed.

(** The first updater, whose fetcher returns: it starts the one request
    of the key. *)
Lemma run_updater_fetches (u : nat) (h : Hook) (hs : HookState)
    (f : fetcherFn) (p d e : jsval) (w : world) :
  hooks w !! u = Some (h, hs) ->
  key h <> "" ->
  fn h = Some f ->
  unmountedRef hs = false ->
  f (fetch_count w)
    match fnArgs h with Some a => a | None => [VStr (key h)] end
  = Returns p ->
  let w' := (run_updater u true d e false w).2 in
  fetch_count w' = S (fetch_count w)
  /\ CONCURRENT_PROMISES w' !! key h = Some p
  /\ CONCURRENT_PROMISES_TS w' !! key h = Some (clock w (clock_reads w))
  /\ broadcasts w' = broadcasts w ++ [EUpdater u true d e (Some false)]
  /\ hooks_evolve (hooks w) (hooks w')
  /\ __cache w' = __cache w.
Proof.
  intros Hl Hk Hf Hm Hp. unfold run_updater. set (wp := perform _ w).
  assert (hooks wp !! u = Some (h, hs)) as -> by done.
  rewrite onUpdate_true. cbv iota.
  set (hs1 := onUpdate_state h d e hs).
  assert (unmountedRef hs1 = false) as Hm1
    by (subst hs1; by rewrite onUpdate_state_unmountedRef).
  unfold revalidate_start. apply String.eqb_neq in Hk.
  rewrite Hk, Hf, Hm1. cbv zeta.
  change (default false
            (dedupe (assign_opts
                       {| dedupe := Some false; retryCount := None |}
                       {| dedupe := None; retryCount := None |})))
    with false.
  rewrite andb_false_r. rewrite get_VStr.
  set (w1 := if negb (loadingTimeout (config h) =? 0) then _ else wp).
  assert (only_calls wp w1 /\ hooks w1 = hooks wp
          /\ fetch_count w1 = fetch_count w
          /\ broadcasts w1
             = broadcasts w ++ [EUpdater u true d e (Some false)])
    as (Hoc & Hh & Hfc & Hb).
  { assert (fetch_count wp = fetch_count w) as Hfp.
    { unfold fetch_count. subst wp. simpl.
      rewrite List.filter_app. simpl. by rewrite app_nil_r. }
    assert (broadcasts wp
            = broadcasts w ++ [EUpdater u true d e (Some false)]) as Hbp.
    { unfold broadcasts. subst wp. simpl. by rewrite List.filter_app. }
    subst w1. destruct (negb (loadingTimeout (config h) =? 0));
      [|by split; [apply only_calls_refl|]].
    destruct (negb (truthy _)); [|by split; [apply only_calls_refl|]].
    split; [by repeat split|]. split; [done|]. split.
    - unfold fetch_count in *. simpl.
      rewrite List.filter_app. simpl. by rewrite app_nil_r.
    - unfold broadcasts in *. simpl.
      rewrite List.filter_app. simpl. by rewrite app_nil_r. }
  destruct Hoc as (Ht & Hc & Hca & Hli & Hcp & Hcpts & Hcr & Hmt & Hme & Hcl
                   & Hclr & Hv).
  rewrite Hfc, Hp. simpl.
  repeat split.
  - unfold fetch_count in *. simpl. rewrite List.filter_app. simpl.
    rewrite length_app. simpl. lia.
  - by rewrite lookup_insert_eq.
  - rewrite lookup_insert_eq. by rewrite Hcl, Hclr.
  - unfold broadcasts in *. simpl. rewrite List.filter_app. simpl.
    by rewrite app_nil_r.
  - rewrite Hh. simpl. eapply hooks_evolve_insert; [exact Hl|].
    rewrite dispatch_unmountedRef. by rewrite Hm1.
  - done.
Qed.

Lemma updater_calls_filter (sr : bool) (d e : jsval) (us : list nat) :
  forall i : nat,
    List.filter is_EUpdater (updater_calls us i sr d e)
    = updater_calls us i sr d e
    /\ List.filter is_EFetch (updater_calls us i sr d e) = [].
Proof.
  induction us as [|u us IH]; intros i; simpl; [done|].
  by destruct (IH (S i)) as [-> ->].
Qed.

(** ** [trigger] *)

(** [trigger(K)] on a key with mounted hooks revalidates all of them
    with one request: the updater of the first hook calls the fetcher,
    and, when the fetcher returns something (a promise, or any value but
    [undefined]), the updaters of the other hooks join the request it
    registered.  Every updater is called once, in order, with the cached
    data and error. *)
Theorem trigger_revalidates_once
    (K : jsval) (w : world) (u : nat) (us : list nat) (h : Hook)
    (hs : HookState) (f : fetcherFn) (p : jsval) :
  canonical K w <> "" ->
  CACHE_REVALIDATORS w !! canonical K w = Some (u :: us) ->
  registered (canonical K w) (u :: us) (hooks w) ->
  hooks w !! u = Some (h, hs) ->
  fn h = Some f ->
  f (fetch_count w)
    match fnArgs h with Some a => a | None => [VStr (key h)] end
  = Returns p ->
  typeof p <> "undefined" ->
  let k := canonical K w in
  let d := default VUndefined (__cache w !! k) in
  let e := default VUndefined (__cache w !! ("err@" +:+ k)) in
  let w' := (trigger K true w).2 in
  fetch_count w' = S (fetch_count w)
  /\ CONCURRENT_PROMISES w' !! k = Some p
  /\ CONCURRENT_PROMISES_TS w' !! k = Some (clock w (clock_reads w))
  /\ broadcasts w' = broadcasts w ++ updater_calls (u :: us) 0 true d e
  /\ __cache w' = __cache w.
Proof.
  intros Hk Hcr Hr Hl Hf Hp Hne k d e. fold k in Hk, Hcr, Hr.
  destruct (Hr u) as (h' & hs' & Hl' & Hkey & Hwf & Hm);
    [apply elem_of_cons; by left|].
  rewrite Hl in Hl'. injection Hl' as <- <-.
  unfold trigger.
  destruct (serializeKey_canonical K w) as (a & t & c & ->). fold k.
  apply String.eqb_neq in Hk. rewrite Hk. simpl negb. cbv iota.
  assert (CACHE_REVALIDATORS (set_hash t c w) !! k = Some (u :: us)) as ->
    by done.
  rewrite !get_VStr.
  change (default VUndefined (__cache (set_hash t c w) !! k)) with d.
  change (default VUndefined (__cache (set_hash t c w) !! ("err@" +:+ k)))
    with e.
  set (w0 := set_hash t c w).
  simpl run_updaters. change (negb (0 =? 0)%nat) with false.
  assert (key h <> "") as Hk' by (rewrite Hkey; by apply String.eqb_neq).
  destruct (run_updater_fetches u h hs f p d e w0 Hl Hk' Hf Hm Hp)
    as (Hfc & Hcp & Hcpts & Hb & Hev & Hca).
  change (fetch_count w0) with (fetch_count w) in Hfc.
  change (broadcasts w0) with (broadcasts w) in Hb.
  assert (keyErr h = "err@" +:+ key h) as Hke by by apply hook_wf_keyErr.
  assert (registered k [u] (hooks w0)) as Hru.
  { intros v Hv. apply list_elem_of_singleton in Hv as ->.
    apply Hr, elem_of_cons. by left. }
  pose proof (run_updater_frame k u true d e false w0
                ltac:(by apply String.eqb_neq) Hru) as Hfr.
  destruct (run_updater u true d e false w0) as [r1 w1]. simpl in *.
  rewrite Hkey in Hcp, Hcpts.
  destruct (run_updaters_join k p d e us 0 w1) as (m & Hrun & _);
    [|done|done|].
  { eapply registered_evolve; [by eapply registered_tail|exact Hev]. }
  destruct (run_updaters us 1 true d e w1) as [rs w2]. simpl in *.
  subst w2. simpl.
  repeat split.
  - unfold fetch_count in *. simpl. rewrite List.filter_app, length_app.
    destruct (updater_calls_filter true d e us 1) as [_ ->]. simpl. lia.
  - done.
  - done.
  - unfold broadcasts in *. simpl. rewrite List.filter_app, Hb.
    rewrite <- app_assoc. simpl. do 2 f_equal.
    by destruct (updater_calls_filter true d e us 1) as [-> _].
  - done.
Qed.

Lemma registered_mounted_world :
  registered "user/1" [7; 8]%nat (hooks mounted_world).
Proof.
  intros u Hu. exists demo_hook, initial_state.
  apply elem_of_cons in Hu as [-> | Hu];
    [|apply list_elem_of_singleton in Hu as ->];
    repeat split; vm_compute; reflexivity.
Qed.

Lemma trigger_revalidates_once_witness :
  fetch_count (trigger (VStr "user/1") true mounted_world).2 = 1%nat
  /\ CONCURRENT_PROMISES (trigger (VStr "user/1") true mounted_world).2
       !! "user/1" = Some (VPromise 0).
Proof.
  pose proof (trigger_revalidates_once (VStr "user/1") mounted_world 7 [8%nat]
                demo_hook initial_state demo_fetcher (VPromise 0)
                ltac:(vm_compute; discriminate)
                ltac:(vm_compute; reflexivity)
                registered_mounted_world
                ltac:(vm_compute; reflexivity)
                eq_refl
                ltac:(vm_compute; reflexivity)
                ltac:(vm_compute; discriminate)) as H.
  cbv zeta in H. destruct H as (H1 & H2 & _).
  split; [exact H1|exact H2].
Defined.

(** [trigger(K, false)] starts no request and writes nothing: it calls
    every updater of the key once, in order, with the cached data and
    error, the first with [dedupe = false] and the others with
    [dedupe = true]; the calls change cells of hooks and nothing else.
    With no list of updaters for the key it settles at once with the
    cached value. *)
Theorem trigger_without_revalidation (K : jsval) (w : world) :
  canonical K w <> "" ->
  let k := canonical K w in
  let d := default VUndefined (__cache w !! k) in
  let e := default VUndefined (__cache w !! ("err@" +:+ k)) in
  let us := default [] (CACHE_REVALIDATORS w !! k) in
  let r := trigger K false w in
  only_calls (serializeKey K w).2 r.2
  /\ effects r.2 = effects w ++ updater_calls us 0 false d e
  /\ hooks_evolve (hooks w) (hooks r.2)
  /\ r.1 = match CACHE_REVALIDATORS w !! k with
           | Some _ => AfterUpdaters (replicate (length us) UFalse) k VUndefined
           | None => Now (Returns d)
           end.
Proof.
  intros Hk k d e us r. subst r. unfold trigger. fold k in Hk.
  destruct (serializeKey_canonical K w) as (a & t & c & ->). fold k.
  apply String.eqb_neq in Hk. rewrite Hk. simpl negb. cbv iota.
  assert (CACHE_REVALIDATORS (set_hash t c w) !! k
          = CACHE_REVALIDATORS w !! k) as -> by done.
  subst us. destruct (CACHE_REVALIDATORS w !! k) as [us|]; cbn [default].
  - rewrite !get_VStr.
    change (default VUndefined (__cache (set_hash t c w) !! k)) with d.
    change (default VUndefined (__cache (set_hash t c w) !! ("err@" +:+ k)))
      with e.
    destruct (run_updaters_false d e us 0 (set_hash t c w))
      as (m & -> & Hev).
    simpl. repeat split; done.
  - rewrite get_VStr. simpl. repeat split; try done.
    + by rewrite app_nil_r.
    + apply hooks_evolve_refl.
Qed.

Lemma trigger_without_revalidation_witness :
  effects (trigger (VStr "user/1") false mounted_world).2
  = [EUpdater 7 false VUndefined VUndefined (Some false);
     EUpdater 8 false VUndefined VUndefined (Some true)].
Proof.
  pose proof (trigger_without_revalidation (VStr "user/1") mounted_world
                ltac:(vm_compute; discriminate)) as H.
  cbv zeta in H. destruct H as (_ & H & _).
  rewrite H. vm_compute. reflexivity.
Defined.

(** ** [mutate] *)

(** What a mutation that nothing has overtaken does, from the check on:
    it writes the data (when there is some) and the error, closes the
    window with the time of the write less one, and calls the updaters of
    the key.  The updaters leave the data and the window alone; with
    [shouldRevalidate = false] they start no request, and the error
    written stays. *)
Lemma mutate_commit_spec (k : string) (sr : bool) (bm bc : option Z)
    (d e : jsval) (w : world) :
  k <> "" ->
  bm = MUTATION_TS w !! k ->
  bc = CONCURRENT_PROMISES_TS w !! k ->
  registered k (default [] (CACHE_REVALIDATORS w !! k)) (hooks w) ->
  let r := mutate_commit k ("err@" +:+ k) sr bm bc d e w in
  __cache r.2 !! k
  = (if String.eqb (typeof d) "undefined" then __cache w !! k else Some d)
  /\ MUTATION_END_TS r.2 = <[k := clock w (clock_reads w) - 1]> (MUTATION_END_TS w)
  /\ MUTATION_TS r.2 = MUTATION_TS w
  /\ (sr = false ->
      __cache r.2 !! ("err@" +:+ k) = Some e
      /\ CONCURRENT_PROMISES r.2 = CONCURRENT_PROMISES w
      /\ CONCURRENT_PROMISES_TS r.2 = CONCURRENT_PROMISES_TS w
      /\ effects r.2
         = effects w
           ++ (if negb (String.eqb (typeof d) "undefined")
               then EListener <$> __listeners w else [])
           ++ (EListener <$> __listeners w)
           ++ updater_calls (default [] (CACHE_REVALIDATORS w !! k)) 0
                false d e)
  /\ (CACHE_REVALIDATORS w !! k = None -> r.1 = Now (throw_or_return d e)).
Proof.
  intros Hk -> -> Hr. unfold mutate_commit.
  assert (forall o : option Z, strict_eq_ts o o = true) as Hrefl.
  { intros o. unfold strict_eq_ts. by rewrite bool_decide_eq_true_2. }
  rewrite !Hrefl. simpl. rewrite !set_VStr. unfold Date_now.
  cbv beta iota zeta.
  set (w1 := if negb (String.eqb (typeof d) "undefined") then _ else w).
  assert (only_calls
            (if negb (String.eqb (typeof d) "undefined")
             then set___cache (<[k := d]> (__cache w)) w else w) w1
          /\ hooks w1 = hooks w
          /\ effects w1
             = effects w
               ++ (if negb (String.eqb (typeof d) "undefined")
                   then EListener <$> __listeners w else []))
    as (H1 & Hh1 & He1).
  { subst w1. destruct (negb (String.eqb (typeof d) "undefined")).
    - split; [by repeat split|]. done.
    - split; [apply only_calls_refl|]. split; [done|].
      by rewrite app_nil_r. }
  set (w4 := set_MUTATION_END_TS _ _).
  assert (__cache w4 = <[("err@" +:+ k) := e]> (__cache w1)) as Hc4 by done.
  assert (CACHE_REVALIDATORS w4 = CACHE_REVALIDATORS w) as Hcr.
  { destruct H1 as (_ & _ & _ & _ & _ & _ & H & _).
    transitivity (CACHE_REVALIDATORS w1); [done|].
    rewrite H. by destruct (negb _). }
  assert (hooks w4 = hooks w) as Hh4 by done.
  assert (MUTATION_TS w4 = MUTATION_TS w) as Hm4.
  { destruct H1 as (_ & _ & _ & _ & _ & _ & _ & H & _).
    transitivity (MUTATION_TS w1); [done|].
    rewrite H. by destruct (negb _). }
  assert (MUTATION_END_TS w4
          = <[k := clock w (clock_reads w) - 1]> (MUTATION_END_TS w)) as Hme4.
  { destruct H1 as (_ & _ & _ & _ & _ & _ & _ & _ & Hme & Hcl & Hclr & _).
    subst w4. simpl. rewrite Hme, Hcl, Hclr.
    by destruct (negb _). }
  assert (__cache w4 !! k
          = if String.eqb (typeof d) "undefined" then __cache w !! k
            else Some d) as Hk4.
  { rewrite Hc4, lookup_insert_ne by apply err_prefix_ne.
    destruct H1 as (_ & _ & -> & _).
    destruct (String.eqb (typeof d) "undefined"); simpl; [done|].
    by rewrite lookup_insert_eq. }
  assert (CONCURRENT_PROMISES w4 = CONCURRENT_PROMISES w
          /\ CONCURRENT_PROMISES_TS w4 = CONCURRENT_PROMISES_TS w)
    as [Hcp4 Hcpts4].
  { destruct H1 as (_ & _ & _ & _ & Hcp & Hcpts & _).
    split.
    - transitivity (CONCURRENT_PROMISES w1); [done|].
      rewrite Hcp. by destruct (negb _).
    - transitivity (CONCURRENT_PROMISES_TS w1); [done|].
      rewrite Hcpts. by destruct (negb _). }
  assert (effects w4
          = effects w
            ++ (if negb (String.eqb (typeof d) "undefined")
                then EListener <$> __listeners w else [])
            ++ (EListener <$> __listeners w)) as He4.
  { subst w4. simpl. rewrite He1, <- app_assoc. do 2 f_equal.
    destruct H1 as (_ & _ & _ & -> & _). by destruct (negb _). }
  change (CACHE_REVALIDATORS w1) with (CACHE_REVALIDATORS w4). rewrite Hcr.
  clearbody w4. clear H1 Hh1 He1. clearbody w1.
  destruct (CACHE_REVALIDATORS w !! k) as [us|] eqn:Hus; simpl in Hr |- *.
  - assert (registered k us (hooks w4)) as Hr4 by by rewrite Hh4.
    pose proof (run_updaters_frame k sr d e us 0 w4 Hk Hr4) as Hfr.
    pose proof (run_updaters_false d e us 0 w4) as Hfalse.
    destruct (run_updaters us 0 sr d e w4) as [rs w5] eqn:Hrun.
    cbn [fst snd] in *.
    destruct Hfr as (_ & _ & _ & _ & Fm & Fme & _ & _ & Fc & _).
    split; [rewrite Fc; [done|]; intros H; symmetry in H;
            by apply err_prefix_ne in H|].
    split; [congruence|]. split; [congruence|]. split; [|done].
    intros ->. destruct Hfalse as (m & Hm & _).
    rewrite Hrun in Hm. injection Hm as -> ->. simpl.
    rewrite Hc4, lookup_insert_eq. repeat split; try done.
    by rewrite He4, <- !app_assoc.
  - split; [done|]. split; [done|]. split; [done|]. split; [|done].
    intros _. rewrite Hc4, lookup_insert_eq. repeat split; try done.
    rewrite He4. simpl. by rewrite app_nil_r.
Qed.

(** A suspended [mutate] that is resumed with the timestamps of its key
    as it left them commits: the resolved value (unless it is
    [undefined]) is written under the key, and the window is closed with
    the time of the write less one; the updaters of the key, closures of
    mounted hooks, do not undo that.  With [shouldRevalidate = false]
    the caught error, or [undefined], stays under the error key, every
    updater is called once, in order, and no fetcher is invoked. *)
Theorem uninterrupted_mutation_commits
    (K V : jsval) (sr : bool) (w0 w1 w : world) (m : mutate_pending)
    (settled : outcome jsval) :
  mutate_start K V sr w0 = (MSuspended m, w1) ->
  MUTATION_TS w !! m_key m = MUTATION_TS w1 !! m_key m ->
  CONCURRENT_PROMISES_TS w !! m_key m
  = CONCURRENT_PROMISES_TS w1 !! m_key m ->
  registered (m_key m) (default [] (CACHE_REVALIDATORS w !! m_key m))
    (hooks w) ->
  let k := m_key m in
  let w' := (mutate_resume m settled w).2 in
  let '(d, e) := match settled with
                 | Returns v => (v, VUndefined)
                 | Throws err => (VUndefined, err)
                 end in
  __cache w' !! k = (if String.eqb (typeof d) "undefined"
                     then __cache w !! k else Some d)
  /\ MUTATION_END_TS w' !! k = Some (clock w (clock_reads w) - 1)
  /\ (sr = false ->
      __cache w' !! ("err@" +:+ k) = Some e
      /\ broadcasts w'
         = broadcasts w
           ++ updater_calls (default [] (CACHE_REVALIDATORS w !! k)) 0
                false d e
      /\ fetch_count w' = fetch_count w).
Proof.
  intros Hs Hm Ht Hr k w'.
  pose proof (mutate_start_snapshot _ _ _ _ _ _ Hs) as (Hbm & Hbc & _).
  pose proof (mutate_start_pending _ _ _ _ _ _ Hs) as (Hk & _ & Hke & Hsr).
  assert (exists d e : jsval,
    match settled with
    | Returns v => (v, VUndefined)
    | Throws err => (VUndefined, err)
    end = (d, e)) as (d & e & Hde) by (destruct settled; by eexists _, _).
  subst w'. unfold mutate_resume. rewrite Hde.
  rewrite <- Hm in Hbm. rewrite <- Ht in Hbc. rewrite Hke, Hsr.
  destruct (mutate_commit_spec (m_key m) sr _ _ d e w Hk Hbm Hbc Hr)
    as (Hc & He & _ & Hf & _).
  fold k in Hc, He, Hf |- *.
  split; [exact Hc|]. split; [by rewrite He, lookup_insert_eq|].
  intros ->. destruct (Hf eq_refl) as (Hce & _ & _ & Hef).
  split; [exact Hce|].
  destruct (updater_calls_filter false d e
              (default [] (CACHE_REVALIDATORS w !! k)) 0) as [Hu1 Hu2].
  split.
  - unfold broadcasts. rewrite Hef, !List.filter_app.
    rewrite (filter_fmap_false is_EUpdater EListener) by done.
    assert (List.filter is_EUpdater
              (if negb (String.eqb (typeof d) "undefined")
               then EListener <$> __listeners w else []) = []) as ->.
    { destruct (negb _); [|done]. by apply filter_fmap_false. }
    simpl. by rewrite Hu1.
  - unfold fetch_count. rewrite Hef, !List.filter_app.
    rewrite (filter_fmap_false is_EFetch EListener) by done.
    assert (List.filter is_EFetch
              (if negb (String.eqb (typeof d) "undefined")
               then EListener <$> __listeners w else []) = []) as ->.
    { destruct (negb _); [|done]. by apply filter_fmap_false. }
    rewrite Hu2. by rewrite !app_nil_r.
Qed.

Lemma registered_nil (k : string) (m : gmap nat (Hook * HookState)) :
  registered k [] m.
Proof. intros u Hu. by apply elem_of_nil in Hu. Qed.

Lemma uninterrupted_mutation_commits_witness :
  __cache (mutate_resume (msuspended_of mutation_1) (Returns (VStr "V1"))
             mutation_1.2).2 !! "user/1" = Some (VStr "V1")
  /\ MUTATION_END_TS
       (mutate_resume (msuspended_of mutation_1) (Returns (VStr "V1"))
          mutation_1.2).2 !! "user/1" = Some 1000.
Proof.
  assert (Hs : mutate_start (VStr "user/1") (VPromise 5) true initial_world
               = (MSuspended (msuspended_of mutation_1), mutation_1.2))
    by (vm_compute; reflexivity).
  destruct (uninterrupted_mutation_commits (VStr "user/1") (VPromise 5) true
              initial_world mutation_1.2 mutation_1.2
              (msuspended_of mutation_1) (Returns (VStr "V1")) Hs
              eq_refl eq_refl (registered_nil _ _)) as (H1 & H2 & _).
  split; [exact H1|exact H2].
Defined.

(** [mutate] with a plain value (not [undefined], not a function, not a
    promise) on a key that is not empty does not suspend: when it
    returns, the store holds the value under the key, and the mutation
    window of the key is opened and closed with the two readings of the
    clock less one; the updaters of the key, closures of mounted hooks,
    do not undo that.  With [shouldRevalidate = false] the store holds
    [undefined] under the error key and no fetcher was invoked; without
    a list of updaters the call settles at once with the value. *)
Theorem mutate_plain_value
    (K V : jsval) (sr : bool) (w : world) :
  canonical K w <> "" ->
  typeof V <> "undefined" ->
  typeof V <> "function" ->
  (forall r : nat, V <> VPromise r) ->
  registered (canonical K w)
    (default [] (CACHE_REVALIDATORS w !! canonical K w)) (hooks w) ->
  let k := canonical K w in
  let r := mutate_start K V sr w in
  __cache r.2 !! k = Some V
  /\ MUTATION_TS r.2 !! k = Some (clock w (clock_reads w) - 1)
  /\ MUTATION_END_TS r.2 !! k = Some (clock w (S (clock_reads w)) - 1)
  /\ (sr = false ->
      __cache r.2 !! ("err@" +:+ k) = Some VUndefined
      /\ fetch_count r.2 = fetch_count w)
  /\ (CACHE_REVALIDATORS w !! k = None -> r.1 = MSettles (Now (Returns V))).
Proof.
  intros Hk Hu Hf Hp Hreg k r. subst r. unfold mutate_start.
  destruct (serializeKey_canonical K w) as (a & t & c & ->). fold k.
  fold k in Hk, Hreg. pose proof Hk as Hk0.
  apply String.eqb_neq in Hk. rewrite Hk.
  apply String.eqb_neq in Hu. rewrite Hu.
  unfold Date_now. cbv beta iota zeta.
  set (w2 := set_MUTATION_END_TS _ _).
  assert (forall d : jsval,
    (let '(r, w3) :=
       mutate_commit k (if negb false then "err@" +:+ k else "") sr
         (MUTATION_TS w2 !! k) (CONCURRENT_PROMISES_TS w2 !! k) V d w2 in
     (MSettles r, w3))
    = (MSettles (mutate_commit k ("err@" +:+ k) sr (MUTATION_TS w2 !! k)
                   (CONCURRENT_PROMISES_TS w2 !! k) V d w2).1,
       (mutate_commit k ("err@" +:+ k) sr (MUTATION_TS w2 !! k)
          (CONCURRENT_PROMISES_TS w2 !! k) V d w2).2)) as Hlet.
  { intros d. simpl negb. cbv iota. by destruct (mutate_commit _ _ _ _ _ _ _ _). }
  assert (registered k (default [] (CACHE_REVALIDATORS w2 !! k)) (hooks w2))
    as Hreg2 by done.
  destruct (mutate_commit_spec k sr _ _ V VUndefined w2 Hk0
              eq_refl eq_refl Hreg2) as (Hc & He & Hm & Hfalse & Hr).
  rewrite Hu in Hc, Hfalse. change (negb false) with true in Hfalse.
  cbv iota in Hc, Hfalse.
  assert (forall X : mutate_started * world,
    X = (MSettles (mutate_commit k ("err@" +:+ k) sr (MUTATION_TS w2 !! k)
                     (CONCURRENT_PROMISES_TS w2 !! k) V VUndefined w2).1,
         (mutate_commit k ("err@" +:+ k) sr (MUTATION_TS w2 !! k)
            (CONCURRENT_PROMISES_TS w2 !! k) V VUndefined w2).2) ->
    __cache X.2 !! k = Some V
    /\ MUTATION_TS X.2 !! k = Some (clock w (clock_reads w) - 1)
    /\ MUTATION_END_TS X.2 !! k = Some (clock w (S (clock_reads w)) - 1)
    /\ (sr = false ->
        __cache X.2 !! ("err@" +:+ k) = Some VUndefined
        /\ fetch_count X.2 = fetch_count w)
    /\ (CACHE_REVALIDATORS w !! k = None ->
        X.1 = MSettles (Now (Returns V)))) as Hgoal.
  { intros X ->. cbn [fst snd].
    split; [exact Hc|].
    split; [rewrite Hm; subst w2; simpl; by rewrite lookup_insert_eq|].
    split; [rewrite He; subst w2; simpl; by rewrite lookup_insert_eq|].
    split.
    - intros Hsr. destruct (Hfalse Hsr) as (Hce & _ & _ & Hef).
      split; [exact Hce|].
      unfold fetch_count. rewrite Hef, !List.filter_app.
      rewrite !(filter_fmap_false is_EFetch EListener) by done.
      destruct (updater_calls_filter false V VUndefined
                  (default [] (CACHE_REVALIDATORS w2 !! k)) 0) as [_ ->].
      by rewrite !app_nil_r.
    - intros Hn. by rewrite Hr. }
  destruct V; try done; try (apply Hgoal; apply Hlet).
  by destruct (Hp ref).
Qed.

Lemma mutate_plain_value_witness :
  __cache (mutate_start (VStr "user/1") (VObj 8) true mounted_world).2
    !! "user/1"
  = Some (VObj 8).
Proof.
  exact (proj1 (mutate_plain_value (VStr "user/1") (VObj 8)
                  true mounted_world
                  ltac:(vm_compute; discriminate) ltac:(discriminate)
                  ltac:(discriminate) ltac:(discriminate)
                  registered_mounted_world)).
Defined.

(** Once a suspended [mutate] has committed, the results of the fetches
    of its key that started before the commit are ignored, whatever the
    updaters of the key, closures of mounted hooks, then start.  After a
    commit with [shouldRevalidate = false], a fetch that starts at the
    time of the commit or later, with no later fetch registered in
    flight, is accepted. *)
Theorem committed_mutation_supersedes
    (K V : jsval) (sr : bool) (w0 w1 w : world) (m : mutate_pending)
    (settled : outcome jsval) (t1 : Z) :
  mutate_start K V sr w0 = (MSuspended m, w1) ->
  MUTATION_TS w !! m_key m = MUTATION_TS w1 !! m_key m ->
  CONCURRENT_PROMISES_TS w !! m_key m
  = CONCURRENT_PROMISES_TS w1 !! m_key m ->
  registered (m_key m) (default [] (CACHE_REVALIDATORS w !! m_key m))
    (hooks w) ->
  clock w0 (clock_reads w0) <> 1 ->
  clock w (clock_reads w) <> 1 ->
  let w' := (mutate_resume m settled w).2 in
  (t1 < clock w (clock_reads w) ->
   shouldIgnoreRequest (m_key m) (Some t1) w' = true)
  /\ (sr = false ->
      clock w (clock_reads w) <= t1 ->
      clock w0 (clock_reads w0) <= t1 ->
      js_gt (CONCURRENT_PROMISES_TS w !! m_key m) (Some t1) = false ->
      shouldIgnoreRequest (m_key m) (Some t1) w' = false).
Proof.
  intros Hs Hm Ht Hr Hc0 Hc w'.
  pose proof (mutate_start_snapshot _ _ _ _ _ _ Hs) as (Hbm & Hbc & _).
  pose proof (mutate_start_opens_window _ _ _ _ _ _ Hs) as [Hs1 _].
  pose proof (mutate_start_pending _ _ _ _ _ _ Hs) as (Hk & _ & Hke & Hsr).
  rewrite <- Hm in Hbm. rewrite <- Ht in Hbc.
  subst w'. unfold mutate_resume.
  destruct (match settled with
            | Returns v => (v, VUndefined)
            | Throws err => (VUndefined, err)
            end) as [d e].
  rewrite Hke, Hsr.
  destruct (mutate_commit_spec (m_key m) sr _ _ d e w Hk Hbm Hbc Hr)
    as (_ & He & Hmt & Hf & _).
  unfold shouldIgnoreRequest.
  rewrite He, Hmt, Hm, Hs1, lookup_insert_eq. simpl.
  assert ((clock w0 (clock_reads w0) - 1 =? 0) = false) as ->
    by (apply Z.eqb_neq; lia).
  unfold strict_eq_ts. rewrite bool_decide_eq_false_2
    by (intros [= ?]; lia).
  simpl. split.
  - intros Hlt.
    assert ((t1 <=? clock w (clock_reads w) - 1) = true) as ->
      by (apply Z.leb_le; lia).
    by rewrite !orb_true_r.
  - intros Hsr' H1 H2 Hgt. destruct (Hf Hsr') as (_ & _ & -> & _).
    rewrite Hgt.
    assert ((t1 <=? clock w (clock_reads w) - 1) = false) as ->
      by (apply Z.leb_gt; lia).
    assert ((t1 <=? clock w0 (clock_reads w0) - 1) = false) as ->
      by (apply Z.leb_gt; lia).
    done.
Qed.

Lemma committed_mutation_supersedes_witness :
  shouldIgnoreRequest "user/1" (Some 1000)
    (mutate_resume (msuspended_of mutation_1) (Returns (VStr "V1"))
       mutation_1.2).2 = true.
Proof.
  assert (Hs : mutate_start (VStr "user/1") (VPromise 5) true initial_world
               = (MSuspended (msuspended_of mutation_1), mutation_1.2))
    by (vm_compute; reflexivity).
  assert (Hc0 : clock initial_world (clock_reads initial_world) <> 1)
    by (vm_compute; discriminate).
  assert (Hc : clock mutation_1.2 (clock_reads mutation_1.2) <> 1)
    by (vm_compute; discriminate).
  assert (Hlt : 1000 < clock mutation_1.2 (clock_reads mutation_1.2))
    by (vm_compute; reflexivity).
  exact (proj1 (committed_mutation_supersedes (VStr "user/1") (VPromise 5)
                  true initial_world mutation_1.2 mutation_1.2
                  (msuspended_of mutation_1) (Returns (VStr "V1")) 1000
                  Hs eq_refl eq_refl (registered_nil _ _) Hc0 Hc) Hlt).
Defined.

(** [mutate] with a function that throws when it is called does not
    suspend: the cached data stays and the window is closed, whatever
    the updaters of the key, closures of mounted hooks, then start.
    With [shouldRevalidate = false] the thrown value stays under the
    error key; without a list of updaters the call settles at once, and
    rejects with the thrown value when that is truthy. *)
Theorem mutate_function_throws
    (K : jsval) (src : string) (err : jsval) (sr : bool) (w : world) :
  canonical K w <> "" ->
  registered (canonical K w)
    (default [] (CACHE_REVALIDATORS w !! canonical K w)) (hooks w) ->
  let k := canonical K w in
  let r := mutate_start K (VFun src (Throws err)) sr w in
  __cache r.2 !! k = __cache w !! k
  /\ MUTATION_END_TS r.2 !! k = Some (clock w (S (clock_reads w)) - 1)
  /\ (sr = false -> __cache r.2 !! ("err@" +:+ k) = Some err)
  /\ (CACHE_REVALIDATORS w !! k = None ->
      r.1 = MSettles (Now (throw_or_return VUndefined err))).
Proof.
  intros Hk Hreg k r. subst r. unfold mutate_start.
  destruct (serializeKey_canonical K w) as (a & t & c & ->). fold k.
  fold k in Hk, Hreg. pose proof Hk as Hk0.
  apply String.eqb_neq in Hk. rewrite Hk.
  change (String.eqb (typeof (VFun src (Throws err))) "undefined")
    with false.
  unfold Date_now. cbv beta iota zeta. rewrite get_VStr.
  change (negb false) with true. cbv iota.
  set (w3 := perform _ _).
  assert (registered k (default [] (CACHE_REVALIDATORS w3 !! k)) (hooks w3))
    as Hreg3 by done.
  destruct (mutate_commit_spec k sr _ _ VUndefined err w3 Hk0
              eq_refl eq_refl Hreg3) as (Hc & He & _ & Hf & Hr).
  destruct (mutate_commit k ("err@" +:+ k) sr _ _ VUndefined err w3)
    as [r w']. cbn [fst snd] in *.
  split; [by rewrite Hc|].
  split; [rewrite He; subst w3; simpl; by rewrite lookup_insert_eq|].
  split; [intros Hsr; by destruct (Hf Hsr) as (-> & _)|].
  intros Hn. by rewrite Hr.
Qed.

Lemma mutate_function_throws_witness :
  __cache (mutate_start (VStr "user/1")
             (VFun "() => { throw e }" (Throws (VObj 3))) true
             mounted_world).2 !! "user/1"
  = __cache mounted_world !! "user/1".
Proof.
  exact (proj1 (mutate_function_throws (VStr "user/1") "() => { throw e }"
                  (VObj 3) true mounted_world
                  ltac:(vm_compute; discriminate) registered_mounted_world)).
Defined.

(** The same end to end, on the two mounted hooks of [mounted_world]:
    [mutate(K, "B")] writes the value and makes one request for the two
    hooks; when the fetcher throws at once, the updater of the first hook
    runs the [catch] block of its [revalidate] inside [mutate], so that
    the error key holds the value the fetcher threw, and every hook calls
    the fetcher. *)
Example mutate_revalidates_mounted_hooks :
  let w' := (mutate_start (VStr "user/1") (VStr "B") true mounted_world).2 in
  __cache w' !! "user/1" = Some (VStr "B")
  /\ fetch_count w' = 1%nat
  /\ CONCURRENT_PROMISES w' !! "user/1" = Some (VPromise 0).
Proof. repeat split; vm_compute; reflexivity. Qed.

Example throwing_fetcher_overwrites_error :
  let throwing : fetcherFn := fun _ _ => Throws (VStr "down") in
  let h := (useSWR (VStr "user/1") (Some throwing) demo_config
              initial_world).1 in
  let w :=
    set_hooks {[7%nat := (h, initial_state); 8%nat := (h, initial_state)]}
      (set_CACHE_REVALIDATORS {["user/1" := [7; 8]%nat]} initial_world) in
  let w' := (mutate_start (VStr "user/1") (VStr "B") true w).2 in
  __cache w' !! "user/1" = Some (VStr "B")
  /\ __cache w' !! "err@user/1" = Some (VStr "down")
  /\ fetch_count w' = 2%nat
  /\ CONCURRENT_PROMISES w' !! "user/1" = None.
Proof. repeat split; vm_compute; reflexivity. Qed.
